(** * bmwcd: the BMW ConnectedDrive client (bmwcdapi.py)

    A shallow embedding of the class [ConnectedDrive]: the token life
    cycle ([generate_credentials], [token_valid]), the data requests
    ([request_car_data], [get_cars], [get_car_data]), the polling gate
    ([update]) and the remote command protocol ([execute_service]).

    Python objects are explicit values, the instance [self] is a record
    threaded through every method, and the outside (clock, HTTP transport,
    [time.sleep]) is a second record, the world, which keeps the trace of
    every request sent and every sleep taken.  An exception keeps the
    mutations made before it, as in Python.

    Times are rationals.  The gate of [update] subtracts two floats and
    compares the result with an int: [update_double] takes that
    subtraction on IEEE doubles, as Python does, and [update] takes it
    exactly; the two are compared at the end. *)

From Stdlib Require Import ZArith QArith Qabs Qround List String Ascii Bool Lia.
From Stdlib Require Import DecimalString.
Import ListNotations.

Local Open Scope string_scope.
Local Open Scope Z_scope.

Set Warnings "-register-all".

(** ** Python values *)

Module Py.

(** The values the program handles: what [json()] decodes (null, booleans,
    numbers, strings, arrays, objects) and the integers and strings the
    program builds itself.  A dict keeps its insertion order. *)
Inductive pyval : Type :=
| PNone
| PBool (b : bool)
| PInt (n : Z)
| PFloat (q : Q)
| PStr (s : string)
| PList (l : list pyval)
| PDict (d : list (string * pyval)).

Definition dict := list (string * pyval).

Inductive exn : Type :=
| TypeError
| KeyError
| AttributeError
| ValueError          (* json(): the body is not JSON *)
| OverflowError       (* time.localtime: timestamp out of range *)
| ParseError          (* etree.fromstring: the text is not XML *)
| RequestException.   (* requests: connection fault *)

(** [k in d] *)
Fixpoint dict_mem (k : string) (d : dict) : bool :=
  match d with
  | [] => false
  | (k', _) :: d' => if String.eqb k k' then true else dict_mem k d'
  end.

(** [d[k]], [None] standing for the KeyError *)
Fixpoint dict_get (k : string) (d : dict) : option pyval :=
  match d with
  | [] => None
  | (k', v) :: d' => if String.eqb k k' then Some v else dict_get k d'
  end.

(** [d[k] = v]: an existing key keeps its place, a new one goes last *)
Fixpoint dict_set (k : string) (v : pyval) (d : dict) : dict :=
  match d with
  | [] => [(k, v)]
  | (k', v') :: d' =>
      if String.eqb k k' then (k', v) :: d' else (k', v') :: dict_set k v d'
  end.

(** [type(v) is int]: a bool is not an int for this test *)
Definition is_int (v : pyval) : bool :=
  match v with PInt _ => true | _ => false end.

(** [v == s] for a string literal [s] *)
Definition eq_str (v : pyval) (s : string) : bool :=
  match v with PStr s' => String.eqb s' s | _ => false end.

(** [int(x)] on a float: truncation towards zero. Floats are read as the
    exact rationals they denote. *)
Definition int_of_float (x : Q) : Z := Z.quot (Qnum x) (Zpos (Qden x)).

(** [round(x)] on a float: to the nearest integer, ties to even *)
Definition round (x : Q) : Z :=
  let f := Qfloor x in
  let r := (x - inject_Z f)%Q in
  match (r ?= 1 # 2)%Q with
  | Lt => f
  | Gt => f + 1
  | Eq => if Z.even f then f else f + 1
  end.

(** [a > b] on floats *)
Definition float_gt (a b : Q) : bool := negb (Qle_bool a b).

(** [str(n)] for an int *)
Definition str_of_int (n : Z) : string := NilEmpty.string_of_int (Z.to_int n).

(** [s in t] for strings *)
Fixpoint contains (s t : string) : bool :=
  if String.prefix s t then true
  else match t with
       | EmptyString => false
       | String _ t' => contains s t'
       end.

(** [for x in v]: the items iteration yields, [None] when [v] is not
    iterable (TypeError).  A dict yields its keys, a string its
    characters. *)
Fixpoint chars (s : string) : list pyval :=
  match s with
  | EmptyString => []
  | String c s' => PStr (String c EmptyString) :: chars s'
  end.

Definition iter (v : pyval) : option (list pyval) :=
  match v with
  | PList l => Some l
  | PDict d => Some (map (fun kv => PStr (fst kv)) d)
  | PStr s => Some (chars s)
  | PNone | PBool _ | PInt _ | PFloat _ => None
  end.

(** [v[k]] for a key [k] that is a string or None: only a dict accepts a
    string key, and no JSON object has the key None. *)
Definition getitem (v : pyval) (k : option string) : exn + pyval :=
  match v with
  | PDict d =>
      match k with
      | Some key =>
          match dict_get key d with Some x => inr x | None => inl KeyError end
      | None => inl KeyError
      end
  | _ => inl TypeError
  end.

End Py.
Import Py.

(** ** The pattern of the token redirect *)

Module Re.

Definition code (c : ascii) : N := N_of_ascii c.

Definition between (lo hi : N) (c : ascii) : bool :=
  (N.leb lo (code c) && N.leb (code c) hi)%bool.

(** [\d]: the decimal digits.  Header text is Latin-1, where the only
    decimal digits are 0-9. *)
Definition digit (c : ascii) : bool := between 48 57 c.

(** [\w]: letters, numeric characters and the underscore; in Latin-1 the
    ASCII ones and the letters and numerics of the upper half. *)
Definition word (c : ascii) : bool :=
  (digit c || between 65 90 c || between 97 122 c || N.eqb (code c) 95
   || N.eqb (code c) 170 || between 178 179 c || N.eqb (code c) 181
   || between 185 186 c || between 188 190 c
   || between 192 214 c || between 216 246 c || between 248 255 c)%bool.

(** [.]: anything but a newline *)
Definition dot (c : ascii) : bool := negb (N.eqb (code c) 10).

Section Backtracking.
Context {R : Type}.

(** A literal: the rest of the pattern runs on what follows it. *)
Fixpoint lit (l s : string) (k : string -> option R) : option R :=
  match l with
  | EmptyString => k s
  | String a l' =>
      match s with
      | String b s' => if Ascii.eqb a b then lit l' s' k else None
      | EmptyString => None
      end
  end.

(** [p*], greedy: the longest run first, one character given back at each
    failure of the rest of the pattern.  [acc] is the run so far, last
    character first. *)
Fixpoint star (p : ascii -> bool) (acc s : string)
    (k : string -> string -> option R) : option R :=
  match s with
  | String c s' =>
      if p c then
        match star p (String c acc) s' k with
        | Some r => Some r
        | None => k acc s
        end
      else k acc s
  | EmptyString => k acc s
  end.

(** [p+], greedy *)
Definition plus (p : ascii -> bool) (s : string)
    (k : string -> string -> option R) : option R :=
  match s with
  | String c s' => if p c then star p (String c EmptyString) s' k else None
  | EmptyString => None
  end.

End Backtracking.

Fixpoint rev_append (a b : string) : string :=
  match a with
  | EmptyString => b
  | String c a' => rev_append a' (String c b)
  end.

Definition group (acc : string) : string := rev_append acc EmptyString.

(** [re.match(".*access_token=([\w\d]+).*token_type=(\w+).*expires_in=(\d+).*", s)]:
    the three groups of the first match in backtracking order, [None] when
    there is none.  [re.match] anchors at the start only. *)
Definition match_token (s : string) : option (string * string * string) :=
  star dot EmptyString s (fun _ s1 =>
  lit "access_token=" s1 (fun s2 =>
  plus (fun c => (word c || digit c)%bool) s2 (fun g1 s3 =>
  star dot EmptyString s3 (fun _ s4 =>
  lit "token_type=" s4 (fun s5 =>
  plus word s5 (fun g2 s6 =>
  star dot EmptyString s6 (fun _ s7 =>
  lit "expires_in=" s7 (fun s8 =>
  plus digit s8 (fun g3 s9 =>
  star dot EmptyString s9 (fun _ _ =>
  Some (group g1, group g2, group g3))))))))))).

(** [int(s)] for a string of decimal digits *)
Fixpoint int_of_digits (acc : Z) (s : string) : Z :=
  match s with
  | EmptyString => acc
  | String c s' => int_of_digits (10 * acc + (Z.of_N (code c) - 48)) s'
  end.

End Re.

(** ** The outside: transport, clock, sleep *)

Inductive method : Type := GET | POST.

(** One call of [requests.get] or [requests.post], with the arguments the
    program passes.  [req_data] keeps the form fields given to
    [urllib.parse.urlencode] rather than their encoding.  [req_timeout] is
    the [timeout] argument, [None] when the call passes none (the
    transport then waits without bound). *)
Record Request : Type := {
  req_method : method;
  req_url : string;
  req_headers : list (string * string);
  req_data : option (list (string * pyval));
  req_allow_redirects : bool;
  req_timeout : option Z
}.

(** An element of the tree [etree.fromstring] builds. *)
Inductive xml : Type :=
| Element (tag : string) (text : option string) (children : list xml).

Definition xml_tag (e : xml) : string := let 'Element t _ _ := e in t.
Definition xml_text (e : xml) : option string := let 'Element _ t _ := e in t.
Definition xml_children (e : xml) : list xml := let 'Element _ _ c := e in c.

(** [root.find(tag)]: the first child with that tag *)
Definition xml_find (name : string) (root : xml) : option xml :=
  List.find (fun e => String.eqb (xml_tag e) name) (xml_children root).

(** A [requests.Response].  [json] is what [.json()] returns ([None]: the
    body is not JSON, the call raises); [tree] is what [etree.fromstring]
    builds from [.text] ([None]: it raises ParseError). *)
Record Response : Type := {
  status_code : Z;
  headers : list (string * string);
  text : string;
  json : option pyval;
  tree : option xml
}.

Inductive outcome : Type :=
| Fault                       (* the transport raises *)
| Reply (r : Response).

(** What the transport will answer to the next request, and how long the
    exchange takes. *)
Record Exchange : Type := { elapsed : Q; answer : outcome }.

Inductive event : Type :=
| Sent (rq : Request)
| Slept (secs : Z).

Record World : Type := {
  clock : Q;                     (* time.time() *)
  utc_minus_local : Q;           (* (utcnow() - now()).total_seconds() *)
  pending : list Exchange;       (* the answers to come, in order *)
  trace : list event             (* requests and sleeps so far, oldest first *)
}.

(** [str.lower] on a Latin-1 character *)
Definition lower (c : ascii) : ascii :=
  let n := N_of_ascii c in
  if ((N.leb 65 n && N.leb n 90) || (N.leb 192 n && N.leb n 222 && negb (N.eqb n 215)))%bool
  then ascii_of_N (n + 32) else c.

Fixpoint lower_str (s : string) : string :=
  match s with
  | EmptyString => EmptyString
  | String c s' => String (lower c) (lower_str s')
  end.

(** [response.headers[name]]: the lookup ignores case; [None] stands for
    the KeyError. *)
Fixpoint header (name : string) (h : list (string * string)) : option string :=
  match h with
  | [] => None
  | (k, v) :: h' =>
      if String.eqb (lower_str k) (lower_str name) then Some v else header name h'
  end.

(** ** The instance *)

Record Self : Type := {
  printall : bool;
  bmw_username : pyval;
  bmw_password : pyval;
  bmw_url : string;
  bmw_url_me : string;
  update_interval : Z;
  is_valid_session : bool;
  last_update_time : Q;
  is_updated : bool;
  accesstoken : option string;          (* None or a str *)
  token_expires : Z;
  token_expires_date_time : pyval;      (* 0, then a str *)
  utc_offset_min : Z;
  cars : pyval;
  bmw_vin : pyval;
  cars_data : option (list pyval)       (* None: the attribute is not set yet *)
}.

Definition set_is_valid_session (b : bool) (s : Self) : Self :=
  {| printall := printall s; bmw_username := bmw_username s;
     bmw_password := bmw_password s; bmw_url := bmw_url s;
     bmw_url_me := bmw_url_me s; update_interval := update_interval s;
     is_valid_session := b; last_update_time := last_update_time s;
     is_updated := is_updated s; accesstoken := accesstoken s;
     token_expires := token_expires s;
     token_expires_date_time := token_expires_date_time s;
     utc_offset_min := utc_offset_min s; cars := cars s;
     bmw_vin := bmw_vin s; cars_data := cars_data s |}.

Definition set_last_update_time (t : Q) (s : Self) : Self :=
  {| printall := printall s; bmw_username := bmw_username s;
     bmw_password := bmw_password s; bmw_url := bmw_url s;
     bmw_url_me := bmw_url_me s; update_interval := update_interval s;
     is_valid_session := is_valid_session s; last_update_time := t;
     is_updated := is_updated s; accesstoken := accesstoken s;
     token_expires := token_expires s;
     token_expires_date_time := token_expires_date_time s;
     utc_offset_min := utc_offset_min s; cars := cars s;
     bmw_vin := bmw_vin s; cars_data := cars_data s |}.

Definition set_is_updated (b : bool) (s : Self) : Self :=
  {| printall := printall s; bmw_username := bmw_username s;
     bmw_password := bmw_password s; bmw_url := bmw_url s;
     bmw_url_me := bmw_url_me s; update_interval := update_interval s;
     is_valid_session := is_valid_session s;
     last_update_time := last_update_time s;
     is_updated := b; accesstoken := accesstoken s;
     token_expires := token_expires s;
     token_expires_date_time := token_expires_date_time s;
     utc_offset_min := utc_offset_min s; cars := cars s;
     bmw_vin := bmw_vin s; cars_data := cars_data s |}.

Definition set_accesstoken (t : option string) (s : Self) : Self :=
  {| printall := printall s; bmw_username := bmw_username s;
     bmw_password := bmw_password s; bmw_url := bmw_url s;
     bmw_url_me := bmw_url_me s; update_interval := update_interval s;
     is_valid_session := is_valid_session s;
     last_update_time := last_update_time s;
     is_updated := is_updated s; accesstoken := t;
     token_expires := token_expires s;
     token_expires_date_time := token_expires_date_time s;
     utc_offset_min := utc_offset_min s; cars := cars s;
     bmw_vin := bmw_vin s; cars_data := cars_data s |}.

Definition set_token_expires (t : Z) (s : Self) : Self :=
  {| printall := printall s; bmw_username := bmw_username s;
     bmw_password := bmw_password s; bmw_url := bmw_url s;
     bmw_url_me := bmw_url_me s; update_interval := update_interval s;
     is_valid_session := is_valid_session s;
     last_update_time := last_update_time s;
     is_updated := is_updated s; accesstoken := accesstoken s;
     token_expires := t;
     token_expires_date_time := token_expires_date_time s;
     utc_offset_min := utc_offset_min s; cars := cars s;
     bmw_vin := bmw_vin s; cars_data := cars_data s |}.

Definition set_token_expires_date_time (t : pyval) (s : Self) : Self :=
  {| printall := printall s; bmw_username := bmw_username s;
     bmw_password := bmw_password s; bmw_url := bmw_url s;
     bmw_url_me := bmw_url_me s; update_interval := update_interval s;
     is_valid_session := is_valid_session s;
     last_update_time := last_update_time s;
     is_updated := is_updated s; accesstoken := accesstoken s;
     token_expires := token_expires s;
     token_expires_date_time := t;
     utc_offset_min := utc_offset_min s; cars := cars s;
     bmw_vin := bmw_vin s; cars_data := cars_data s |}.

Definition set_cars (v : pyval) (s : Self) : Self :=
  {| printall := printall s; bmw_username := bmw_username s;
     bmw_password := bmw_password s; bmw_url := bmw_url s;
     bmw_url_me := bmw_url_me s; update_interval := update_interval s;
     is_valid_session := is_valid_session s;
     last_update_time := last_update_time s;
     is_updated := is_updated s; accesstoken := accesstoken s;
     token_expires := token_expires s;
     token_expires_date_time := token_expires_date_time s;
     utc_offset_min := utc_offset_min s; cars := v;
     bmw_vin := bmw_vin s; cars_data := cars_data s |}.

Definition set_bmw_vin (v : pyval) (s : Self) : Self :=
  {| printall := printall s; bmw_username := bmw_username s;
     bmw_password := bmw_password s; bmw_url := bmw_url s;
     bmw_url_me := bmw_url_me s; update_interval := update_interval s;
     is_valid_session := is_valid_session s;
     last_update_time := last_update_time s;
     is_updated := is_updated s; accesstoken := accesstoken s;
     token_expires := token_expires s;
     token_expires_date_time := token_expires_date_time s;
     utc_offset_min := utc_offset_min s; cars := cars s;
     bmw_vin := v; cars_data := cars_data s |}.

Definition set_cars_data (l : option (list pyval)) (s : Self) : Self :=
  {| printall := printall s; bmw_username := bmw_username s;
     bmw_password := bmw_password s; bmw_url := bmw_url s;
     bmw_url_me := bmw_url_me s; update_interval := update_interval s;
     is_valid_session := is_valid_session s;
     last_update_time := last_update_time s;
     is_updated := is_updated s; accesstoken := accesstoken s;
     token_expires := token_expires s;
     token_expires_date_time := token_expires_date_time s;
     utc_offset_min := utc_offset_min s; cars := cars s;
     bmw_vin := bmw_vin s; cars_data := l |}.

(** ** Methods as state transformers that may raise *)

Inductive Res (A : Type) : Type :=
| Ret (a : A)
| Raise (e : exn).
Arguments Ret {A} a.
Arguments Raise {A} e.

Definition M (A : Type) : Type := Self -> World -> Res A * Self * World.

Definition ret {A} (a : A) : M A := fun s w => (Ret a, s, w).
Definition raise {A} (e : exn) : M A := fun s w => (Raise e, s, w).

Definition bind {A B} (c : M A) (k : A -> M B) : M B :=
  fun s w =>
    match c s w with
    | (Ret a, s', w') => k a s' w'
    | (Raise e, s', w') => (Raise e, s', w')
    end.

Declare Scope py_scope.
Delimit Scope py_scope with py.
Notation "x <- c ;; k" := (bind c (fun x => k))
  (at level 61, c at next level, right associativity) : py_scope.
Notation "c ;; k" := (bind c (fun _ => k))
  (at level 61, right associativity) : py_scope.
Local Open Scope py_scope.

Definition self : M Self := fun s w => (Ret s, s, w).
Definition assign (f : Self -> Self) : M unit := fun s w => (Ret tt, f s, w).

Definition lift {A} (r : exn + A) : M A :=
  match r with inr a => ret a | inl e => raise e end.

Definition or_raise {A} (e : exn) (o : option A) : M A :=
  match o with Some a => ret a | None => raise e end.

(** The result, the instance and the world a run ends with. *)
Definition result {A} (r : Res A * Self * World) : Res A := fst (fst r).
Definition final {A} (r : Res A * Self * World) : Self := snd (fst r).
Definition world {A} (r : Res A * Self * World) : World := snd r.

(** [time.time()] *)
Definition time_time : M Q := fun s w => (Ret (clock w), s, w).

(** [time.sleep(secs)] *)
Definition time_sleep (secs : Z) : M unit := fun s w =>
  (Ret tt, s,
   {| clock := (clock w + inject_Z secs)%Q;
      utc_minus_local := utc_minus_local w;
      pending := pending w;
      trace := trace w ++ [Slept secs] |}).

(** One exchange with the transport: the request goes on the trace, the
    next pending answer is consumed.  With no answer left the transport
    faults. *)
Definition send (rq : Request) : M Response := fun s w =>
  match pending w with
  | [] =>
      (Raise RequestException, s,
       {| clock := clock w; utc_minus_local := utc_minus_local w;
          pending := []; trace := trace w ++ [Sent rq] |})
  | x :: rest =>
      let w' := {| clock := (clock w + elapsed x)%Q;
                   utc_minus_local := utc_minus_local w;
                   pending := rest; trace := trace w ++ [Sent rq] |} in
      match answer x with
      | Fault => (Raise RequestException, s, w')
      | Reply r => (Ret r, s, w')
      end
  end.

(** [requests.post(url, data=..., headers=..., allow_redirects=..., timeout=...)] *)
Definition requests_post (url : string) (data : option (list (string * pyval)))
    (hd : list (string * string)) (allow_redirects : bool)
    (timeout : option Z) : M Response :=
  send {| req_method := POST; req_url := url; req_headers := hd;
          req_data := data; req_allow_redirects := allow_redirects;
          req_timeout := timeout |}.

(** [requests.get(url, headers=..., allow_redirects=..., timeout=...)] *)
Definition requests_get (url : string) (hd : list (string * string))
    (allow_redirects : bool) (timeout : option Z) : M Response :=
  send {| req_method := GET; req_url := url; req_headers := hd;
          req_data := None; req_allow_redirects := allow_redirects;
          req_timeout := timeout |}.

(** The value [requests] gives [timeout] when a call does not pass it. *)
Definition timeout_not_passed : option Z := None.

(** ** Doubles

    Python floats are IEEE doubles.  A double is read as the rational it
    denotes; the subtraction of two doubles is their exact difference
    rounded to the nearest double, ties to the even mantissa, and an
    infinity beyond the largest double.  Subtracting finite doubles
    yields no NaN.  The clock of the world and the time an instance
    stores are rationals; [time.time()] returns doubles, and on those
    [sub] is the subtraction of Python. *)

Module Double.

Inductive t : Type :=
| Finite (q : Q)
| Infinite (negative : bool).

(** [2^e] *)
Definition pow2 (e : Z) : Q :=
  match e with
  | Z0 => 1
  | Zpos p => inject_Z (2 ^ Zpos p)
  | Zneg p => 1 # (2 ^ p)
  end.

(** The binade of [a > 0]: the [e] with [2^e <= a < 2^(e+1)] *)
Definition binade (a : Q) : Z :=
  if Qle_bool 1 a then Z.log2 (Qfloor a)
  else - Z.log2_up (Qceiling (/ a)).

(** The unit in the last place at [a > 0]: 53 bits of mantissa, and no
    unit below [2^-1074], that of the subnormal doubles *)
Definition ulp (a : Q) : Q := pow2 (Z.max (binade a - 52) (-1074)).

(** Rounding to the nearest double, ties to even *)
Definition nearest (x : Q) : t :=
  if Qeq_bool x 0 then Finite 0
  else
    let a := Qabs x in
    let r := (inject_Z (round (a / ulp a)) * ulp a)%Q in
    if Qle_bool (pow2 1024) r then Infinite (negb (Qle_bool 0 x))
    else Finite (if Qle_bool 0 x then r else - r)%Q.

(** [a - b] on floats *)
Definition sub (a b : Q) : t := nearest (a - b).

(** [d > n] for a float [d] and an int [n]: Python compares the two
    exactly *)
Definition gt_int (d : t) (n : Z) : bool :=
  match d with
  | Finite q => negb (Qle_bool q (inject_Z n))
  | Infinite negative => negb negative
  end.

End Double.

(** ** The class ConnectedDrive *)

Definition UPDATE_INTERVAL : Z := 600.
Definition TIMEOUT : Z := 10.
Definition AUTH_API : string :=
  "https://customer.bmwgroup.com/gcdm/oauth/authenticate".
Definition USER_AGENT : string :=
  "Mozilla/5.0 (Windows NT 10.0; Win64; x64; rv:57.0) Gecko/20100101 Firefox/57.0".

(** What a loop body hands back to [update]: go on with the next car, or
    leave the method through its bare [return]. *)
Inductive flow : Type := Next | Return_None.

Section Interpreter.

(** Two services of the interpreter are left open: [str()] of a float, a
    list or a dict, and [time.strftime('%Y-%m-%d %H:%M:%S', time.localtime(t))],
    which depends on the time zone and raises on a timestamp out of
    range.  Logging and printing change neither the instance nor the
    world and are left out. *)
Variable str_other : pyval -> string.
Variable strftime_localtime : Z -> exn + string.

(** [str(v)], what ['{}'.format(v)] inserts *)
Definition str (v : pyval) : string :=
  match v with
  | PStr s => s
  | PInt n => str_of_int n
  | PNone => "None"
  | PBool true => "True"
  | PBool false => "False"
  | PFloat _ | PList _ | PDict _ => str_other v
  end.

Definition generate_credentials : M unit :=
  s <- self ;;
  let hd := [("Content-Type", "application/x-www-form-urlencoded");
             ("User-agent", USER_AGENT)] in
  let values :=
    [("username", bmw_username s);
     ("password", bmw_password s);
     ("client_id", PStr "dbf0a542-ebd1-4ff0-a9a7-55172fbfce35");
     ("redirect_uri",
      PStr "https://www.bmw-connecteddrive.com/app/default/static/external-dispatch.html");
     ("response_type", PStr "token");
     ("scope", PStr "authenticate_user fupo");
     ("state",
      PStr "eyJtYXJrZXQiOiJkZSIsImxhbmd1YWdlIjoiZGUiLCJkZXN0aW5hdGlvbiI6ImxhbmRpbmdQYWdlIn0");
     ("locale", PStr "DE-de")] in
  credentials_response <-
    requests_post AUTH_API (Some values) hd false timeout_not_passed ;;
  my_payload <- or_raise KeyError (header "Location" (headers credentials_response)) ;;
  if contains "error=access_denied" my_payload then
    assign (set_is_valid_session false)
  else
    match Re.match_token my_payload with
    | None => raise AttributeError
    | Some (g1, _, g3) =>
        assign (set_accesstoken (Some g1)) ;;
        now <- time_time ;;
        let expires := int_of_float now + Re.int_of_digits 0 g3 in
        assign (set_token_expires expires) ;;
        date_time <- lift (strftime_localtime expires) ;;
        assign (set_token_expires_date_time (PStr date_time)) ;;
        assign (set_is_valid_session true)
    end.

Definition token_valid : M unit :=
  cur_time <- time_time ;;
  s <- self ;;
  if int_of_float cur_time >=? token_expires s then generate_credentials
  else ret tt.

(** ['Bearer ' + self.accesstoken]: a TypeError while the token is None *)
Definition bearer : M string :=
  s <- self ;;
  match accesstoken s with
  | Some t => ret ("Bearer " ++ t)
  | None => raise TypeError
  end.

Definition request_car_data (data_type : string)
    (sub_data_type : option string) (vin : pyval) : M pyval :=
  authorization <- bearer ;;
  let hd := [("Content-Type", "application/json");
             ("User-agent", USER_AGENT);
             ("Authorization", authorization)] in
  token_valid ;;
  match vin with
  | PNone => ret tt
  | _ => assign (set_bmw_vin vin)
  end ;;
  s <- self ;;
  let url :=
    if String.eqb data_type "dynamic" then
      bmw_url s ++ "/" ++ data_type ++ "/v1/" ++ str (bmw_vin s)
        ++ "?offset=" ++ str_of_int (utc_offset_min s)
    else if String.eqb data_type "get_cars" then
      bmw_url_me s ++ "/vehicles/v2"
    else
      bmw_url s ++ "/" ++ data_type ++ "/v1/" ++ str (bmw_vin s) in
  data_response <- requests_get url hd true timeout_not_passed ;;
  if status_code data_response =? 200 then
    body <- or_raise ValueError (json data_response) ;;
    if (String.eqb data_type "dynamic" || String.eqb data_type "servicepartner")%bool
    then lift (getitem body sub_data_type)
    else ret body
  else ret (PInt (status_code data_response)).

(** The first loop of [get_cars] only logs, but evaluates the three
    subscripts of each car to do so. *)
Fixpoint log_cars (items : list pyval) : M unit :=
  match items with
  | [] => ret tt
  | car :: rest =>
      lift (getitem car (Some "brand")) ;;
      lift (getitem car (Some "modelName")) ;;
      lift (getitem car (Some "vin")) ;;
      log_cars rest
  end.

(** With [printall] the method logs every key of every car a second time;
    cars that passed the first loop are dicts, so that pass cannot raise
    and is left out with the rest of the logging. *)
Definition get_cars : M pyval :=
  fetched <- request_car_data "get_cars" None PNone ;;
  assign (set_cars fetched) ;;
  s <- self ;;
  items <- or_raise TypeError (iter (cars s)) ;;
  log_cars items ;;
  s <- self ;;
  ret (cars s).

Definition get_car_data (vin : pyval) : M pyval :=
  request_car_data "dynamic" (Some "attributesMap") vin.

(** Lines 143-149 of [update]: the kind of car read off its data *)
Definition type_of_car (car_data : dict) : exn + string :=
  if dict_mem "charging_status" car_data then
    match dict_get "remaining_fuel" car_data with
    | Some fuel => inr (if eq_str fuel "0" then "electric" else "hybrid")
    | None => inl KeyError
    end
  else inr "fuel".

(** Lines 141-150: the fetched data completed into the car's snapshot.
    Item assignment on anything but a dict is a TypeError. *)
Definition snapshot (bmw_vin : pyval) (car_name : string) (car_data : pyval)
  : exn + pyval :=
  match car_data with
  | PDict d =>
      let d := dict_set "vin" bmw_vin d in
      let d := dict_set "car_name" (PStr car_name) d in
      match type_of_car d with
      | inr kind => inr (PDict (dict_set "type_of_car" (PStr kind) d))
      | inl e => inl e
      end
  | _ => inl TypeError
  end.

(** [self.cars_data.append(x)] *)
Definition cars_data_append (x : pyval) : M unit :=
  s <- self ;;
  match cars_data s with
  | Some l => assign (set_cars_data (Some (l ++ [x])%list))
  | None => raise AttributeError
  end.

(** The body of the loop of [update] for one car *)
Definition update_car (car : pyval) : M flow :=
  bmw_vin <- lift (getitem car (Some "vin")) ;;
  brand <- lift (getitem car (Some "brand")) ;;
  model_name <- lift (getitem car (Some "modelName")) ;;
  let car_name := str brand ++ " " ++ str model_name in
  car_data <- get_car_data bmw_vin ;;
  if is_int car_data then ret Return_None
  else
    snap <- lift (snapshot bmw_vin car_name car_data) ;;
    cars_data_append snap ;;
    ret Next.

Fixpoint update_cars (items : list pyval) : M flow :=
  match items with
  | [] => ret Next
  | car :: rest =>
      f <- update_car car ;;
      match f with
      | Return_None => ret Return_None
      | Next => update_cars rest
      end
  end.

(** [update] returns None ([None] here) or the list it stored in
    [cars_data].  The re-entrant lock it takes matters only between
    threads; one thread of control is modelled.  Here the gate
    [cur_time - self.last_update_time > self.update_interval] is taken in
    exact arithmetic; [update_double] below takes it as Python does. *)
Definition update : M (option (list pyval)) :=
  cur_time <- time_time ;;
  s <- self ;;
  if float_gt (cur_time - last_update_time s)%Q (inject_Z (update_interval s)) then
    assign (set_cars_data (Some [])) ;;
    s <- self ;;
    items <- or_raise TypeError (iter (cars s)) ;;
    f <- update_cars items ;;
    match f with
    | Return_None => ret None
    | Next =>
        now <- time_time ;;
        assign (set_last_update_time now) ;;
        assign (set_is_updated true) ;;
        s <- self ;;
        l <- or_raise AttributeError (cars_data s) ;;
        ret (Some l)
    end
  else
    assign (set_is_updated false) ;;
    ret None.

(** [update] as Python runs it: [cur_time] and [self.last_update_time]
    are doubles, their difference is the double nearest to the exact one,
    and that double is compared with the int [self.update_interval]. *)
Definition update_double : M (option (list pyval)) :=
  cur_time <- time_time ;;
  s <- self ;;
  if Double.gt_int (Double.sub cur_time (last_update_time s)) (update_interval s) then
    assign (set_cars_data (Some [])) ;;
    s <- self ;;
    items <- or_raise TypeError (iter (cars s)) ;;
    f <- update_cars items ;;
    match f with
    | Return_None => ret None
    | Next =>
        now <- time_time ;;
        assign (set_last_update_time now) ;;
        assign (set_is_updated true) ;;
        s <- self ;;
        l <- or_raise AttributeError (cars_data s) ;;
        ret (Some l)
    end
  else
    assign (set_is_updated false) ;;
    ret None.

Definition service_codes : list (string * string) :=
  [("climate", "RCN"); ("lock", "RDL"); ("unlock", "RDU");
   ("light", "RLF"); ("horn", "RHB")].

Fixpoint lookup (k : string) (d : list (string * string)) : option string :=
  match d with
  | [] => None
  | (k', v) :: d' => if String.eqb k k' then Some v else lookup k d'
  end.

Definition max_retries : nat := 9.

(** [remote_service_status == 'EXECUTED'], the status being None or a str *)
Definition is_executed (remote_service_status : option string) : bool :=
  match remote_service_status with
  | Some t => String.eqb t "EXECUTED"
  | None => false
  end.

Definition interval : Z := 10.

(** The poll loop of [execute_service], [n] rounds of [range(max_retries)]
    still to run; the state it carries is [remote_service_status], which
    it hands to the test after the loop.  A round ends the loop ([break])
    when the status reads EXECUTED. *)
Fixpoint poll (n : nat) (url_check : string) (hd : list (string * string))
    (remote_service_status : option string) : M (option string) :=
  match n with
  | O => ret remote_service_status
  | S n' =>
      time_sleep interval ;;
      remoteservices_response <- requests_get url_check hd true timeout_not_passed ;;
      root_data <- or_raise ParseError (tree remoteservices_response) ;;
      element <- or_raise AttributeError (xml_find "remoteServiceStatus" root_data) ;;
      let remote_service_status := xml_text element in
      if is_executed remote_service_status then ret remote_service_status
      else poll n' url_check hd remote_service_status
  end.

Definition execute_service (service : string) (vin : pyval) : M bool :=
  token_valid ;;
  authorization <- bearer ;;
  let hd := [("Content-Type", "application/json");
             ("User-agent", USER_AGENT);
             ("Authorization", authorization)] in
  command <- or_raise KeyError (lookup service service_codes) ;;
  s <- self ;;
  let url := bmw_url s ++ "/remoteservices/v1/" ++ str vin ++ "/" ++ command in
  let url_check := bmw_url s ++ "/remoteservices/v1/" ++ str vin ++ "/state/execution" in
  execute_response <- requests_post url None hd true timeout_not_passed ;;
  if negb (status_code execute_response =? 200) then ret false
  else
    remote_service_status <- poll max_retries url_check hd None ;;
    if negb (is_executed remote_service_status) then ret false
    else ret true.

(** The constructor: the instance as the assignments of [__init__] leave
    it, then the first login and, with a valid session, the first fetch of
    the car list and of the car data. *)
Definition __init__ (username password : pyval) (url : option string)
    (update_interval : Z) (w : World) : Res unit * Self * World :=
  let '(bmw_url, bmw_url_me) :=
    match url with
    | None => ("https://www.bmw-connecteddrive.nl/api/vehicle",
               "https://www.bmw-connecteddrive.nl/api/me")
    | Some url =>
        if String.prefix "https://" url
        then (url ++ "/api/vehicle", url ++ "/api/me")
        else ("https://" ++ url ++ "/api/vehicle", "https://" ++ url ++ "/api/me")
    end in
  let s0 :=
    {| printall := false;
       bmw_username := username;
       bmw_password := password;
       bmw_url := bmw_url;
       bmw_url_me := bmw_url_me;
       update_interval := 120;
       is_valid_session := false;
       last_update_time := 0;
       is_updated := false;
       accesstoken := None;
       token_expires := 0;
       token_expires_date_time := PInt 0;
       utc_offset_min := Z.quot (round (utc_minus_local w)) 60;
       cars := PList [];
       bmw_vin := PNone;
       cars_data := None |} in
  (generate_credentials ;;
   s <- self ;;
   if is_valid_session s then get_cars ;; update_double ;; ret tt
   else ret tt) s0 w.

(** *** The other data methods

    With [printall] each of them ends with a pass over what it fetched,
    [for key in sorted(m): ... m[key] ...], which only logs but evaluates
    [sorted(m)] and the subscripts.  On a dict the keys are strings: they
    sort, and each subscript succeeds.  On a non-empty string the
    characters sort and the first subscript, by a string, is a TypeError.
    On a non-empty list the outcome depends on how Python orders and
    subscripts by the elements; it is left open. *)
Variable keys_pass_of_list : list pyval -> option exn.

Definition keys_pass (m : pyval) : M unit :=
  match m with
  | PDict _ => ret tt
  | PStr EmptyString => ret tt
  | PStr _ => raise TypeError
  | PList [] => ret tt
  | PList l =>
      match keys_pass_of_list l with
      | Some e => raise e
      | None => ret tt
      end
  | PNone | PBool _ | PInt _ | PFloat _ => raise TypeError
  end.

(** An argument that lands in the parameter [sub_data_type]: the
    subscript key it stands for.  [request_car_data] reads that parameter
    only for the data types dynamic and servicepartner. *)
Definition as_sub_data_type (v : pyval) : option string :=
  match v with
  | PStr key => Some key
  | _ => None
  end.

Definition get_car_location (vin : pyval) : M pyval :=
  request_car_data "dynamic" (Some "attributesMap") vin.

Definition get_car_data_service (vin : pyval) : M pyval :=
  map_car_data_service <- request_car_data "dynamic" (Some "vehicleMessages") vin ;;
  s <- self ;;
  (if printall s then keys_pass map_car_data_service else ret tt) ;;
  ret map_car_data_service.

(** [self.request_car_data('navigation', vin)]: the second positional
    parameter is [sub_data_type], so [vin] lands there and the parameter
    [vin] keeps its default None. *)
Definition get_car_navigation (vin : pyval) : M pyval :=
  map_car_navigation <-
    request_car_data "navigation" (as_sub_data_type vin) PNone ;;
  s <- self ;;
  (if printall s then keys_pass map_car_navigation else ret tt) ;;
  ret map_car_navigation.

(** [self.request_car_data('efficiency', vin)], as for the navigation *)
Definition get_car_efficiency (vin : pyval) : M pyval :=
  map_car_efficiency <-
    request_car_data "efficiency" (as_sub_data_type vin) PNone ;;
  s <- self ;;
  (if printall s then keys_pass map_car_efficiency else ret tt) ;;
  ret map_car_efficiency.

Definition get_car_service_partner (vin : pyval) : M pyval :=
  map_car_service_partner <- request_car_data "servicepartner" (Some "dealer") vin ;;
  s <- self ;;
  (if printall s then keys_pass map_car_service_partner else ret tt) ;;
  ret map_car_service_partner.

(** ** Inputs of the worked examples

    A stand-in for the two open services of the interpreter, enough for
    instances that handle strings and integers only, and the answers of a
    transport that behaves. *)

Definition str_other_stub (v : pyval) : string := "<object>".
Definition strftime_stub (t : Z) : exn + string := inr (str_of_int t).

Definition response (code : Z) (hd : list (string * string))
    (js : option pyval) (tr : option xml) : Response :=
  {| status_code := code; headers := hd; text := ""; json := js; tree := tr |}.

Definition exchange (r : Response) : Exchange :=
  {| elapsed := 1 # 2; answer := Reply r |}.

Definition world_at (t : Q) (answers : list Exchange) : World :=
  {| clock := t; utc_minus_local := -3600; pending := answers; trace := [] |}.

(** The redirect of a successful login *)
Definition login_redirect (token : string) : Exchange :=
  exchange (response 302
    [("Location",
      "https://www.bmw-connecteddrive.com/app/default/static/external-dispatch.html#access_token="
        ++ token ++ "&token_type=Bearer&expires_in=7199")]
    None None).

(** Two registered cars, as the car list describes them *)
Definition car_i3 : pyval :=
  PDict [("vin", PStr "V1"); ("brand", PStr "BMW"); ("modelName", PStr "i3")].

Definition car_x5 : pyval :=
  PDict [("vin", PStr "V2"); ("brand", PStr "BMW"); ("modelName", PStr "X5")].

Definition two_cars : pyval := PList [car_i3; car_x5].

(** An instance after a login at time 1000 that yielded the token OLD,
    valid until 8199, with the two cars registered and no update yet. *)
Definition logged_in : Self :=
  {| printall := false;
     bmw_username := PStr "user";
     bmw_password := PStr "secret";
     bmw_url := "https://www.bmw-connecteddrive.nl/api/vehicle";
     bmw_url_me := "https://www.bmw-connecteddrive.nl/api/me";
     update_interval := 120;
     is_valid_session := true;
     last_update_time := 0;
     is_updated := false;
     accesstoken := Some "OLD";
     token_expires := 8199;
     token_expires_date_time := PStr "8199";
     utc_offset_min := -60;
     cars := two_cars;
     bmw_vin := PNone;
     cars_data := None |}.

Definition dynamic_body (attributes : dict) : pyval :=
  PDict [("attributesMap", PDict attributes); ("vehicleMessages", PDict [])].

Definition electric_attributes : dict :=
  [("charging_status", PStr "CHARGINGACTIVE"); ("remaining_fuel", PStr "0")].

Definition fuel_attributes : dict :=
  [("remaining_fuel", PStr "41"); ("mileage", PStr "12345")].

Definition dynamic_reply (attributes : dict) : Exchange :=
  exchange (response 200 [] (Some (dynamic_body attributes)) None).

(** An answer with an error status and no Location header *)
Definition error_reply (code : Z) : Exchange :=
  exchange (response code [("Content-Type", "text/html")] None None).

Definition connection_fault : Exchange := {| elapsed := 10; answer := Fault |}.

(** The redirect of a login the provider denies *)
Definition denied_redirect : Exchange :=
  exchange (response 302
    [("Location",
      "https://www.bmw-connecteddrive.com/app/default/static/external-dispatch.html?error=access_denied")]
    None None).

(** The acknowledgement of a submitted command *)
Definition accepted : Exchange := exchange (response 200 [] None None).

Definition status_document (status : string) : Exchange :=
  exchange (response 200 [] None
    (Some (Element "remoteServiceExecutionStatus" None
             [Element "eventId" (Some "1") [];
              Element "remoteServiceStatus" (Some status) []]))).

(** A stand-in for the pass over a non-empty list: on the lists JSON
    bodies hold here, of dicts, the sort or the first subscript is a
    TypeError. *)
Definition keys_pass_stub (l : list pyval) : option exn := Some TypeError.

(** The instance with [printall] set, as [main] sets it on request *)
Definition logged_in_printing : Self :=
  {| printall := true;
     bmw_username := bmw_username logged_in;
     bmw_password := bmw_password logged_in;
     bmw_url := bmw_url logged_in;
     bmw_url_me := bmw_url_me logged_in;
     update_interval := update_interval logged_in;
     is_valid_session := is_valid_session logged_in;
     last_update_time := last_update_time logged_in;
     is_updated := is_updated logged_in;
     accesstoken := accesstoken logged_in;
     token_expires := token_expires logged_in;
     token_expires_date_time := token_expires_date_time logged_in;
     utc_offset_min := utc_offset_min logged_in;
     cars := cars logged_in;
     bmw_vin := bmw_vin logged_in;
     cars_data := cars_data logged_in |}.

(** Data of a car that reports a charging status and no fuel level *)
Definition charging_only_attributes : dict :=
  [("charging_status", PStr "CHARGINGACTIVE"); ("mileage", PStr "500")].

(** The car list, and a navigation document, as answers *)
Definition cars_reply : Exchange :=
  exchange (response 200 [] (Some two_cars) None).

Definition navigation_reply : Exchange :=
  exchange (response 200 []
              (Some (PDict [("latitude", PFloat (52 # 1));
                            ("longitude", PFloat (5 # 1))])) None).

(** The Location of [login_redirect] *)
Definition redirect_location (token : string) : string :=
  "https://www.bmw-connecteddrive.com/app/default/static/external-dispatch.html#access_token="
    ++ token ++ "&token_type=Bearer&expires_in=7199".

(** ** Vocabulary of the statements *)

(** The world once the request [rq] is answered by the exchange [x]. *)
Definition answered (rq : Request) (x : Exchange) (rest : list Exchange)
    (w : World) : World :=
  {| clock := (clock w + elapsed x)%Q;
     utc_minus_local := utc_minus_local w;
     pending := rest;
     trace := (trace w ++ [Sent rq])%list |}.

(** The transport raises on the next request: it faults, or has no answer
    left to give. *)
Definition faults (w : World) : Prop :=
  pending w = [] \/ exists x rest, pending w = x :: rest /\ answer x = Fault.

(** The one request of a login *)
Definition login_request (s : Self) : Request :=
  {| req_method := POST;
     req_url := AUTH_API;
     req_headers := [("Content-Type", "application/x-www-form-urlencoded");
                     ("User-agent", USER_AGENT)];
     req_data :=
       Some [("username", bmw_username s);
             ("password", bmw_password s);
             ("client_id", PStr "dbf0a542-ebd1-4ff0-a9a7-55172fbfce35");
             ("redirect_uri",
              PStr "https://www.bmw-connecteddrive.com/app/default/static/external-dispatch.html");
             ("response_type", PStr "token");
             ("scope", PStr "authenticate_user fupo");
             ("state",
              PStr "eyJtYXJrZXQiOiJkZSIsImxhbmd1YWdlIjoiZGUiLCJkZXN0aW5hdGlvbiI6ImxhbmRpbmdQYWdlIn0");
             ("locale", PStr "DE-de")];
     req_allow_redirects := false;
     req_timeout := None |}.

(** The part of [generate_credentials] that follows its request. *)
Definition after_redirect (credentials_response : Response) : M unit :=
  my_payload <- or_raise KeyError (header "Location" (headers credentials_response)) ;;
  if contains "error=access_denied" my_payload then
    assign (set_is_valid_session false)
  else
    match Re.match_token my_payload with
    | None => raise AttributeError
    | Some (g1, _, g3) =>
        assign (set_accesstoken (Some g1)) ;;
        now <- time_time ;;
        let expires := int_of_float now + Re.int_of_digits 0 g3 in
        assign (set_token_expires expires) ;;
        date_time <- lift (strftime_localtime expires) ;;
        assign (set_token_expires_date_time (PStr date_time)) ;;
        assign (set_is_valid_session true)
    end.

(** The headers of an authenticated request that carries [token] *)
Definition authorized (token : string) : list (string * string) :=
  [("Content-Type", "application/json");
   ("User-agent", USER_AGENT);
   ("Authorization", "Bearer " ++ token)].

(** The URL [request_car_data] computes, and the request it sends *)
Definition data_url (data_type : string) (s : Self) : string :=
  if String.eqb data_type "dynamic" then
    bmw_url s ++ "/" ++ data_type ++ "/v1/" ++ str (bmw_vin s)
      ++ "?offset=" ++ str_of_int (utc_offset_min s)
  else if String.eqb data_type "get_cars" then
    bmw_url_me s ++ "/vehicles/v2"
  else
    bmw_url s ++ "/" ++ data_type ++ "/v1/" ++ str (bmw_vin s).

Definition data_request (token : string) (url : string) : Request :=
  {| req_method := GET;
     req_url := url;
     req_headers := authorized token;
     req_data := None;
     req_allow_redirects := true;
     req_timeout := None |}.

Definition get_cars_request (token : string) (s : Self) : Request :=
  data_request token (data_url "get_cars" s).

(** The instance once [request_car_data] has noted the [vin] it is given *)
Definition with_vin (vin : pyval) (s : Self) : Self :=
  match vin with PNone => s | _ => set_bmw_vin vin s end.





(** The status field an answer carries, when it is a reply whose text
    parses and has the field. *)
Definition poll_status (x : Exchange) : option (option string) :=
  match answer x with
  | Reply r =>
      match tree r with
      | Some root_data =>
          match xml_find "remoteServiceStatus" root_data with
          | Some element => Some (xml_text element)
          | None => None
          end
      | None => None
      end
  | Fault => None
  end.


(** A computation that leaves the field [p] of the instance as it was,
    however it ends. *)
Definition keeps {A B : Type} (p : Self -> B) (c : M A) : Prop :=
  forall s w, p (final (c s w)) = p s.

(** The fields a login does not write. *)
Definition untouched_by_login {B} (p : Self -> B) : Prop :=
  (forall b s, p (set_is_valid_session b s) = p s) /\
  (forall t s, p (set_accesstoken t s) = p s) /\
  (forall t s, p (set_token_expires t s) = p s) /\
  (forall t s, p (set_token_expires_date_time t s) = p s).

(** The fields a data request does not write. *)
Definition untouched_by_fetch {B} (p : Self -> B) : Prop :=
  untouched_by_login p /\
  (forall v s, p (set_bmw_vin v s) = p s).

(** A computation that does not touch the world. *)
Definition quiet {A : Type} (c : M A) : Prop :=
  forall s w, world (c s w) = w.

(** A computation all of whose events, the ones it adds to the trace,
    satisfy [P]. *)
Definition emits {A : Type} (P : event -> Prop) (c : M A) : Prop :=
  forall s w, exists evs,
    trace (world (c s w)) = (trace w ++ evs)%list /\ Forall P evs.

(** A request sent without a [timeout] argument; a sleep is no request. *)
Definition passes_no_timeout (e : event) : Prop :=
  match e with
  | Sent rq => req_timeout rq = None
  | Slept _ => True
  end.

(** A session marked valid holds a token. *)
Definition session_ok (s : Self) : Prop :=
  is_valid_session s = true -> accesstoken s <> None.

(** A computation that keeps the property [I] of the instance, however it
    ends. *)
Definition preserves {A : Type} (I : Self -> Prop) (c : M A) : Prop :=
  forall s w, I s -> I (final (c s w)).

(** The fields [update] does not write. *)
Definition untouched_by_update {B} (p : Self -> B) : Prop :=
  untouched_by_fetch p /\
  (forall l s, p (set_cars_data l s) = p s) /\
  (forall t s, p (set_last_update_time t s) = p s) /\
  (forall b s, p (set_is_updated b s) = p s).

(** The two URLs of the instance *)
Definition urls (s : Self) : string * string := (bmw_url s, bmw_url_me s).

(** Every character of [s] satisfies [p]. *)
Fixpoint all (p : ascii -> bool) (s : string) : bool :=
  match s with
  | EmptyString => true
  | String c s' => (p c && all p s')%bool
  end.

(** The shape the pattern of the token redirect asks of a Location: the
    three keys in order, each followed by its group, with no newline
    before the last group. *)
Definition token_fragment (s g1 g2 g3 : string) : Prop :=
  exists a b c d,
    s = a ++ "access_token=" ++ g1 ++ b ++ "token_type=" ++ g2 ++ c
          ++ "expires_in=" ++ g3 ++ d
    /\ all Re.dot a = true /\ all Re.dot b = true /\ all Re.dot c = true
    /\ g1 <> "" /\ all Re.word g1 = true
    /\ g2 <> "" /\ all Re.word g2 = true
    /\ g3 <> "" /\ all Re.digit g3 = true.

(** What [request_car_data] makes of the answer [r] to its request *)
Definition decoded (data_type : string) (sub_data_type : option string)
    (r : Response) : M pyval :=
  if status_code r =? 200 then
    body <- or_raise ValueError (json r) ;;
    if (String.eqb data_type "dynamic" || String.eqb data_type "servicepartner")%bool
    then lift (getitem body sub_data_type)
    else ret body
  else ret (PInt (status_code r)).

(** A snapshot as [update] stores it: a dict with the VIN, the name and
    the kind of the car. *)
Definition is_snapshot (v : pyval) : Prop :=
  exists d vin name kind,
    v = PDict d
    /\ dict_get "vin" d = Some vin
    /\ dict_get "car_name" d = Some (PStr name)
    /\ dict_get "type_of_car" d = Some (PStr kind)
    /\ (kind = "electric" \/ kind = "hybrid" \/ kind = "fuel").

(** A computation that takes its answers from the front of the pending
    ones: what is pending after it was pending before it. *)
Definition consumes {A : Type} (c : M A) : Prop :=
  forall s w, exists used, pending w = (used ++ pending (world (c s w)))%list.

(** The requests among the events of a run *)
Fixpoint sent (evs : list event) : list Request :=
  match evs with
  | [] => []
  | Sent rq :: evs' => rq :: sent evs'
  | Slept _ :: evs' => sent evs'
  end.

(** A computation that sends at most [n] requests. *)
Definition sends_at_most {A : Type} (n : nat) (c : M A) : Prop :=
  forall s w, exists evs,
    trace (world (c s w)) = (trace w ++ evs)%list
    /\ (List.length (sent evs) <= n)%nat.

(** The names [execute_service] knows *)
Definition services : list string :=
  ["climate"; "lock"; "unlock"; "light"; "horn"].

(** The number of cars an update goes through: the items of [cars], none
    when it cannot be iterated. *)
Definition cars_count (s : Self) : nat :=
  match iter (cars s) with
  | Some items => List.length items
  | None => O
  end.

(** The configuration the constructor sets *)
Definition configuration (s : Self)
  : bool * pyval * pyval * string * string * Z * Z :=
  (printall s, bmw_username s, bmw_password s, bmw_url s, bmw_url_me s,
   update_interval s, utc_offset_min s).

(** What the polling keeps between cycles *)
Definition polling_state (s : Self)
  : pyval * option (list pyval) * Q * bool :=
  (cars s, cars_data s, last_update_time s, is_updated s).

(** A car of the car list with the three keys the program reads *)
Definition described (car : pyval) : Prop :=
  exists d, car = PDict d
            /\ dict_mem "brand" d = true
            /\ dict_mem "modelName" d = true
            /\ dict_mem "vin" d = true.

(** The run of [update] from its loop on, over the cars [items] *)
Definition from_loop (items : list pyval) : M (option (list pyval)) :=
  f <- update_cars items ;;
  match f with
  | Return_None => ret None
  | Next =>
      now <- time_time ;;
      assign (set_last_update_time now) ;;
      assign (set_is_updated true) ;;
      s <- self ;;
      l <- or_raise AttributeError (cars_data s) ;;
      ret (Some l)
  end.

(** [processed items s w fetched snaps s' w']: from the instance [s] and
    the world [w], the loop of [update] went through the cars [items] and
    ended in [s'] and [w']; for each car in turn it read the three keys,
    fetched the data of the car ([fetched], in order), completed it into
    the snapshot of the car ([snaps], in order) and appended that
    snapshot to [cars_data]. *)
Inductive processed
  : list pyval -> Self -> World -> list pyval -> list pyval -> Self -> World
    -> Prop :=
| processed_nil (s : Self) (w : World) : processed [] s w [] [] s w
| processed_cons (car : pyval) (rest : list pyval)
    (s s1 s' : Self) (w w1 w' : World)
    (bmw_vin brand model_name car_data snap : pyval)
    (l fetched snaps : list pyval) :
    getitem car (Some "vin") = inr bmw_vin ->
    getitem car (Some "brand") = inr brand ->
    getitem car (Some "modelName") = inr model_name ->
    get_car_data bmw_vin s w = (Ret car_data, s1, w1) ->
    snapshot bmw_vin (str brand ++ " " ++ str model_name) car_data = inr snap ->
    cars_data s1 = Some l ->
    processed rest (set_cars_data (Some (l ++ [snap])%list) s1) w1
      fetched snaps s' w' ->
    processed (car :: rest) s w (car_data :: fetched) (snap :: snaps) s' w'.

(** The kind a snapshot records for the attribute map it was built from:
    electric with [charging_status] and a [remaining_fuel] that is the
    string "0", hybrid with [charging_status] and any other
    [remaining_fuel], fuel without [charging_status]. *)
Definition classified (car_data snap : pyval) : Prop :=
  exists attributes d,
    car_data = PDict attributes
    /\ snap = PDict d
    /\ (dict_mem "charging_status" attributes = true ->
        dict_get "remaining_fuel" attributes = Some (PStr "0") ->
        dict_get "type_of_car" d = Some (PStr "electric"))
    /\ (forall fuel,
          dict_mem "charging_status" attributes = true ->
          dict_get "remaining_fuel" attributes = Some fuel ->
          fuel <> PStr "0" ->
          dict_get "type_of_car" d = Some (PStr "hybrid"))
    /\ (dict_mem "charging_status" attributes = false ->
        dict_get "type_of_car" d = Some (PStr "fuel")).


(** * Properties *)

(** ** Running a sequence step by step *)

Lemma run_bind {A B} (c : M A) (k : A -> M B) s w a s' w' :
  c s w = (Ret a, s', w') -> bind c k s w = k a s' w'.
Proof. intros H; unfold bind; rewrite H; reflexivity. Qed.

Lemma run_bind_raise {A B} (c : M A) (k : A -> M B) s w e s' w' :
  c s w = (Raise e, s', w') -> bind c k s w = (Raise e, s', w').
Proof. intros H; unfold bind; rewrite H; reflexivity. Qed.

Lemma bind_inv {A B} (c : M A) (k : A -> M B) s w b s' w' :
  bind c k s w = (Ret b, s', w') ->
  exists a s1 w1, c s w = (Ret a, s1, w1) /\ k a s1 w1 = (Ret b, s', w').
Proof.
  unfold bind; destruct (c s w) as [[[a|e] s1] w1]; intros H.
  - exists a, s1, w1; split; [reflexivity|exact H].
  - discriminate.
Qed.

Lemma lift_inv {A} (r : exn + A) s w a s' w' :
  lift r s w = (Ret a, s', w') -> r = inr a /\ s' = s /\ w' = w.
Proof.
  destruct r as [e|x]; simpl; intros H; [discriminate|].
  injection H as -> -> ->; repeat split.
Qed.

Lemma bearer_some (s : Self) (w : World) (token : string) :
  accesstoken s = Some token -> bearer s w = (Ret ("Bearer " ++ token), s, w).
Proof. intros H; unfold bearer, bind, self; rewrite H; reflexivity. Qed.

(** ** Framing: what a method leaves alone *)

Lemma keeps_ret {A B} (p : Self -> B) (a : A) : keeps p (ret a).
Proof. intros s w; reflexivity. Qed.

Lemma keeps_raise {A B} (p : Self -> B) (e : exn) : keeps p (@raise A e).
Proof. intros s w; reflexivity. Qed.

Lemma keeps_self {B} (p : Self -> B) : keeps p self.
Proof. intros s w; reflexivity. Qed.

Lemma keeps_time_time {B} (p : Self -> B) : keeps p time_time.
Proof. intros s w; reflexivity. Qed.

Lemma keeps_time_sleep {B} (p : Self -> B) n : keeps p (time_sleep n).
Proof. intros s w; reflexivity. Qed.

Lemma keeps_send {B} (p : Self -> B) rq : keeps p (send rq).
Proof.
  intros s w; unfold send.
  destruct (pending w) as [|x rest]; [reflexivity|].
  destruct (answer x); reflexivity.
Qed.

Lemma keeps_lift {A B} (p : Self -> B) (r : exn + A) : keeps p (lift r).
Proof. destruct r; intros s w; reflexivity. Qed.

Lemma keeps_or_raise {A B} (p : Self -> B) e (o : option A) :
  keeps p (or_raise e o).
Proof. destruct o; intros s w; reflexivity. Qed.

Lemma keeps_assign {B} (p : Self -> B) (f : Self -> Self) :
  (forall s, p (f s) = p s) -> keeps p (assign f).
Proof. intros H s w; apply H. Qed.

Lemma keeps_bind {A A' B} (p : Self -> B) (c : M A) (k : A -> M A') :
  keeps p c -> (forall a, keeps p (k a)) -> keeps p (bind c k).
Proof.
  intros Hc Hk s w; unfold bind.
  specialize (Hc s w).
  destruct (c s w) as [[[a|e] s'] w']; unfold final in *; simpl in *.
  - rewrite <- Hc; apply (Hk a s' w').
  - exact Hc.
Qed.

Ltac frame_step :=
  first
    [ apply keeps_ret | apply keeps_raise | apply keeps_self
    | apply keeps_time_time | apply keeps_time_sleep | apply keeps_send
    | apply keeps_lift | apply keeps_or_raise
    | apply keeps_assign; intros; reflexivity
    | apply keeps_bind; [ | intros ]
    | match goal with
      | |- keeps _ (if ?b then _ else _) => destruct b
      | |- keeps _ (match ?x with _ => _ end) => destruct x
      end ].

Ltac frame := repeat frame_step.

Lemma generate_credentials_keeps {B} (p : Self -> B) :
  untouched_by_login p -> keeps p generate_credentials.
Proof.
  intros (H1 & H2 & H3 & H4).
  unfold generate_credentials, requests_post.
  apply keeps_bind; [frame|intros s0].
  apply keeps_bind; [frame|intros rsp].
  apply keeps_bind; [frame|intros payload].
  destruct (contains _ payload); [apply keeps_assign; auto|].
  destruct (Re.match_token payload) as [[[g1 g2] g3]|]; [|frame].
  repeat (apply keeps_bind; [ | intros ]);
    try (apply keeps_assign; auto); frame.
Qed.

Lemma token_valid_keeps {B} (p : Self -> B) :
  untouched_by_login p -> keeps p token_valid.
Proof.
  intros H; unfold token_valid.
  apply keeps_bind; [frame|intros t].
  apply keeps_bind; [frame|intros s0].
  destruct (_ >=? _); [apply generate_credentials_keeps; exact H|frame].
Qed.

Lemma request_car_data_keeps {B} (p : Self -> B) data_type sub vin :
  untouched_by_login p -> (forall v s, p (set_bmw_vin v s) = p s) ->
  keeps p (request_car_data data_type sub vin).
Proof.
  intros H Hv; unfold request_car_data, bearer, requests_get.
  apply keeps_bind; [frame|intros auth].
  apply keeps_bind; [apply token_valid_keeps; exact H|intros _].
  apply keeps_bind; [destruct vin; try (apply keeps_assign; auto); frame|intros _].
  frame.
Qed.

Lemma login_leaves_interval : untouched_by_login update_interval.
Proof. repeat split. Qed.

Lemma get_cars_keeps_interval : keeps update_interval get_cars.
Proof.
  unfold get_cars.
  apply keeps_bind;
    [apply request_car_data_keeps; [apply login_leaves_interval|reflexivity]|intros v].
  apply keeps_bind; [frame|intros _].
  apply keeps_bind; [frame|intros s0].
  apply keeps_bind; [frame|intros items].
  apply keeps_bind; [|frame].
  induction items as [|car rest IH]; simpl; frame; exact IH.
Qed.

Lemma get_car_data_keeps {B} (p : Self -> B) vin :
  untouched_by_fetch p -> keeps p (get_car_data vin).
Proof.
  intros [H Hv]; unfold get_car_data.
  apply request_car_data_keeps; assumption.
Qed.

Lemma update_car_keeps {B} (p : Self -> B) car :
  untouched_by_fetch p -> (forall l s, p (set_cars_data l s) = p s) ->
  keeps p (update_car car).
Proof.
  intros H Hd; unfold update_car, cars_data_append.
  do 3 (apply keeps_bind; [frame|intros ?]).
  apply keeps_bind; [apply get_car_data_keeps; exact H|intros v].
  destruct (is_int v); [frame|].
  apply keeps_bind; [frame|intros snap].
  apply keeps_bind; [|frame].
  apply keeps_bind; [frame|intros s0].
  destruct (cars_data s0); [apply keeps_assign; auto|frame].
Qed.

Lemma update_cars_keeps {B} (p : Self -> B) items :
  untouched_by_fetch p -> (forall l s, p (set_cars_data l s) = p s) ->
  keeps p (update_cars items).
Proof.
  intros H Hd; induction items as [|car rest IH]; simpl; [frame|].
  apply keeps_bind; [apply update_car_keeps; assumption|intros [|]];
    [exact IH|frame].
Qed.

Lemma fetch_leaves_interval : untouched_by_fetch update_interval.
Proof. repeat split. Qed.

Lemma update_cars_keeps_interval items : keeps update_interval (update_cars items).
Proof. apply update_cars_keeps; [apply fetch_leaves_interval|reflexivity]. Qed.

Lemma update_keeps_interval : keeps update_interval update.
Proof.
  unfold update.
  apply keeps_bind; [frame|intros t].
  apply keeps_bind; [frame|intros s0].
  destruct (float_gt _ _); [|frame].
  do 3 (apply keeps_bind; [frame|intros ?]).
  apply keeps_bind; [apply update_cars_keeps_interval|intros [|]]; frame.
Qed.

Lemma update_double_keeps_interval : keeps update_interval update_double.
Proof.
  unfold update_double.
  apply keeps_bind; [frame|intros t].
  apply keeps_bind; [frame|intros s0].
  destruct (Double.gt_int _ _); [|frame].
  do 3 (apply keeps_bind; [frame|intros ?]).
  apply keeps_bind; [apply update_cars_keeps_interval|intros [|]]; frame.
Qed.

(** C9: whatever [update_interval] the constructor is given, and whatever
    the first login and fetch do (they may raise), the instance it leaves
    has [update_interval] equal to 120, not the argument and not the
    module default of 600. *)
Theorem init_update_interval_is_120 :
  forall (username password : pyval) (url : option string)
         (requested : Z) (w : World),
    update_interval (final (__init__ username password url requested w)) = 120
    /\ UPDATE_INTERVAL = 600.
Proof.
  intros username password url requested w; split; [|reflexivity].
  unfold __init__.
  destruct (match url with
            | Some u => if String.prefix "https://" u
                        then (u ++ "/api/vehicle", u ++ "/api/me")
                        else ("https://" ++ u ++ "/api/vehicle",
                              "https://" ++ u ++ "/api/me")
            | None => _ end) as [vehicle me].
  assert (K : keeps update_interval
                (generate_credentials ;;
                 s <- self ;;
                 if is_valid_session s then get_cars ;; update_double ;; ret tt
                 else ret tt)).
  { apply keeps_bind;
      [apply generate_credentials_keeps; apply login_leaves_interval|intros _].
    apply keeps_bind; [frame|intros s1].
    destruct (is_valid_session s1); [|frame].
    apply keeps_bind; [apply get_cars_keeps_interval|intros _].
    apply keeps_bind; [apply update_double_keeps_interval|intros _].
    frame. }
  exact (K _ w).
Qed.

(** ** The polling gate *)

Lemma float_gt_false (a b : Q) : (a <= b)%Q -> float_gt a b = false.
Proof.
  intros H; unfold float_gt.
  apply (proj2 (Qle_bool_iff a b)) in H; rewrite H; reflexivity.
Qed.

(** ** The token check *)

Lemma int_of_float_ge (x : Q) (n : Z) :
  (0 <= x)%Q -> (int_of_float x >=? n) = true <-> (inject_Z n <= x)%Q.
Proof.
  destruct x as [a d]; unfold int_of_float, Qle, inject_Z; simpl.
  intros Ha; rewrite Z.mul_1_r in Ha.
  rewrite Z.geb_le, Z.mul_1_r, Z.quot_div_nonneg by lia.
  split; intros H.
  - apply Z.le_trans with (Z.pos d * (a / Z.pos d)).
    + rewrite Z.mul_comm; apply Z.mul_le_mono_nonneg_l; lia.
    + apply Z.mul_div_le; lia.
  - apply Z.div_le_lower_bound; lia.
Qed.

Lemma token_valid_fresh (s : Self) (w : World) :
  (0 <= clock w)%Q -> (clock w < inject_Z (token_expires s))%Q ->
  token_valid s w = (Ret tt, s, w).
Proof.
  intros H0 H; unfold token_valid, bind, time_time, self; simpl.
  destruct (int_of_float (clock w) >=? token_expires s) eqn:E; [|reflexivity].
  apply (int_of_float_ge _ _ H0) in E.
  exfalso; exact (Qlt_not_le _ _ H E).
Qed.

Lemma token_valid_expired (s : Self) (w : World) :
  (0 <= clock w)%Q -> (inject_Z (token_expires s) <= clock w)%Q ->
  token_valid s w = generate_credentials s w.
Proof.
  intros H0 H; unfold token_valid, bind, time_time, self; simpl.
  apply (int_of_float_ge _ _ H0) in H; rewrite H; reflexivity.
Qed.

(** C5: with the clock at or after the epoch, [token_valid] is a login
    exactly when [now >= token_expires].  Before the expiry it is a no-op:
    same instance, same world, so no request goes out; hence any request
    it sends implies [now >= token_expires].  In particular a second call,
    in any later world where the token the first call left is still valid,
    sends nothing and leaves token, expiry and session validity as they
    were. *)
Theorem token_valid_logs_in_only_when_expired :
  forall (s : Self) (w : World),
    (0 <= clock w)%Q ->
    ((inject_Z (token_expires s) <= clock w)%Q ->
       token_valid s w = generate_credentials s w)
    /\ ((clock w < inject_Z (token_expires s))%Q ->
          token_valid s w = (Ret tt, s, w))
    /\ (trace (world (token_valid s w)) <> trace w ->
          (inject_Z (token_expires s) <= clock w)%Q)
    /\ (forall w2 : World,
          let s1 := final (token_valid s w) in
          (0 <= clock w2)%Q ->
          (clock w2 < inject_Z (token_expires s1))%Q ->
          result (token_valid s1 w2) = Ret tt
          /\ trace (world (token_valid s1 w2)) = trace w2
          /\ accesstoken (final (token_valid s1 w2)) = accesstoken s1
          /\ token_expires (final (token_valid s1 w2)) = token_expires s1
          /\ is_valid_session (final (token_valid s1 w2)) = is_valid_session s1).
Proof.
  intros s w H0; repeat split.
  - apply token_valid_expired; exact H0.
  - apply token_valid_fresh; exact H0.
  - intros Hsent.
    destruct (Qlt_le_dec (clock w) (inject_Z (token_expires s))) as [Hlt|Hle];
      [|exact Hle].
    rewrite (token_valid_fresh s w H0 Hlt) in Hsent.
    exfalso; apply Hsent; reflexivity.
  - rewrite (token_valid_fresh _ w2 H H1); reflexivity.
  - rewrite (token_valid_fresh _ w2 H H1); reflexivity.
  - rewrite (token_valid_fresh _ w2 H H1); reflexivity.
  - rewrite (token_valid_fresh _ w2 H H1); reflexivity.
  - rewrite (token_valid_fresh _ w2 H H1); reflexivity.
Qed.

(** ** The kind of car *)

Lemma dict_mem_set_other (k k' : string) (v : pyval) (d : dict) :
  k <> k' -> dict_mem k (dict_set k' v d) = dict_mem k d.
Proof.
  intros Hk; induction d as [|[a x] d IH]; simpl.
  - apply String.eqb_neq in Hk; rewrite Hk; reflexivity.
  - destruct (String.eqb k' a) eqn:E; simpl.
    + reflexivity.
    + rewrite IH; reflexivity.
Qed.

Lemma dict_get_set_other (k k' : string) (v : pyval) (d : dict) :
  k <> k' -> dict_get k (dict_set k' v d) = dict_get k d.
Proof.
  intros Hk; induction d as [|[a x] d IH]; simpl.
  - apply String.eqb_neq in Hk; rewrite Hk; reflexivity.
  - destruct (String.eqb k' a) eqn:E; simpl.
    + apply String.eqb_eq in E; subst a.
      apply String.eqb_neq in Hk; rewrite Hk; reflexivity.
    + rewrite IH; reflexivity.
Qed.

Lemma dict_get_set_same (k : string) (v : pyval) (d : dict) :
  dict_get k (dict_set k v d) = Some v.
Proof.
  induction d as [|[a x] d IH]; simpl.
  - rewrite String.eqb_refl; reflexivity.
  - destruct (String.eqb k a) eqn:E; simpl; rewrite E; [reflexivity|exact IH].
Qed.

Lemma eq_str_false (v : pyval) (t : string) : v <> PStr t -> eq_str v t = false.
Proof.
  intros H; destruct v; simpl; try reflexivity.
  apply String.eqb_neq; intros ->; apply H; reflexivity.
Qed.

(** The two keys [update] adds before it classifies are not the keys the
    classification reads. *)
Lemma type_of_car_after_naming (bmw_vin name : pyval) (d : dict) :
  type_of_car (dict_set "car_name" name (dict_set "vin" bmw_vin d))
  = type_of_car d.
Proof.
  unfold type_of_car.
  rewrite !dict_mem_set_other, !dict_get_set_other by discriminate.
  reflexivity.
Qed.

(** ** The car list *)

Lemma send_reply (rq : Request) (x : Exchange) (rest : list Exchange)
    (r : Response) (s : Self) (w : World) :
  pending w = x :: rest -> answer x = Reply r ->
  send rq s w = (Ret r, s, answered rq x rest w).
Proof. intros Hp Ha; unfold send; rewrite Hp, Ha; reflexivity. Qed.

Lemma request_cars_status (s s1 : Self) (w w1 : World) (token : string)
    (x : Exchange) (rest : list Exchange) (r : Response) :
  accesstoken s = Some token ->
  token_valid s w = (Ret tt, s1, w1) ->
  pending w1 = x :: rest ->
  answer x = Reply r ->
  status_code r <> 200 ->
  request_car_data "get_cars" None PNone s w
  = (Ret (PInt (status_code r)), s1, answered (get_cars_request token s1) x rest w1).
Proof.
  intros Htok Htv Hp Ha Hcode.
  unfold request_car_data.
  rewrite (run_bind _ _ _ _ _ _ _ (bearer_some s w token Htok)).
  rewrite (run_bind _ _ _ _ _ _ _ Htv).
  do 2 (erewrite run_bind by reflexivity).
  unfold requests_get.
  rewrite (run_bind _ _ _ _ _ _ _ (send_reply _ x rest r s1 w1 Hp Ha)).
  apply Z.eqb_neq in Hcode; rewrite Hcode.
  reflexivity.
Qed.

(** C10: when the fetch of the car list is answered with a status other
    than 200, [request_car_data] returns that status as an int, and
    [get_cars] does not tell it from a list: it stores the int in
    [self.cars] and raises a TypeError on iterating it; no failure result
    reaches the caller. *)
Theorem get_cars_iterates_status_code :
  forall (s s1 : Self) (w w1 : World) (token : string)
         (x : Exchange) (rest : list Exchange) (r : Response),
    accesstoken s = Some token ->
    token_valid s w = (Ret tt, s1, w1) ->
    pending w1 = x :: rest ->
    answer x = Reply r ->
    status_code r <> 200 ->
    result (request_car_data "get_cars" None PNone s w) = Ret (PInt (status_code r))
    /\ result (get_cars s w) = Raise TypeError
    /\ cars (final (get_cars s w)) = PInt (status_code r).
Proof.
  intros s s1 w w1 token x rest r Htok Htv Hp Ha Hcode.
  pose proof (request_cars_status s s1 w w1 token x rest r Htok Htv Hp Ha Hcode) as E.
  split; [rewrite E; reflexivity|].
  unfold get_cars, bind; rewrite E; split; reflexivity.
Qed.

(** ** The remote command protocol *)





Lemma send_cases (rq : Request) (s : Self) (w : World) :
  exists w1,
    trace w1 = (trace w ++ [Sent rq])%list
    /\ (send rq s w = (Raise RequestException, s, w1)
        \/ exists r, send rq s w = (Ret r, s, w1)).
Proof.
  unfold send.
  destruct (pending w) as [|x rest].
  - eexists; split; [|left; reflexivity]; reflexivity.
  - destruct (answer x) as [|r].
    + eexists; split; [|left; reflexivity]; reflexivity.
    + eexists; split; [|right; exists r; reflexivity]; reflexivity.
Qed.













(** ** The login *)

Lemma quiet_bind {A B} (c : M A) (k : A -> M B) :
  quiet c -> (forall a, quiet (k a)) -> quiet (bind c k).
Proof.
  intros Hc Hk s w; unfold bind.
  specialize (Hc s w).
  destruct (c s w) as [[[a|e] s'] w']; unfold world in *; simpl in *.
  - rewrite <- Hc; apply (Hk a s' w').
  - exact Hc.
Qed.

Lemma quiet_lift {A} (r : exn + A) : quiet (lift r).
Proof. destruct r; intros s w; reflexivity. Qed.

Lemma quiet_or_raise {A} e (o : option A) : quiet (or_raise e o).
Proof. destruct o; intros s w; reflexivity. Qed.

Lemma generate_credentials_unfold (s : Self) (w : World) :
  generate_credentials s w
  = bind (send (login_request s)) after_redirect s w.
Proof. reflexivity. Qed.

Lemma after_redirect_quiet (r : Response) : quiet (after_redirect r).
Proof.
  unfold after_redirect.
  apply quiet_bind; [apply quiet_or_raise|intros payload].
  destruct (contains _ payload); [intros s w; reflexivity|].
  destruct (Re.match_token payload) as [[[g1 g2] g3]|]; [|intros s w; reflexivity].
  repeat (apply quiet_bind; [ | intros ]);
    try apply quiet_lift; intros s w; reflexivity.
Qed.

Lemma generate_credentials_one_request (s : Self) (w : World) :
  trace (world (generate_credentials s w))
  = (trace w ++ [Sent (login_request s)])%list.
Proof.
  rewrite generate_credentials_unfold.
  destruct (send_cases (login_request s) s w) as (w1 & Htr & [Hsend|(r & Hsend)]).
  - rewrite (run_bind_raise _ _ _ _ _ _ _ Hsend); exact Htr.
  - rewrite (run_bind _ _ _ _ _ _ _ Hsend), after_redirect_quiet; exact Htr.
Qed.

Lemma send_faults (rq : Request) (s : Self) (w : World) :
  faults w -> exists w1, send rq s w = (Raise RequestException, s, w1).
Proof.
  unfold send; intros [H|(x & rest & H & Ha)]; rewrite H.
  - eexists; reflexivity.
  - rewrite Ha; eexists; reflexivity.
Qed.

(** How a login ends: denied by the marker, which marks the session
    invalid; by an exception, which leaves the mark of the session as it
    was; or with a token, which marks the session valid. *)
Lemma generate_credentials_cases (s : Self) (w : World) :
  let run := generate_credentials s w in
  (exists x rest r my_payload,
      pending w = x :: rest /\ answer x = Reply r
      /\ header "Location" (headers r) = Some my_payload
      /\ contains "error=access_denied" my_payload = true
      /\ result run = Ret tt
      /\ final run = set_is_valid_session false s)
  \/ (exists e, result run = Raise e
                /\ is_valid_session (final run) = is_valid_session s)
  \/ (result run = Ret tt /\ is_valid_session (final run) = true).
Proof.
  intros run; unfold run; clear run.
  rewrite generate_credentials_unfold.
  destruct (pending w) as [|x rest] eqn:Hp.
  { destruct (send_faults (login_request s) s w (or_introl Hp)) as (w1 & Hsend).
    rewrite (run_bind_raise _ _ _ _ _ _ _ Hsend).
    right; left; eexists; split; reflexivity. }
  destruct (answer x) as [|r] eqn:Ha.
  { destruct (send_faults (login_request s) s w) as (w1 & Hsend).
    { right; exists x, rest; split; [exact Hp|exact Ha]. }
    rewrite (run_bind_raise _ _ _ _ _ _ _ Hsend).
    right; left; eexists; split; reflexivity. }
  rewrite (run_bind _ _ _ _ _ _ _ (send_reply _ x rest r s w Hp Ha)).
  unfold after_redirect.
  destruct (header "Location" (headers r)) as [my_payload|] eqn:Hloc.
  2:{ right; left; eexists; split; reflexivity. }
  erewrite run_bind by reflexivity.
  destruct (contains "error=access_denied" my_payload) eqn:Hdenied.
  { left; exists x, rest, r, my_payload; repeat split; assumption. }
  destruct (Re.match_token my_payload) as [[[g1 g2] g3]|].
  2:{ right; left; eexists; split; reflexivity. }
  do 3 (erewrite run_bind by reflexivity).
  match goal with
  | |- context [lift (strftime_localtime ?t)] =>
      destruct (strftime_localtime t) as [e|date_time]
  end.
  - erewrite run_bind_raise by reflexivity.
    right; left; eexists; split; reflexivity.
  - do 2 (erewrite run_bind by reflexivity).
    right; right; split; reflexivity.
Qed.

(** C7, as the code has it: a login sends its one request and never a
    second one.  When the transport faults, its exception leaves
    [generate_credentials]; when the answer has no Location header, as an
    answer that is no redirect, a KeyError does; when the Location has
    neither the access-denied marker nor the shape of a token redirect, an
    AttributeError does; in these cases the instance is as it was before
    the call, a session marked valid included.  When the Location carries
    the access-denied marker the call returns and the session is marked
    invalid, and only then: a session that was marked valid and is not
    after the call was answered with that marker, and the call returned.
    No login that raises changes the mark. *)
Theorem generate_credentials_on_failure :
  forall (s : Self) (w : World),
    let run := generate_credentials s w in
    trace (world run) = (trace w ++ [Sent (login_request s)])%list
    /\ (faults w -> result run = Raise RequestException /\ final run = s)
    /\ (forall x rest r,
          pending w = x :: rest -> answer x = Reply r ->
          header "Location" (headers r) = None ->
          result run = Raise KeyError /\ final run = s)
    /\ (forall x rest r my_payload,
          pending w = x :: rest -> answer x = Reply r ->
          header "Location" (headers r) = Some my_payload ->
          contains "error=access_denied" my_payload = true ->
          result run = Ret tt /\ final run = set_is_valid_session false s)
    /\ (forall x rest r my_payload,
          pending w = x :: rest -> answer x = Reply r ->
          header "Location" (headers r) = Some my_payload ->
          contains "error=access_denied" my_payload = false ->
          Re.match_token my_payload = None ->
          result run = Raise AttributeError /\ final run = s)
    /\ (is_valid_session s = true ->
        is_valid_session (final run) = false ->
        result run = Ret tt
        /\ exists x rest r my_payload,
             pending w = x :: rest /\ answer x = Reply r
             /\ header "Location" (headers r) = Some my_payload
             /\ contains "error=access_denied" my_payload = true)
    /\ (forall e, result run = Raise e ->
                  is_valid_session (final run) = is_valid_session s).
Proof.
  intros s w run.
  pose proof (generate_credentials_cases s w) as Cases.
  cbv zeta in Cases.
  unfold run; clear run.
  split; [apply generate_credentials_one_request|].
  split; [|split; [|split; [|split; [|split]]]].
  - rewrite generate_credentials_unfold.
    intros Hf; destruct (send_faults (login_request s) s w Hf) as (w1 & Hsend).
    rewrite (run_bind_raise _ _ _ _ _ _ _ Hsend); split; reflexivity.
  - rewrite generate_credentials_unfold.
    intros x rest r Hp Ha Hloc.
    rewrite (run_bind _ _ _ _ _ _ _ (send_reply _ x rest r s w Hp Ha)).
    unfold after_redirect; rewrite Hloc; split; reflexivity.
  - rewrite generate_credentials_unfold.
    intros x rest r my_payload Hp Ha Hloc Hdenied.
    rewrite (run_bind _ _ _ _ _ _ _ (send_reply _ x rest r s w Hp Ha)).
    unfold after_redirect; rewrite Hloc.
    erewrite run_bind by reflexivity.
    rewrite Hdenied; split; reflexivity.
  - rewrite generate_credentials_unfold.
    intros x rest r my_payload Hp Ha Hloc Hdenied Hmatch.
    rewrite (run_bind _ _ _ _ _ _ _ (send_reply _ x rest r s w Hp Ha)).
    unfold after_redirect; rewrite Hloc.
    erewrite run_bind by reflexivity.
    rewrite Hdenied, Hmatch; split; reflexivity.
  - intros Hwas Hnow.
    destruct Cases as [(x & rest & r & my_payload & Hp & Ha & Hloc & Hd & Hr & _)
                      |[(e & _ & Hsame)|(_ & Hvalid)]].
    + split; [exact Hr|].
      exists x, rest, r, my_payload; repeat split; assumption.
    + rewrite Hsame, Hwas in Hnow; discriminate.
    + rewrite Hvalid in Hnow; discriminate.
  - intros e He.
    destruct Cases as [(x & rest & r & my_payload & _ & _ & _ & _ & Hr & _)
                      |[(e' & _ & Hsame)|(Hr & _)]].
    + rewrite Hr in He; discriminate.
    + exact Hsame.
    + rewrite Hr in He; discriminate.
Qed.

(** ** The loop of [update] *)

Lemma float_gt_true (a b : Q) : (b < a)%Q -> float_gt a b = true.
Proof.
  intros H; unfold float_gt.
  destruct (Qle_bool a b) eqn:E; [|reflexivity].
  apply Qle_bool_iff in E; exfalso; exact (Qlt_not_le _ _ H E).
Qed.

Lemma fetch_leaves_cars_data : untouched_by_fetch cars_data.
Proof. repeat split. Qed.

Lemma fetch_leaves_last_update_time : untouched_by_fetch last_update_time.
Proof. repeat split. Qed.

Lemma fetch_leaves_is_updated : untouched_by_fetch is_updated.
Proof. repeat split. Qed.

(** The loop over a list that continues past its first part. *)
Lemma update_cars_app (before after : list pyval) :
  forall (s s1 : Self) (w w1 : World),
    update_cars before s w = (Ret Next, s1, w1) ->
    update_cars (before ++ after) s w = update_cars after s1 w1.
Proof.
  induction before as [|car rest IH]; intros s s1 w w1 H.
  - injection H as <- <-; reflexivity.
  - cbn [update_cars app] in *.
    apply bind_inv in H as (f & s2 & w2 & Hcar & H).
    rewrite (run_bind _ _ _ _ _ _ _ Hcar).
    destruct f; [|discriminate].
    apply (IH s2 s1 w2 w1 H).
Qed.

(** The loop body on a car whose fetch returns an int leaves [update]. *)
Lemma update_car_failed (car bmw_vin brand model_name : pyval) (code : Z)
    (s s1 : Self) (w w1 : World) :
  getitem car (Some "vin") = inr bmw_vin ->
  getitem car (Some "brand") = inr brand ->
  getitem car (Some "modelName") = inr model_name ->
  get_car_data bmw_vin s w = (Ret (PInt code), s1, w1) ->
  update_car car s w = (Ret Return_None, s1, w1).
Proof.
  intros Hv Hb Hm Hget.
  unfold update_car, bind, lift, ret.
  rewrite Hv, Hb, Hm; cbv beta iota.
  rewrite Hget; reflexivity.
Qed.

(** ** The token a data request carries *)

Lemma json_subscript_quiet (data_type : string) (sub : option string)
    (r : Response) :
  quiet (if status_code r =? 200 then
           body <- or_raise ValueError (json r) ;;
           if (String.eqb data_type "dynamic"
               || String.eqb data_type "servicepartner")%bool
           then lift (getitem body sub)
           else ret body
         else ret (PInt (status_code r))).
Proof.
  destruct (status_code r =? 200); [|intros s w; reflexivity].
  apply quiet_bind; [apply quiet_or_raise|intros body].
  destruct (_ || _)%bool; [apply quiet_lift|intros s w; reflexivity].
Qed.

(** C1 on the code: when the token check is through, the one request
    [request_car_data] then sends carries the token the instance held on
    entry, before the check, whatever token the check left in the
    instance; after a refresh that is the stale one. *)
Theorem request_car_data_sends_token_held_on_entry :
  forall (data_type : string) (sub_data_type : option string) (vin : pyval)
         (token : string) (s s1 : Self) (w w1 : World),
    accesstoken s = Some token ->
    token_valid s w = (Ret tt, s1, w1) ->
    let run := request_car_data data_type sub_data_type vin s w in
    let rq := data_request token (data_url data_type (with_vin vin s1)) in
    trace (world run) = (trace w1 ++ [Sent rq])%list
    /\ header "Authorization" (req_headers rq) = Some ("Bearer " ++ token).
Proof.
  intros data_type sub vin token s s1 w w1 Htok Htv run rq.
  split; [|reflexivity].
  unfold run, request_car_data.
  rewrite (run_bind _ _ _ _ _ _ _ (bearer_some s w token Htok)).
  rewrite (run_bind _ _ _ _ _ _ _ Htv).
  assert (Hvin : (match vin with
                  | PNone => ret tt
                  | _ => assign (set_bmw_vin vin)
                  end) s1 w1 = (Ret tt, with_vin vin s1, w1))
    by (destruct vin; reflexivity).
  rewrite (run_bind _ _ _ _ _ _ _ Hvin).
  erewrite run_bind by reflexivity.
  unfold requests_get, timeout_not_passed.
  destruct (send_cases rq (with_vin vin s1) w1)
    as (w2 & Htr & [Hsend|(r & Hsend)]).
  - unfold rq, data_request, data_url, authorized in Hsend.
    rewrite (run_bind_raise _ _ _ _ _ _ _ Hsend); exact Htr.
  - unfold rq, data_request, data_url, authorized in Hsend.
    rewrite (run_bind _ _ _ _ _ _ _ Hsend).
    rewrite (json_subscript_quiet data_type sub r); exact Htr.
Qed.

(** ** Timeouts *)

Lemma emits_quiet {A} P (c : M A) : quiet c -> emits P c.
Proof.
  intros H s w; exists []; rewrite H, app_nil_r; split; [reflexivity|constructor].
Qed.

Lemma emits_bind {A B} P (c : M A) (k : A -> M B) :
  emits P c -> (forall a, emits P (k a)) -> emits P (bind c k).
Proof.
  intros Hc Hk s w; unfold bind.
  destruct (Hc s w) as (evs & Htr & Hall).
  destruct (c s w) as [[[a|e] s'] w']; unfold world in *; simpl in *.
  - destruct (Hk a s' w') as (evs' & Htr' & Hall').
    exists (evs ++ evs')%list; split.
    + unfold world in Htr'; rewrite Htr', Htr, app_assoc; reflexivity.
    + apply Forall_app; split; assumption.
  - exists evs; split; assumption.
Qed.

Lemma emits_send P (rq : Request) : P (Sent rq) -> emits P (send rq).
Proof.
  intros H s w.
  destruct (send_cases rq s w) as (w1 & Htr & [Hsend|(r & Hsend)]);
    rewrite Hsend; exists [Sent rq]; (split; [exact Htr|repeat constructor; exact H]).
Qed.

Lemma emits_sleep P (secs : Z) : P (Slept secs) -> emits P (time_sleep secs).
Proof.
  intros H s w; exists [Slept secs]; split; [reflexivity|repeat constructor; exact H].
Qed.

Lemma generate_credentials_no_timeout :
  emits passes_no_timeout generate_credentials.
Proof.
  intros s w; rewrite generate_credentials_unfold.
  apply (emits_bind passes_no_timeout (send (login_request s)) after_redirect).
  - apply emits_send; reflexivity.
  - intros r; apply emits_quiet, after_redirect_quiet.
Qed.

Lemma token_valid_no_timeout : emits passes_no_timeout token_valid.
Proof.
  unfold token_valid.
  apply emits_bind; [apply emits_quiet; intros s w; reflexivity|intros t].
  apply emits_bind; [apply emits_quiet; intros s w; reflexivity|intros s0].
  destruct (_ >=? _); [apply generate_credentials_no_timeout|].
  apply emits_quiet; intros s w; reflexivity.
Qed.

Lemma bearer_quiet : quiet bearer.
Proof.
  unfold bearer; apply quiet_bind; [intros s w; reflexivity|intros s0].
  destruct (accesstoken s0) as [token|]; intros s w; reflexivity.
Qed.

Lemma request_car_data_no_timeout data_type sub vin :
  emits passes_no_timeout (request_car_data data_type sub vin).
Proof.
  unfold request_car_data.
  apply emits_bind; [apply emits_quiet, bearer_quiet|intros auth].
  apply emits_bind; [apply token_valid_no_timeout|intros _].
  apply emits_bind;
    [apply emits_quiet; destruct vin; intros ? ?; reflexivity|intros _].
  apply emits_bind; [apply emits_quiet; intros s w; reflexivity|intros s0].
  apply emits_bind; [apply emits_send; reflexivity|intros r].
  apply emits_quiet, json_subscript_quiet.
Qed.

Lemma poll_no_timeout n url_check hd st0 :
  emits passes_no_timeout (poll n url_check hd st0).
Proof.
  revert st0; induction n as [|n IH]; intros st0; cbn [poll].
  - apply emits_quiet; intros s w; reflexivity.
  - apply emits_bind; [apply emits_sleep; exact I|intros _].
    apply emits_bind; [apply emits_send; reflexivity|intros r].
    apply emits_bind; [apply emits_quiet, quiet_or_raise|intros root_data].
    apply emits_bind; [apply emits_quiet, quiet_or_raise|intros element].
    destruct (is_executed _); [apply emits_quiet; intros s w; reflexivity|apply IH].
Qed.

Lemma execute_service_no_timeout service vin :
  emits passes_no_timeout (execute_service service vin).
Proof.
  unfold execute_service.
  apply emits_bind; [apply token_valid_no_timeout|intros _].
  apply emits_bind; [apply emits_quiet, bearer_quiet|intros auth].
  apply emits_bind; [apply emits_quiet, quiet_or_raise|intros command].
  apply emits_bind; [apply emits_quiet; intros s w; reflexivity|intros s0].
  apply emits_bind; [apply emits_send; reflexivity|intros r].
  destruct (negb _); [apply emits_quiet; intros s w; reflexivity|].
  apply emits_bind; [apply poll_no_timeout|intros st].
  destruct (negb _); apply emits_quiet; intros s w; reflexivity.
Qed.

(** C8 on the code: no transport call is given a timeout.  Every request
    a login, a data request or a command execution puts on the trace, the
    status polls included, has no [timeout] argument, although the module
    defines [TIMEOUT] as 10. *)
Theorem transport_calls_pass_no_timeout :
  TIMEOUT = 10
  /\ emits passes_no_timeout generate_credentials
  /\ (forall data_type sub_data_type vin,
        emits passes_no_timeout (request_car_data data_type sub_data_type vin))
  /\ (forall service vin,
        emits passes_no_timeout (execute_service service vin)).
Proof.
  split; [reflexivity|].
  split; [apply generate_credentials_no_timeout|].
  split; [apply request_car_data_no_timeout|apply execute_service_no_timeout].
Qed.

(** * Further properties of the code *)

(** ** The constructor *)

Lemma log_cars_keeps {B} (p : Self -> B) items : keeps p (log_cars items).
Proof. induction items as [|car rest IH]; simpl; frame; exact IH. Qed.

Lemma get_cars_keeps {B} (p : Self -> B) :
  untouched_by_fetch p -> (forall v s, p (set_cars v s) = p s) ->
  keeps p get_cars.
Proof.
  intros [H Hv] Hc; unfold get_cars.
  apply keeps_bind; [apply request_car_data_keeps; assumption|intros v].
  apply keeps_bind; [apply keeps_assign; auto|intros _].
  apply keeps_bind; [frame|intros s0].
  apply keeps_bind; [frame|intros items].
  apply keeps_bind; [apply log_cars_keeps|frame].
Qed.

Lemma update_keeps {B} (p : Self -> B) :
  untouched_by_update p -> keeps p update.
Proof.
  intros (H & Hd & Ht & Hu); unfold update.
  apply keeps_bind; [frame|intros t].
  apply keeps_bind; [frame|intros s0].
  destruct (float_gt _ _).
  - apply keeps_bind; [apply keeps_assign; auto|intros _].
    apply keeps_bind; [frame|intros s1].
    apply keeps_bind; [frame|intros items].
    apply keeps_bind; [apply update_cars_keeps; assumption|intros [|]]; [|frame].
    apply keeps_bind; [frame|intros now].
    apply keeps_bind; [apply keeps_assign; auto|intros _].
    apply keeps_bind; [apply keeps_assign; auto|intros _].
    frame.
  - apply keeps_bind; [apply keeps_assign; auto|frame].
Qed.

Lemma update_double_keeps {B} (p : Self -> B) :
  untouched_by_update p -> keeps p update_double.
Proof.
  intros (H & Hd & Ht & Hu); unfold update_double.
  apply keeps_bind; [frame|intros t].
  apply keeps_bind; [frame|intros s0].
  destruct (Double.gt_int _ _).
  - apply keeps_bind; [apply keeps_assign; auto|intros _].
    apply keeps_bind; [frame|intros s1].
    apply keeps_bind; [frame|intros items].
    apply keeps_bind; [apply update_cars_keeps; assumption|intros [|]]; [|frame].
    apply keeps_bind; [frame|intros now].
    apply keeps_bind; [apply keeps_assign; auto|intros _].
    apply keeps_bind; [apply keeps_assign; auto|intros _].
    frame.
  - apply keeps_bind; [apply keeps_assign; auto|frame].
Qed.

Lemma urls_untouched : untouched_by_update urls /\ (forall v s, urls (set_cars v s) = urls s).
Proof. repeat split. Qed.

(** X1: whatever [url] the constructor is given and whatever the first
    login and fetch do, the instance ends with the two URLs built on one
    base that starts with https://: the default host for None, the
    argument itself when it starts with https://, and the argument behind
    https:// otherwise. *)
Theorem init_urls_share_https_base :
  forall (username password : pyval) (url : option string)
         (requested : Z) (w : World),
    let s := final (__init__ username password url requested w) in
    let base :=
      match url with
      | None => "https://www.bmw-connecteddrive.nl"
      | Some u => if String.prefix "https://" u then u else "https://" ++ u
      end in
    bmw_url s = base ++ "/api/vehicle"
    /\ bmw_url_me s = base ++ "/api/me"
    /\ String.prefix "https://" base = true.
Proof.
  intros username password url requested w s base.
  assert (K : keeps urls
                (generate_credentials ;;
                 s <- self ;;
                 if is_valid_session s then get_cars ;; update_double ;; ret tt
                 else ret tt)).
  { destruct urls_untouched as [Hu Hc].
    pose proof Hu as (Hf & _).
    pose proof Hf as (Hl & _).
    apply keeps_bind; [apply generate_credentials_keeps; exact Hl|intros _].
    apply keeps_bind; [frame|intros s1].
    destruct (is_valid_session s1); [|frame].
    apply keeps_bind; [apply get_cars_keeps; assumption|intros _].
    apply keeps_bind; [apply update_double_keeps; exact Hu|intros _].
    frame. }
  assert (E : urls s = (base ++ "/api/vehicle", base ++ "/api/me")).
  { unfold s, __init__, base.
    destruct url as [u|]; [destruct (String.prefix "https://" u)|];
      exact (K _ w). }
  injection E as E1 E2.
  split; [exact E1|split; [exact E2|]].
  unfold base; destruct url as [u|]; [|reflexivity].
  destruct (String.prefix "https://" u) eqn:P; [exact P|].
  simpl; destruct u; reflexivity.
Qed.

(** ** A session marked valid holds a token *)

Lemma preserves_bind {A B} (I : Self -> Prop) (c : M A) (k : A -> M B) :
  preserves I c -> (forall a, preserves I (k a)) -> preserves I (bind c k).
Proof.
  intros Hc Hk s w Hs; unfold bind.
  specialize (Hc s w Hs).
  destruct (c s w) as [[[a|e] s'] w']; unfold final in *; simpl in *.
  - apply (Hk a s' w'); exact Hc.
  - exact Hc.
Qed.

Lemma preserves_inert {A} (I : Self -> Prop) (c : M A) :
  keeps (fun s => s) c -> preserves I c.
Proof. intros H s w Hs; rewrite (H s w); exact Hs. Qed.

Lemma preserves_if {A} (I : Self -> Prop) (b : bool) (c1 c2 : M A) :
  preserves I c1 -> preserves I c2 -> preserves I (if b then c1 else c2).
Proof. destruct b; auto. Qed.

Lemma after_redirect_session_ok (r : Response) :
  preserves session_ok (after_redirect r).
Proof.
  intros s w Hs; unfold after_redirect, bind, or_raise.
  destruct (header "Location" (headers r)) as [payload|]; [|exact Hs].
  unfold ret at 1; cbv beta iota.
  destruct (contains "error=access_denied" payload).
  - intros H; discriminate H.
  - destruct (Re.match_token payload) as [[[g1 g2] g3]|]; [|exact Hs].
    unfold assign at 1, time_time, lift; cbv beta iota.
    destruct (strftime_localtime _) as [e|date_time];
      intros _; discriminate.
Qed.

Lemma generate_credentials_session_ok : preserves session_ok generate_credentials.
Proof.
  intros s w Hs; rewrite generate_credentials_unfold; revert Hs.
  apply (preserves_bind session_ok (send (login_request s)) after_redirect).
  - apply preserves_inert; frame.
  - apply after_redirect_session_ok.
Qed.

Lemma token_valid_session_ok : preserves session_ok token_valid.
Proof.
  unfold token_valid.
  apply preserves_bind; [apply preserves_inert; frame|intros t].
  apply preserves_bind; [apply preserves_inert; frame|intros s0].
  apply preserves_if; [apply generate_credentials_session_ok|].
  apply preserves_inert; frame.
Qed.

Lemma request_car_data_session_ok data_type sub vin :
  preserves session_ok (request_car_data data_type sub vin).
Proof.
  unfold request_car_data, bearer, requests_get.
  apply preserves_bind; [apply preserves_inert; frame|intros auth].
  apply preserves_bind; [apply token_valid_session_ok|intros _].
  apply preserves_bind; [destruct vin; intros ? ? Hs; exact Hs|intros _].
  apply preserves_inert; frame.
Qed.

Lemma get_cars_session_ok : preserves session_ok get_cars.
Proof.
  unfold get_cars.
  apply preserves_bind; [apply request_car_data_session_ok|intros v].
  apply preserves_bind; [intros s w Hs; exact Hs|intros _].
  apply preserves_inert.
  apply keeps_bind; [frame|intros s0].
  apply keeps_bind; [frame|intros items].
  apply keeps_bind; [apply log_cars_keeps|frame].
Qed.

Lemma update_cars_session_ok items : preserves session_ok (update_cars items).
Proof.
  induction items as [|car rest IH]; simpl; [apply preserves_inert; frame|].
  apply preserves_bind; [|intros [|]; [exact IH|apply preserves_inert; frame]].
  unfold update_car, get_car_data, cars_data_append.
  do 3 (apply preserves_bind; [apply preserves_inert; frame|intros ?]).
  apply preserves_bind; [apply request_car_data_session_ok|intros v].
  apply preserves_if; [apply preserves_inert; frame|].
  apply preserves_bind; [apply preserves_inert; frame|intros snap].
  apply preserves_bind; [|intros _; apply preserves_inert; frame].
  apply preserves_bind; [apply preserves_inert; frame|intros s0].
  destruct (cars_data s0); [intros ? ? Hs; exact Hs|apply preserves_inert; frame].
Qed.

Lemma update_session_ok : preserves session_ok update.
Proof.
  unfold update.
  apply preserves_bind; [apply preserves_inert; frame|intros t].
  apply preserves_bind; [apply preserves_inert; frame|intros s0].
  apply preserves_if.
  - apply preserves_bind; [intros s w Hs; exact Hs|intros _].
    apply preserves_bind; [apply preserves_inert; frame|intros s1].
    apply preserves_bind; [apply preserves_inert; frame|intros items].
    apply preserves_bind; [apply update_cars_session_ok|intros [|]];
      [|apply preserves_inert; frame].
    apply preserves_bind; [apply preserves_inert; frame|intros now].
    apply preserves_bind; [intros s w Hs; exact Hs|intros _].
    apply preserves_bind; [intros s w Hs; exact Hs|intros _].
    apply preserves_inert; frame.
  - apply preserves_bind; [intros s w Hs; exact Hs|intros _].
    apply preserves_inert; frame.
Qed.

Lemma update_double_session_ok : preserves session_ok update_double.
Proof.
  unfold update_double.
  apply preserves_bind; [apply preserves_inert; frame|intros t].
  apply preserves_bind; [apply preserves_inert; frame|intros s0].
  apply preserves_if.
  - apply preserves_bind; [intros s w Hs; exact Hs|intros _].
    apply preserves_bind; [apply preserves_inert; frame|intros s1].
    apply preserves_bind; [apply preserves_inert; frame|intros items].
    apply preserves_bind; [apply update_cars_session_ok|intros [|]];
      [|apply preserves_inert; frame].
    apply preserves_bind; [apply preserves_inert; frame|intros now].
    apply preserves_bind; [intros s w Hs; exact Hs|intros _].
    apply preserves_bind; [intros s w Hs; exact Hs|intros _].
    apply preserves_inert; frame.
  - apply preserves_bind; [intros s w Hs; exact Hs|intros _].
    apply preserves_inert; frame.
Qed.

Lemma poll_inert n url_check hd st0 :
  keeps (fun s => s) (poll n url_check hd st0).
Proof.
  revert st0; induction n as [|n IH]; intros st0; cbn [poll]; [frame|].
  unfold requests_get.
  do 4 (apply keeps_bind; [frame|intros ?]).
  destruct (is_executed _); [frame|apply IH].
Qed.

Lemma execute_service_session_ok service vin :
  preserves session_ok (execute_service service vin).
Proof.
  unfold execute_service, bearer, requests_post.
  apply preserves_bind; [apply token_valid_session_ok|intros _].
  apply preserves_inert.
  do 4 (apply keeps_bind; [frame|intros ?]).
  destruct (negb _); [frame|].
  apply keeps_bind; [apply poll_inert|intros st; frame].
Qed.

(** X2: an instance whose session is marked valid holds a token.  The
    constructor ends in such an instance, whatever the transport answers,
    and a login, a token check, a data request, the fetch of the car
    list, an update (with either gate) and a command each keep it so,
    also when they raise. *)
Theorem valid_session_holds_token :
  (forall username password url requested w,
      session_ok (final (__init__ username password url requested w)))
  /\ preserves session_ok generate_credentials
  /\ preserves session_ok token_valid
  /\ (forall data_type sub_data_type vin,
        preserves session_ok (request_car_data data_type sub_data_type vin))
  /\ preserves session_ok get_cars
  /\ preserves session_ok update
  /\ (forall service vin, preserves session_ok (execute_service service vin))
  /\ preserves session_ok update_double.
Proof.
  split; [|split; [apply generate_credentials_session_ok|]].
  2: split; [apply token_valid_session_ok|].
  2: split; [apply request_car_data_session_ok|].
  2: split; [apply get_cars_session_ok|].
  2: split; [apply update_session_ok|].
  2: split; [apply execute_service_session_ok|apply update_double_session_ok].
  intros username password url requested w.
  unfold __init__.
  destruct (match url with
            | Some u => if String.prefix "https://" u
                        then (u ++ "/api/vehicle", u ++ "/api/me")
                        else ("https://" ++ u ++ "/api/vehicle",
                              "https://" ++ u ++ "/api/me")
            | None => _ end) as [vehicle me].
  assert (K : preserves session_ok
                (generate_credentials ;;
                 s <- self ;;
                 if is_valid_session s then get_cars ;; update_double ;; ret tt
                 else ret tt)).
  { apply preserves_bind; [apply generate_credentials_session_ok|intros _].
    apply preserves_bind; [apply preserves_inert; frame|intros s1].
    apply preserves_if; [|apply preserves_inert; frame].
    apply preserves_bind; [apply get_cars_session_ok|intros _].
    apply preserves_bind; [apply update_double_session_ok|intros _].
    apply preserves_inert; frame. }
  apply K; intros H; discriminate H.
Qed.

(** ** The pattern of the token redirect *)

Lemma lit_sound {R} (l s : string) (k : string -> option R) (r : R) :
  Re.lit l s k = Some r -> exists rest, s = l ++ rest /\ k rest = Some r.
Proof.
  revert s; induction l as [|a l IH]; intros s H; simpl in H.
  - exists s; split; [reflexivity|exact H].
  - destruct s as [|b s]; [discriminate|].
    destruct (Ascii.eqb a b) eqn:E; [|discriminate].
    apply Ascii.eqb_eq in E; subst b.
    destruct (IH s H) as (rest & -> & Hk).
    exists rest; split; [reflexivity|exact Hk].
Qed.

Lemma lit_complete {R} (l rest : string) (k : string -> option R) :
  Re.lit l (l ++ rest) k = k rest.
Proof.
  induction l as [|a l IH]; simpl; [reflexivity|].
  rewrite Ascii.eqb_refl; exact IH.
Qed.

Lemma star_sound {R} (p : ascii -> bool) (s : string) :
  forall (acc : string) (k : string -> string -> option R) (r : R),
    Re.star p acc s k = Some r ->
    exists run rest, s = run ++ rest /\ all p run = true
                     /\ k (Re.rev_append run acc) rest = Some r.
Proof.
  induction s as [|c s IH]; intros acc k r H; simpl in H.
  - exists "", ""; repeat split; exact H.
  - destruct (p c) eqn:Hp.
    + destruct (Re.star p (String c acc) s k) as [r'|] eqn:E.
      * injection H as <-.
        destruct (IH _ _ _ E) as (run & rest & -> & Hall & Hk).
        exists (String c run), rest; simpl; rewrite Hp, Hall.
        repeat split; exact Hk.
      * exists "", (String c s); repeat split; exact H.
    + exists "", (String c s); repeat split; exact H.
Qed.

Lemma star_complete {R} (p : ascii -> bool) (run : string) :
  forall (acc rest : string) (k : string -> string -> option R),
    all p run = true ->
    k (Re.rev_append run acc) rest <> None ->
    Re.star p acc (run ++ rest) k <> None.
Proof.
  induction run as [|c run IH]; intros acc rest k Hall Hk; simpl in *.
  - destruct rest as [|c rest]; simpl; [exact Hk|].
    destruct (p c); [|exact Hk].
    destruct (Re.star p (String c acc) rest k); [discriminate|exact Hk].
  - apply andb_prop in Hall as [Hp Hall]; rewrite Hp.
    specialize (IH (String c acc) rest k Hall Hk).
    destruct (Re.star p (String c acc) (run ++ rest) k);
      [discriminate|contradiction].
Qed.

Lemma rev_append_rev_append (a b c : string) :
  Re.rev_append (Re.rev_append a b) c = Re.rev_append b (a ++ c).
Proof.
  revert b c; induction a as [|x a IH]; intros b c; simpl; [reflexivity|].
  rewrite IH; reflexivity.
Qed.

Lemma append_empty_r (s : string) : s ++ "" = s.
Proof. induction s as [|c s IH]; simpl; [|rewrite IH]; reflexivity. Qed.

Lemma group_of_run (g : string) : Re.group (Re.rev_append g "") = g.
Proof.
  unfold Re.group; rewrite rev_append_rev_append; simpl; apply append_empty_r.
Qed.

Lemma plus_sound {R} (p : ascii -> bool) (s : string)
    (k : string -> string -> option R) (r : R) :
  Re.plus p s k = Some r ->
  exists g rest, s = g ++ rest /\ g <> "" /\ all p g = true
                 /\ k (Re.rev_append g "") rest = Some r.
Proof.
  unfold Re.plus; intros H.
  destruct s as [|c s]; [discriminate|].
  destruct (p c) eqn:Hp; [|discriminate].
  destruct (star_sound p s _ k r H) as (run & rest & -> & Hall & Hk).
  exists (String c run), rest; simpl; rewrite Hp, Hall.
  repeat split; [discriminate|exact Hk].
Qed.

Lemma plus_complete {R} (p : ascii -> bool) (g rest : string)
    (k : string -> string -> option R) :
  g <> "" -> all p g = true ->
  k (Re.rev_append g "") rest <> None ->
  Re.plus p (g ++ rest) k <> None.
Proof.
  intros Hg Hall Hk.
  destruct g as [|c g]; [contradiction|].
  simpl in *; apply andb_prop in Hall as [Hp Hall]; rewrite Hp.
  apply star_complete; assumption.
Qed.

Lemma all_impl (p q : ascii -> bool) (s : string) :
  (forall c, p c = true -> q c = true) -> all p s = true -> all q s = true.
Proof.
  intros H; induction s as [|c s IH]; simpl; [reflexivity|].
  intros Hs; apply andb_prop in Hs as [Hc Hs].
  rewrite (H c Hc), (IH Hs); reflexivity.
Qed.

Lemma word_or_digit (c : ascii) :
  (Re.word c || Re.digit c)%bool = Re.word c.
Proof.
  unfold Re.word; destruct (Re.digit c);
    [reflexivity|rewrite orb_false_r; reflexivity].
Qed.

(** X3: the pattern matches a Location exactly when the Location has the
    three keys in order, each followed by a non-empty group of word
    characters (digits for the last), with no newline before the last
    group; the groups it yields are groups of such a reading. *)
Theorem match_token_reads_token_fragment :
  forall s : string,
    (forall g1 g2 g3,
        Re.match_token s = Some (g1, g2, g3) -> token_fragment s g1 g2 g3)
    /\ (forall g1 g2 g3,
          token_fragment s g1 g2 g3 -> Re.match_token s <> None).
Proof.
  intros s; split.
  - intros G1 G2 G3 H; unfold Re.match_token in H.
    apply star_sound in H as (a & s1 & -> & Ha & H).
    apply lit_sound in H as (s2 & -> & H).
    apply plus_sound in H as (g1 & s3 & -> & Hg1 & Hw1 & H).
    apply star_sound in H as (b & s4 & -> & Hb & H).
    apply lit_sound in H as (s5 & -> & H).
    apply plus_sound in H as (g2 & s6 & -> & Hg2 & Hw2 & H).
    apply star_sound in H as (c & s7 & -> & Hc & H).
    apply lit_sound in H as (s8 & -> & H).
    apply plus_sound in H as (g3 & s9 & -> & Hg3 & Hw3 & H).
    apply star_sound in H as (d & s10 & -> & _ & H).
    rewrite !group_of_run in H; injection H as <- <- <-.
    exists a, b, c, (d ++ s10).
    repeat split; try assumption.
    apply (all_impl _ _ _ (fun ch Hch => eq_trans (eq_sym (word_or_digit ch)) Hch) Hw1).
  - intros g1 g2 g3 (a & b & c & d & -> & Ha & Hb & Hc
                     & Hg1 & Hw1 & Hg2 & Hw2 & Hg3 & Hw3).
    unfold Re.match_token.
    apply star_complete; [exact Ha|]; rewrite lit_complete.
    apply plus_complete;
      [exact Hg1
      |apply (all_impl Re.word); [intros ch Hch; rewrite word_or_digit; exact Hch|exact Hw1]
      |].
    apply star_complete; [exact Hb|]; rewrite lit_complete.
    apply plus_complete; [exact Hg2|exact Hw2|].
    apply star_complete; [exact Hc|]; rewrite lit_complete.
    apply plus_complete; [exact Hg3|exact Hw3|].
    apply (star_complete Re.dot "" _ d); [reflexivity|discriminate].
Qed.

(** ** A login that succeeds *)

Lemma int_of_digits_nonneg (g : string) :
  all Re.digit g = true -> forall acc, 0 <= acc -> 0 <= Re.int_of_digits acc g.
Proof.
  induction g as [|c g IH]; intros Hall acc Hacc; [exact Hacc|].
  cbn [all] in Hall; cbn [Re.int_of_digits].
  apply andb_prop in Hall as [Hc Hall].
  apply IH; [exact Hall|].
  unfold Re.digit, Re.between in Hc.
  apply andb_prop in Hc as [Hlo _]; apply N.leb_le in Hlo.
  lia.
Qed.

(** The third group of a match is a string of digits. *)
Lemma token_groups_of_match (s g1 g2 g3 : string) :
  Re.match_token s = Some (g1, g2, g3) -> all Re.digit g3 = true.
Proof.
  intros H; unfold Re.match_token in H.
  apply star_sound in H as (a & s1 & -> & Ha & H).
  apply lit_sound in H as (s2 & -> & H).
  apply plus_sound in H as (h1 & s3 & -> & Hg1 & Hw1 & H).
  apply star_sound in H as (b & s4 & -> & Hb & H).
  apply lit_sound in H as (s5 & -> & H).
  apply plus_sound in H as (h2 & s6 & -> & Hg2 & Hw2 & H).
  apply star_sound in H as (c & s7 & -> & Hc & H).
  apply lit_sound in H as (s8 & -> & H).
  apply plus_sound in H as (h3 & s9 & -> & Hg3 & Hw3 & H).
  apply star_sound in H as (d & s10 & -> & _ & H).
  rewrite !group_of_run in H; injection H as <- <- <-.
  exact Hw3.
Qed.

(** The instance a login leaves when the pattern matched and the expiry
    formatted. *)
Lemma generate_credentials_matched (s : Self) (w : World) (x : Exchange)
    (rest : list Exchange) (r : Response) (my_payload g1 g2 g3 : string) :
  pending w = x :: rest ->
  answer x = Reply r ->
  header "Location" (headers r) = Some my_payload ->
  contains "error=access_denied" my_payload = false ->
  Re.match_token my_payload = Some (g1, g2, g3) ->
  generate_credentials s w
  = (let expires := int_of_float (clock w + elapsed x)%Q + Re.int_of_digits 0 g3 in
     assign (set_token_expires expires) ;;
     date_time <- lift (strftime_localtime expires) ;;
     assign (set_token_expires_date_time (PStr date_time)) ;;
     assign (set_is_valid_session true))
      (set_accesstoken (Some g1) s) (answered (login_request s) x rest w).
Proof.
  intros Hp Ha Hloc Hdenied Hmatch.
  rewrite generate_credentials_unfold.
  rewrite (run_bind _ _ _ _ _ _ _ (send_reply _ x rest r s w Hp Ha)).
  unfold after_redirect; rewrite Hloc.
  erewrite run_bind by reflexivity.
  rewrite Hdenied, Hmatch.
  do 2 (erewrite run_bind by reflexivity).
  reflexivity.
Qed.

(** X4: a login answered by a Location without the access-denied marker
    that the pattern matches stores the first group as the token and
    the time of the answer, truncated, plus the third group as the
    expiry, which is therefore never before that time.  It marks the
    session valid when the expiry formats as a local time; when that
    raises, the exception leaves the login with token and expiry stored
    and the validity as it was. *)
Theorem generate_credentials_stores_token :
  forall (s : Self) (w : World) (x : Exchange) (rest : list Exchange)
         (r : Response) (my_payload g1 g2 g3 : string),
    pending w = x :: rest ->
    answer x = Reply r ->
    header "Location" (headers r) = Some my_payload ->
    contains "error=access_denied" my_payload = false ->
    Re.match_token my_payload = Some (g1, g2, g3) ->
    let run := generate_credentials s w in
    let now := int_of_float (clock w + elapsed x)%Q in
    accesstoken (final run) = Some g1
    /\ token_expires (final run) = now + Re.int_of_digits 0 g3
    /\ now <= token_expires (final run)
    /\ (forall date_time,
          strftime_localtime (now + Re.int_of_digits 0 g3) = inr date_time ->
          result run = Ret tt
          /\ is_valid_session (final run) = true
          /\ token_expires_date_time (final run) = PStr date_time)
    /\ (forall e,
          strftime_localtime (now + Re.int_of_digits 0 g3) = inl e ->
          result run = Raise e
          /\ is_valid_session (final run) = is_valid_session s).
Proof.
  intros s w x rest r my_payload g1 g2 g3 Hp Ha Hloc Hdenied Hmatch run now.
  pose proof (generate_credentials_matched s w x rest r my_payload g1 g2 g3
                Hp Ha Hloc Hdenied Hmatch) as E.
  fold run in E; cbv zeta in E; fold now in E.
  erewrite run_bind in E by reflexivity.
  assert (Hdigits : 0 <= Re.int_of_digits 0 g3).
  { apply int_of_digits_nonneg;
      [exact (token_groups_of_match my_payload g1 g2 g3 Hmatch)|lia]. }
  destruct (strftime_localtime (now + Re.int_of_digits 0 g3))
    as [e|date_time] eqn:Hfmt.
  - erewrite run_bind_raise in E by reflexivity.
    rewrite E; unfold result, final; cbn [fst snd accesstoken token_expires
      is_valid_session set_token_expires set_accesstoken].
    split; [reflexivity|split; [reflexivity|split; [lia|split]]].
    + intros date_time Hd; discriminate Hd.
    + intros e' He'; injection He' as <-; split; reflexivity.
  - do 2 (erewrite run_bind in E by reflexivity).
    rewrite E; unfold assign, result, final; cbn [fst snd accesstoken token_expires
      is_valid_session token_expires_date_time set_is_valid_session
      set_token_expires_date_time set_token_expires set_accesstoken].
    split; [reflexivity|split; [reflexivity|split; [lia|split]]].
    + intros date_time' Hd; injection Hd as <-; repeat split.
    + intros e He; discriminate He.
Qed.

(** X5: after a login that succeeded, a token check in the world the
    login ended in sends nothing when the provider granted a lifetime of
    at least one second; with a lifetime of zero it logs in again at
    once. *)
Theorem token_valid_after_login :
  forall (s : Self) (w : World) (x : Exchange) (rest : list Exchange)
         (r : Response) (my_payload g1 g2 g3 date_time : string),
    pending w = x :: rest ->
    answer x = Reply r ->
    header "Location" (headers r) = Some my_payload ->
    contains "error=access_denied" my_payload = false ->
    Re.match_token my_payload = Some (g1, g2, g3) ->
    strftime_localtime
      (int_of_float (clock w + elapsed x)%Q + Re.int_of_digits 0 g3)
    = inr date_time ->
    let run := generate_credentials s w in
    (0 < Re.int_of_digits 0 g3 ->
       token_valid (final run) (world run) = (Ret tt, final run, world run))
    /\ (Re.int_of_digits 0 g3 = 0 ->
          token_valid (final run) (world run)
          = generate_credentials (final run) (world run)).
Proof.
  intros s w x rest r my_payload g1 g2 g3 date_time
         Hp Ha Hloc Hdenied Hmatch Hfmt run.
  pose proof (generate_credentials_matched s w x rest r my_payload g1 g2 g3
                Hp Ha Hloc Hdenied Hmatch) as E.
  fold run in E; cbv zeta in E.
  erewrite run_bind in E by reflexivity.
  rewrite Hfmt in E.
  do 2 (erewrite run_bind in E by reflexivity).
  rewrite E; unfold assign, final, world; cbn [fst snd].
  unfold token_valid.
  split; intros Hlife.
  - do 2 (erewrite run_bind by reflexivity).
    cbn [token_expires set_is_valid_session set_token_expires_date_time
         set_token_expires clock answered].
    destruct (_ >=? _) eqn:G; [|reflexivity].
    apply Z.geb_le in G; lia.
  - do 2 (erewrite run_bind by reflexivity).
    cbn [token_expires set_is_valid_session set_token_expires_date_time
         set_token_expires clock answered].
    rewrite Hlife, Z.add_0_r.
    destruct (_ >=? _) eqn:G; [reflexivity|].
    rewrite Z.geb_leb in G; apply Z.leb_gt in G; lia.
Qed.

(** ** Data requests *)

Lemma bearer_none (s : Self) (w : World) :
  accesstoken s = None -> bearer s w = (Raise TypeError, s, w).
Proof. intros H; unfold bearer, bind, self; rewrite H; reflexivity. Qed.

Lemma request_car_data_without_token data_type sub vin (s : Self) (w : World) :
  accesstoken s = None ->
  request_car_data data_type sub vin s w = (Raise TypeError, s, w).
Proof.
  intros H; unfold request_car_data.
  rewrite (run_bind_raise _ _ _ _ _ _ _ (bearer_none s w H)); reflexivity.
Qed.

(** X6: a constructor whose login the provider denies returns normally
    after that one request, with the session invalid, no token and no
    cars.  On the instance it leaves, every data request raises a
    TypeError at once: nothing is sent and no login is tried. *)
Theorem init_denied_then_requests_raise :
  forall (username password : pyval) (url : option string) (requested : Z)
         (w : World) (x : Exchange) (rest : list Exchange) (r : Response)
         (my_payload : string),
    pending w = x :: rest ->
    answer x = Reply r ->
    header "Location" (headers r) = Some my_payload ->
    contains "error=access_denied" my_payload = true ->
    let run := __init__ username password url requested w in
    result run = Ret tt
    /\ is_valid_session (final run) = false
    /\ accesstoken (final run) = None
    /\ cars (final run) = PList []
    /\ trace (world run) = (trace w ++ [Sent (login_request (final run))])%list
    /\ (forall data_type sub_data_type vin w2,
          request_car_data data_type sub_data_type vin (final run) w2
          = (Raise TypeError, final run, w2))
    /\ (forall w2, get_cars (final run) w2 = (Raise TypeError, final run, w2)).
Proof.
  intros username password url requested w x rest r my_payload
         Hp Ha Hloc Hdenied run.
  assert (E : exists s0,
             run = (Ret tt, set_is_valid_session false s0,
                    answered (login_request s0) x rest w)
             /\ accesstoken s0 = None /\ cars s0 = PList []).
  { unfold run, __init__.
    destruct (match url with
              | Some u => if String.prefix "https://" u
                          then (u ++ "/api/vehicle", u ++ "/api/me")
                          else ("https://" ++ u ++ "/api/vehicle",
                                "https://" ++ u ++ "/api/me")
              | None => _ end) as [vehicle me].
    eexists; split.
    - erewrite run_bind
        by (rewrite generate_credentials_unfold;
            rewrite (run_bind _ _ _ _ _ _ _ (send_reply _ x rest r _ w Hp Ha));
            unfold after_redirect; rewrite Hloc;
            erewrite run_bind by reflexivity;
            rewrite Hdenied; reflexivity).
      reflexivity.
    - split; reflexivity. }
  destruct E as (s0 & E & Htok & Hcars).
  rewrite E; unfold result, final, world; cbn [fst snd].
  split; [reflexivity|].
  split; [reflexivity|].
  split; [exact Htok|].
  split; [exact Hcars|].
  split; [reflexivity|].
  split.
  - intros data_type sub vin w2.
    apply request_car_data_without_token; exact Htok.
  - intros w2; unfold get_cars.
    erewrite run_bind_raise
      by (apply request_car_data_without_token; exact Htok).
    reflexivity.
Qed.

(** The run of a data request whose token check is through and whose
    request is answered. *)
Lemma request_car_data_answered data_type sub vin (token : string)
    (s s1 : Self) (w w1 : World) (x : Exchange) (rest : list Exchange)
    (r : Response) :
  accesstoken s = Some token ->
  token_valid s w = (Ret tt, s1, w1) ->
  pending w1 = x :: rest ->
  answer x = Reply r ->
  request_car_data data_type sub vin s w
  = decoded data_type sub r (with_vin vin s1)
      (answered (data_request token (data_url data_type (with_vin vin s1)))
         x rest w1).
Proof.
  intros Htok Htv Hp Ha.
  unfold request_car_data.
  rewrite (run_bind _ _ _ _ _ _ _ (bearer_some s w token Htok)).
  rewrite (run_bind _ _ _ _ _ _ _ Htv).
  assert (Hvin : (match vin with
                  | PNone => ret tt
                  | _ => assign (set_bmw_vin vin)
                  end) s1 w1 = (Ret tt, with_vin vin s1, w1))
    by (destruct vin; reflexivity).
  rewrite (run_bind _ _ _ _ _ _ _ Hvin).
  erewrite run_bind by reflexivity.
  unfold requests_get, timeout_not_passed.
  erewrite run_bind
    by (apply (send_reply _ x rest r); [exact Hp|exact Ha]).
  reflexivity.
Qed.

Lemma decoded_inert data_type sub r : keeps (fun s => s) (decoded data_type sub r).
Proof. unfold decoded; frame. Qed.

Lemma decoded_quiet data_type sub r : quiet (decoded data_type sub r).
Proof. apply json_subscript_quiet. Qed.

(** X7: with the token check through and the request answered,
    [get_car_data] sends one GET for
    [<bmw_url>/dynamic/v1/<vin>?offset=<utc_offset_min>] and notes the
    VIN in [bmw_vin].  A status other than 200 comes back as an int; with
    200, a body that is not JSON raises ValueError, a JSON value that is
    no dict raises TypeError, a dict without attributesMap raises
    KeyError, and otherwise the attributesMap member is returned as it
    is. *)
Theorem get_car_data_decodes_attributes_map :
  forall (vin : string) (token : string) (s s1 : Self) (w w1 : World)
         (x : Exchange) (rest : list Exchange) (r : Response),
    accesstoken s = Some token ->
    token_valid s w = (Ret tt, s1, w1) ->
    pending w1 = x :: rest ->
    answer x = Reply r ->
    let run := get_car_data (PStr vin) s w in
    let url := bmw_url s1 ++ "/dynamic/v1/" ++ vin ++ "?offset="
                 ++ str_of_int (utc_offset_min s1) in
    trace (world run) = (trace w1 ++ [Sent (data_request token url)])%list
    /\ final run = set_bmw_vin (PStr vin) s1
    /\ (status_code r <> 200 -> result run = Ret (PInt (status_code r)))
    /\ (status_code r = 200 -> json r = None -> result run = Raise ValueError)
    /\ (forall body,
          status_code r = 200 -> json r = Some body ->
          result run
          = match body with
            | PDict d =>
                match dict_get "attributesMap" d with
                | Some attributes => Ret attributes
                | None => Raise KeyError
                end
            | _ => Raise TypeError
            end).
Proof.
  intros vin token s s1 w w1 x rest r Htok Htv Hp Ha run url.
  pose proof (request_car_data_answered "dynamic" (Some "attributesMap")
                (PStr vin) token s s1 w w1 x rest r Htok Htv Hp Ha) as E.
  fold (get_car_data (PStr vin)) in E; fold run in E.
  split; [rewrite E, decoded_quiet; reflexivity|].
  split; [rewrite E; apply (decoded_inert "dynamic" (Some "attributesMap") r)|].
  rewrite E; unfold decoded.
  split; [|split].
  - intros Hcode; apply Z.eqb_neq in Hcode; rewrite Hcode; reflexivity.
  - intros Hcode Hjson; apply Z.eqb_eq in Hcode; rewrite Hcode, Hjson.
    reflexivity.
  - intros body Hcode Hjson; apply Z.eqb_eq in Hcode; rewrite Hcode, Hjson.
    erewrite run_bind by reflexivity.
    destruct body as [| | | | |l|d]; try reflexivity.
    cbn [String.eqb orb getitem].
    change (String.eqb "dynamic" "dynamic") with true; cbn [orb].
    unfold getitem.
    destruct (dict_get "attributesMap" d); reflexivity.
Qed.

(** ** Navigation and efficiency *)

Lemma bind_tail_quiet {A B} (c : M A) (k : A -> M B) (s : Self) (w : World) :
  (forall a, quiet (k a)) -> world (bind c k s w) = world (c s w).
Proof.
  intros Hk; unfold bind.
  destruct (c s w) as [[[a|e] s'] w']; [apply Hk|reflexivity].
Qed.

Lemma bind_tail_inert {A B} (c : M A) (k : A -> M B) (s : Self) (w : World) :
  (forall a, keeps (fun s => s) (k a)) -> final (bind c k s w) = final (c s w).
Proof.
  intros Hk; unfold bind.
  destruct (c s w) as [[[a|e] s'] w']; [apply (Hk a)|reflexivity].
Qed.

Lemma keys_pass_quiet (m : pyval) : quiet (keys_pass m).
Proof.
  unfold keys_pass.
  destruct m as [| | | |t|l|d]; try (intros s w; reflexivity).
  - destruct t; intros s w; reflexivity.
  - destruct l; [intros s w; reflexivity|].
    destruct (keys_pass_of_list _); intros s w; reflexivity.
Qed.

Lemma keys_pass_inert (m : pyval) : keeps (fun s => s) (keys_pass m).
Proof.
  unfold keys_pass.
  destruct m as [| | | |t|l|d]; try (intros s w; reflexivity).
  - destruct t; intros s w; reflexivity.
  - destruct l; [intros s w; reflexivity|].
    destruct (keys_pass_of_list _); intros s w; reflexivity.
Qed.

(** What follows the request in the methods that log with [printall] *)
Lemma logging_tail_quiet (m : pyval) :
  quiet (s <- self ;;
         (if printall s then keys_pass m else ret tt) ;;
         ret m).
Proof.
  apply quiet_bind; [intros s w; reflexivity|intros s0].
  apply quiet_bind; [|intros _ s w; reflexivity].
  destruct (printall s0); [apply keys_pass_quiet|intros s w; reflexivity].
Qed.

Lemma logging_tail_inert (m : pyval) :
  keeps (fun s => s)
        (s <- self ;;
         (if printall s then keys_pass m else ret tt) ;;
         ret m).
Proof.
  apply keeps_bind; [frame|intros s0].
  apply keeps_bind; [|intros _; frame].
  destruct (printall s0); [apply keys_pass_inert|frame].
Qed.

Lemma login_leaves_bmw_vin : untouched_by_login bmw_vin.
Proof. repeat split. Qed.

Lemma login_leaves_bmw_url : untouched_by_login bmw_url.
Proof. repeat split. Qed.

(** The request of the methods that pass their [vin] as [sub_data_type]:
    it names the VIN the instance holds. *)
Lemma request_for_held_vin (data_type : string) (sub : option string)
    (token : string) (s s1 : Self) (w w1 : World)
    (x : Exchange) (rest : list Exchange) (r : Response) :
  String.eqb data_type "dynamic" = false ->
  String.eqb data_type "get_cars" = false ->
  accesstoken s = Some token ->
  token_valid s w = (Ret tt, s1, w1) ->
  pending w1 = x :: rest ->
  answer x = Reply r ->
  let run :=
    (m <- request_car_data data_type sub PNone ;;
     s <- self ;;
     (if printall s then keys_pass m else ret tt) ;;
     ret m) s w in
  trace (world run)
  = (trace w1 ++ [Sent (data_request token
                          (bmw_url s ++ "/" ++ data_type ++ "/v1/"
                             ++ str (bmw_vin s)))])%list
  /\ bmw_vin (final run) = bmw_vin s.
Proof.
  intros Hd Hg Htok Htv Hp Ha run.
  pose proof (request_car_data_answered data_type sub PNone token
                s s1 w w1 x rest r Htok Htv Hp Ha) as E.
  pose proof (token_valid_keeps bmw_vin login_leaves_bmw_vin s w) as Kv.
  pose proof (token_valid_keeps bmw_url login_leaves_bmw_url s w) as Ku.
  rewrite Htv in Kv, Ku; unfold final in Kv, Ku; cbn [fst snd] in Kv, Ku.
  unfold run; split.
  - rewrite bind_tail_quiet by (intros m; apply logging_tail_quiet).
    rewrite E, decoded_quiet.
    unfold data_url; rewrite Hd, Hg.
    cbn [with_vin trace answered]; rewrite Kv, Ku; reflexivity.
  - rewrite bind_tail_inert by (intros m; apply logging_tail_inert).
    rewrite E, (decoded_inert data_type sub r _ _).
    exact Kv.
Qed.

(** X8: [get_car_navigation] and [get_car_efficiency] do not depend on
    the [vin] they are given: it lands in the parameter [sub_data_type],
    which these data types never read.  With the token check through and
    the request answered, the one GET they send names the VIN held in
    [bmw_vin], the one the last data request noted, and leaves it as it
    is. *)
Theorem navigation_and_efficiency_ignore_vin :
  (forall vin vin' s w,
      get_car_navigation vin s w = get_car_navigation vin' s w
      /\ get_car_efficiency vin s w = get_car_efficiency vin' s w)
  /\ (forall (vin : pyval) (token : string) (s s1 : Self) (w w1 : World)
             (x : Exchange) (rest : list Exchange) (r : Response),
        accesstoken s = Some token ->
        token_valid s w = (Ret tt, s1, w1) ->
        pending w1 = x :: rest ->
        answer x = Reply r ->
        let held := str (bmw_vin s) in
        trace (world (get_car_navigation vin s w))
        = (trace w1 ++ [Sent (data_request token
                                (bmw_url s ++ "/navigation/v1/" ++ held))])%list
        /\ bmw_vin (final (get_car_navigation vin s w)) = bmw_vin s
        /\ trace (world (get_car_efficiency vin s w))
           = (trace w1 ++ [Sent (data_request token
                                   (bmw_url s ++ "/efficiency/v1/" ++ held))])%list
        /\ bmw_vin (final (get_car_efficiency vin s w)) = bmw_vin s).
Proof.
  split.
  - intros vin vin' s w; split; reflexivity.
  - intros vin token s s1 w w1 x rest r Htok Htv Hp Ha held.
    destruct (request_for_held_vin "navigation" (as_sub_data_type vin) token
                s s1 w w1 x rest r eq_refl eq_refl Htok Htv Hp Ha) as [N1 N2].
    destruct (request_for_held_vin "efficiency" (as_sub_data_type vin) token
                s s1 w w1 x rest r eq_refl eq_refl Htok Htv Hp Ha) as [E1 E2].
    repeat split; assumption.
Qed.

Lemma bearer_inv (s s' : Self) (w w' : World) (a : string) :
  bearer s w = (Ret a, s', w') -> s' = s /\ w' = w.
Proof.
  unfold bearer, bind, self.
  destruct (accesstoken s); intros H; [|discriminate].
  injection H as _ <- <-; split; reflexivity.
Qed.

(** A data request that returns has noted the [vin] it was given. *)
Lemma request_car_data_notes_vin data_type sub (vin a : pyval)
    (s s' : Self) (w w' : World) :
  vin <> PNone ->
  request_car_data data_type sub vin s w = (Ret a, s', w') ->
  bmw_vin s' = vin.
Proof.
  intros Hvin H; unfold request_car_data in H.
  apply bind_inv in H as (auth & s1 & w1 & Hb & H).
  apply bearer_inv in Hb as [-> ->].
  apply bind_inv in H as ([] & s2 & w2 & Htv & H).
  apply bind_inv in H as ([] & s3 & w3 & Hset & H).
  assert (Hs3 : s3 = set_bmw_vin vin s2).
  { destruct vin; try contradiction; injection Hset as <- _; reflexivity. }
  apply bind_inv in H as (s4 & s5 & w5 & Hself & H).
  injection Hself as <- <- <-.
  apply bind_inv in H as (r & s6 & w6 & Hsend & H).
  unfold requests_get in Hsend.
  match type of Hsend with
  | send ?rq _ _ = _ => pose proof (keeps_send (fun s => s) rq s3 w3) as K
  end.
  rewrite Hsend in K; unfold final in K; cbn [fst snd] in K; subst s6.
  pose proof (decoded_inert data_type sub r s3 w6) as K.
  unfold decoded in K; rewrite H in K; unfold final in K; cbn [fst snd] in K.
  subst s' s3; reflexivity.
Qed.

(** X9: the navigation asked for after a data request that returned is
    the navigation of the car of that data request, whatever [vin] the
    navigation is asked for. *)
Theorem navigation_follows_last_data_request :
  forall (fetched asked : pyval) (attributes : pyval) (token : string)
         (s s1 s2 : Self) (w w1 w2 : World)
         (x : Exchange) (rest : list Exchange) (r : Response),
    fetched <> PNone ->
    get_car_data fetched s w = (Ret attributes, s1, w1) ->
    accesstoken s1 = Some token ->
    token_valid s1 w1 = (Ret tt, s2, w2) ->
    pending w2 = x :: rest ->
    answer x = Reply r ->
    trace (world (get_car_navigation asked s1 w1))
    = (trace w2 ++ [Sent (data_request token
                            (bmw_url s1 ++ "/navigation/v1/" ++ str fetched))])%list.
Proof.
  intros fetched asked attributes token s s1 s2 w w1 w2 x rest r
         Hvin Hget Htok Htv Hp Ha.
  destruct (request_for_held_vin "navigation" (as_sub_data_type asked) token
              s1 s2 w1 w2 x rest r eq_refl eq_refl Htok Htv Hp Ha) as [N _].
  unfold get_car_data in Hget.
  rewrite (request_car_data_notes_vin _ _ _ _ _ _ _ _ Hvin Hget) in N.
  exact N.
Qed.

(** ** Snapshots *)

Lemma type_of_car_kinds (d : dict) (kind : string) :
  type_of_car d = inr kind ->
  kind = "electric" \/ kind = "hybrid" \/ kind = "fuel".
Proof.
  unfold type_of_car.
  destruct (dict_mem "charging_status" d).
  - destruct (dict_get "remaining_fuel" d) as [fuel|]; [|discriminate].
    destruct (eq_str fuel "0"); intros H; injection H as <-; auto.
  - intros H; injection H as <-; auto.
Qed.

Lemma type_of_car_error (d : dict) (e : exn) :
  type_of_car d = inl e ->
  e = KeyError /\ dict_mem "charging_status" d = true
  /\ dict_get "remaining_fuel" d = None.
Proof.
  unfold type_of_car.
  destruct (dict_mem "charging_status" d); [|discriminate].
  destruct (dict_get "remaining_fuel" d) as [fuel|]; [discriminate|].
  intros H; injection H as <-; repeat split.
Qed.

(** X10: the snapshot made of a fetched dict has the VIN under vin, the
    name under car_name and one of 'electric', 'hybrid', 'fuel' under
    type_of_car, and every other key of the fetched dict with the value
    it was fetched with.  Making it fails only with a KeyError, exactly
    for a dict with charging_status and without remaining_fuel: every
    such dict gives the KeyError, and every other dict a snapshot;
    anything fetched that is neither an int nor a dict gives a
    TypeError. *)
Theorem snapshot_contents :
  forall (bmw_vin : pyval) (car_name : string) (car_data : pyval),
    (forall snap,
        snapshot bmw_vin car_name car_data = inr snap ->
        exists d d' kind,
          car_data = PDict d /\ snap = PDict d'
          /\ dict_get "vin" d' = Some bmw_vin
          /\ dict_get "car_name" d' = Some (PStr car_name)
          /\ dict_get "type_of_car" d' = Some (PStr kind)
          /\ (kind = "electric" \/ kind = "hybrid" \/ kind = "fuel")
          /\ (forall k, k <> "vin" -> k <> "car_name" -> k <> "type_of_car" ->
                        dict_get k d' = dict_get k d))
    /\ (forall e,
          snapshot bmw_vin car_name car_data = inl e ->
          match car_data with
          | PDict d =>
              e = KeyError /\ dict_mem "charging_status" d = true
              /\ dict_get "remaining_fuel" d = None
          | _ => e = TypeError
          end)
    /\ (forall d,
          car_data = PDict d ->
          dict_mem "charging_status" d = true ->
          dict_get "remaining_fuel" d = None ->
          snapshot bmw_vin car_name car_data = inl KeyError)
    /\ (forall d,
          car_data = PDict d ->
          dict_mem "charging_status" d = false
          \/ dict_get "remaining_fuel" d <> None ->
          exists snap, snapshot bmw_vin car_name car_data = inr snap)
    /\ ((forall d, car_data <> PDict d) ->
        snapshot bmw_vin car_name car_data = inl TypeError).
Proof.
  intros bmw_vin car_name car_data.
  split; [|split; [|split; [|split]]]; cycle 2.
  - intros d -> Hc Hf.
    unfold snapshot; rewrite type_of_car_after_naming.
    unfold type_of_car; rewrite Hc, Hf; reflexivity.
  - intros d -> H.
    unfold snapshot; rewrite type_of_car_after_naming.
    unfold type_of_car.
    destruct (dict_mem "charging_status" d); [|eexists; reflexivity].
    destruct (dict_get "remaining_fuel" d) as [fuel|]; [eexists; reflexivity|].
    destruct H as [H|H]; [discriminate|contradiction H; reflexivity].
  - intros H.
    destruct car_data as [| | | | | |d]; try reflexivity.
    contradiction (H d); reflexivity.
  - intros snap H.
    destruct car_data as [| | | | | |d]; try discriminate.
    unfold snapshot in H; rewrite type_of_car_after_naming in H.
    destruct (type_of_car d) as [e|kind] eqn:Hk; [discriminate|].
    injection H as <-.
    exists d; eexists; exists kind.
    split; [reflexivity|split; [reflexivity|]].
    split; [rewrite !dict_get_set_other by discriminate;
            apply dict_get_set_same|].
    split; [rewrite dict_get_set_other by discriminate;
            apply dict_get_set_same|].
    split; [apply dict_get_set_same|].
    split; [exact (type_of_car_kinds d kind Hk)|].
    intros k H1 H2 H3.
    rewrite !dict_get_set_other by assumption; reflexivity.
  - intros e H.
    destruct car_data as [| | | | | |d];
      try (injection H as <-; reflexivity).
    unfold snapshot in H; rewrite type_of_car_after_naming in H.
    destruct (type_of_car d) as [e'|kind] eqn:Hk; [|discriminate].
    injection H as <-; exact (type_of_car_error d e' Hk).
Qed.

(** ** Cycles of [update] *)

Lemma update_gated (s : Self) (w : World) :
  (clock w - last_update_time s <= inject_Z (update_interval s))%Q ->
  update s w = (Ret None, set_is_updated false s, w).
Proof.
  intros H; unfold update, bind, time_time, self; simpl.
  rewrite (float_gt_false _ _ H); reflexivity.
Qed.

(** The run of [update] past the gate, up to its loop. *)
Lemma update_past_gate (s : Self) (w : World) (items : list pyval) :
  (inject_Z (update_interval s) < clock w - last_update_time s)%Q ->
  iter (cars s) = Some items ->
  update s w
  = (f <- update_cars items ;;
     match f with
     | Return_None => ret None
     | Next =>
         now <- time_time ;;
         assign (set_last_update_time now) ;;
         assign (set_is_updated true) ;;
         s <- self ;;
         l <- or_raise AttributeError (cars_data s) ;;
         ret (Some l)
     end) (set_cars_data (Some []) s) w.
Proof.
  intros Hgate Hitems; unfold update.
  do 2 (erewrite run_bind by reflexivity).
  rewrite (float_gt_true _ _ Hgate).
  do 2 (erewrite run_bind by reflexivity).
  cbn [cars set_cars_data]; rewrite Hitems.
  erewrite run_bind by reflexivity.
  reflexivity.
Qed.

Lemma update_double_gated (s : Self) (w : World) :
  Double.gt_int (Double.sub (clock w) (last_update_time s)) (update_interval s)
  = false ->
  update_double s w = (Ret None, set_is_updated false s, w).
Proof.
  intros H; unfold update_double, bind, time_time, self; simpl.
  rewrite H; reflexivity.
Qed.

(** The run of [update_double] past the gate, up to its loop. *)
Lemma update_double_past_gate (s : Self) (w : World) (items : list pyval) :
  Double.gt_int (Double.sub (clock w) (last_update_time s)) (update_interval s)
  = true ->
  iter (cars s) = Some items ->
  update_double s w = from_loop items (set_cars_data (Some []) s) w.
Proof.
  intros Hgate Hitems; unfold update_double.
  do 2 (erewrite run_bind by reflexivity).
  rewrite Hgate.
  do 2 (erewrite run_bind by reflexivity).
  cbn [cars set_cars_data]; rewrite Hitems.
  erewrite run_bind by reflexivity.
  reflexivity.
Qed.


Lemma snapshot_is_snapshot (bmw_vin : pyval) (car_name : string)
    (car_data snap : pyval) :
  snapshot bmw_vin car_name car_data = inr snap -> is_snapshot snap.
Proof.
  intros H.
  destruct car_data as [| | | | | |d]; try discriminate.
  unfold snapshot in H; rewrite type_of_car_after_naming in H.
  destruct (type_of_car d) as [e|kind] eqn:Hk; [discriminate|].
  injection H as <-.
  eexists; exists bmw_vin, car_name, kind.
  split; [reflexivity|].
  split; [rewrite !dict_get_set_other by discriminate; apply dict_get_set_same|].
  split; [rewrite dict_get_set_other by discriminate; apply dict_get_set_same|].
  split; [apply dict_get_set_same|exact (type_of_car_kinds d kind Hk)].
Qed.

Lemma update_car_appends_snapshot (car : pyval) (s s' : Self) (w w' : World) :
  update_car car s w = (Ret Next, s', w') ->
  exists l snap, cars_data s = Some l
                 /\ cars_data s' = Some (l ++ [snap])%list
                 /\ is_snapshot snap.
Proof.
  unfold update_car; intros H.
  apply bind_inv in H as (bmw_vin & s1 & w1 & H1 & H).
  apply lift_inv in H1 as (_ & -> & ->).
  apply bind_inv in H as (brand & s1 & w1 & H1 & H).
  apply lift_inv in H1 as (_ & -> & ->).
  apply bind_inv in H as (model_name & s1 & w1 & H1 & H).
  apply lift_inv in H1 as (_ & -> & ->).
  apply bind_inv in H as (car_data & s1 & w1 & Hget & H).
  pose proof (get_car_data_keeps cars_data bmw_vin fetch_leaves_cars_data s w) as K.
  rewrite Hget in K; unfold final in K; simpl in K.
  destruct (is_int car_data); [discriminate|].
  apply bind_inv in H as (snap & s2 & w2 & H1 & H).
  apply lift_inv in H1 as (Hsnap & -> & ->).
  apply bind_inv in H as ([] & s2 & w2 & Happ & H).
  injection H as <- <-.
  unfold cars_data_append in Happ.
  apply bind_inv in Happ as (s0 & s3 & w3 & Hs & Happ).
  injection Hs as <- <- <-.
  destruct (cars_data s1) as [l|] eqn:E; [|discriminate].
  injection Happ as <- <-.
  exists l, snap; split; [rewrite <- K; reflexivity|].
  split; [reflexivity|exact (snapshot_is_snapshot _ _ _ _ Hsnap)].
Qed.

Lemma update_cars_append_snapshots (items : list pyval) :
  forall (s s' : Self) (w w' : World) (l : list pyval),
    update_cars items s w = (Ret Next, s', w') ->
    cars_data s = Some l ->
    exists snaps, cars_data s' = Some (l ++ snaps)%list
                  /\ List.length snaps = List.length items
                  /\ Forall is_snapshot snaps.
Proof.
  induction items as [|car rest IH]; intros s s' w w' l H Hl.
  - injection H as <- <-.
    exists []; rewrite app_nil_r; repeat split; [exact Hl|constructor].
  - cbn [update_cars] in H.
    apply bind_inv in H as (f & s1 & w1 & Hcar & H).
    destruct f; [|discriminate].
    destruct (update_car_appends_snapshot car s s1 w w1 Hcar)
      as (l0 & snap & Hl0 & Hl1 & Hsnap).
    rewrite Hl in Hl0; injection Hl0 as <-.
    destruct (IH s1 s' w1 w' _ H Hl1) as (snaps & Hs & Hlen & Hall).
    exists (snap :: snaps); split; [|split].
    + rewrite Hs, <- app_assoc; reflexivity.
    + simpl; rewrite Hlen; reflexivity.
    + constructor; assumption.
Qed.

(** What a cycle that returned a list went through. *)
Lemma update_returned_list (s : Self) (w : World) (l : list pyval) :
  result (update s w) = Ret (Some l) ->
  exists items s1 w1,
    iter (cars s) = Some items
    /\ update_cars items (set_cars_data (Some []) s) w = (Ret Next, s1, w1)
    /\ cars_data s1 = Some l
    /\ update s w
       = (Ret (Some l),
          set_is_updated true (set_last_update_time (clock w1) s1), w1).
Proof.
  unfold update.
  do 2 (erewrite run_bind by reflexivity).
  destruct (float_gt _ _); [|discriminate].
  do 2 (erewrite run_bind by reflexivity).
  cbn [cars set_cars_data].
  destruct (iter (cars s)) as [items|]; [|discriminate].
  erewrite run_bind by reflexivity.
  destruct (update_cars items (set_cars_data (Some []) s) w)
    as [[[f|e] s1] w1] eqn:Hloop.
  2:{ rewrite (run_bind_raise _ _ _ _ _ _ _ Hloop); discriminate. }
  rewrite (run_bind _ _ _ _ _ _ _ Hloop).
  destruct f; [|discriminate].
  do 4 (erewrite run_bind by reflexivity).
  cbn [cars_data set_is_updated set_last_update_time].
  destruct (cars_data s1) as [l1|] eqn:Hl; [|discriminate].
  erewrite run_bind by reflexivity.
  unfold result; cbn [fst ret].
  intros H; injection H as <-.
  exists items, s1, w1; repeat split; assumption.
Qed.

(** X13: a list that [update] returns is the list it stored in
    [cars_data], with one snapshot for each car of the car list; the
    instance is then marked updated and the time of the last update is
    the time at the end of the cycle. *)
Theorem update_returns_stored_snapshots :
  forall (s : Self) (w : World) (l : list pyval),
    result (update s w) = Ret (Some l) ->
    cars_data (final (update s w)) = Some l
    /\ Forall is_snapshot l
    /\ (exists items, iter (cars s) = Some items
                      /\ List.length l = List.length items)
    /\ is_updated (final (update s w)) = true
    /\ last_update_time (final (update s w)) = clock (world (update s w)).
Proof.
  intros s w l H.
  destruct (update_returned_list s w l H)
    as (items & s1 & w1 & Hitems & Hloop & Hl & E).
  destruct (update_cars_append_snapshots items _ s1 w w1 [] Hloop eq_refl)
    as (snaps & Hs & Hlen & Hall).
  rewrite Hl in Hs; injection Hs as ->.
  rewrite E; unfold final, world; cbn [fst snd].
  split; [exact Hl|].
  split; [exact Hall|].
  split; [exists items; split; [exact Hitems|exact Hlen]|].
  split; reflexivity.
Qed.

(** X14: a second [update], called no later than [update_interval]
    after the end of a cycle that returned a list, returns None and sends
    nothing; it keeps the stored list but sets [is_updated] back to
    False. *)
Theorem update_again_within_interval :
  forall (s : Self) (w w2 : World) (l : list pyval),
    result (update s w) = Ret (Some l) ->
    (clock w2 - clock (world (update s w)) <= inject_Z (update_interval s))%Q ->
    let again := update (final (update s w)) w2 in
    result again = Ret None
    /\ world again = w2
    /\ cars_data (final again) = Some l
    /\ is_updated (final (update s w)) = true
    /\ is_updated (final again) = false.
Proof.
  intros s w w2 l H Hsoon again.
  destruct (update_returned_list s w l H)
    as (items & s1 & w1 & Hitems & Hloop & Hl & E).
  pose proof (update_keeps_interval s w) as Ki.
  assert (G : update (final (update s w)) w2
              = (Ret None, set_is_updated false (final (update s w)), w2)).
  { apply update_gated.
    rewrite Ki.
    rewrite E in *; unfold final, world in *; cbn [fst snd] in *.
    exact Hsoon. }
  unfold again; rewrite G.
  rewrite E; unfold result, final, world; cbn [fst snd].
  repeat split; exact Hl.
Qed.

(** ** Commands *)

Lemma lookup_services (service : string) :
  lookup service service_codes = None <-> ~ In service services.
Proof.
  unfold service_codes, services; cbn [lookup In].
  split.
  - intros H [E|[E|[E|[E|[E|[]]]]]]; subst service; discriminate H.
  - intros H.
    repeat match goal with
           | |- context [String.eqb service ?k] =>
               destruct (String.eqb_spec service k) as [E|_];
               [exfalso; apply H; subst service; simpl; tauto|]
           end.
    reflexivity.
Qed.

(** X16: once the token check is through, [execute_service] raises a
    TypeError when the instance still has no token, and a KeyError when
    the service is none of climate, lock, unlock, light and horn; in both
    cases no command is sent. *)
Theorem execute_service_rejects_before_sending :
  forall (service : string) (vin : pyval) (s s1 : Self) (w w1 : World),
    token_valid s w = (Ret tt, s1, w1) ->
    (accesstoken s1 = None ->
       execute_service service vin s w = (Raise TypeError, s1, w1))
    /\ (accesstoken s1 <> None -> ~ In service services ->
          execute_service service vin s w = (Raise KeyError, s1, w1)).
Proof.
  intros service vin s s1 w w1 Htv; split.
  - intros Htok; unfold execute_service.
    rewrite (run_bind _ _ _ _ _ _ _ Htv).
    rewrite (run_bind_raise _ _ _ _ _ _ _ (bearer_none s1 w1 Htok)).
    reflexivity.
  - intros Htok Hservice; unfold execute_service.
    destruct (accesstoken s1) as [token|] eqn:E; [|contradiction].
    rewrite (run_bind _ _ _ _ _ _ _ Htv).
    rewrite (run_bind _ _ _ _ _ _ _ (bearer_some s1 w1 token E)).
    rewrite (proj2 (lookup_services service) Hservice).
    reflexivity.
Qed.

Lemma consumes_quiet {A} (c : M A) : quiet c -> consumes c.
Proof. intros H s w; exists []; rewrite H; reflexivity. Qed.

Lemma consumes_bind {A B} (c : M A) (k : A -> M B) :
  consumes c -> (forall a, consumes (k a)) -> consumes (bind c k).
Proof.
  intros Hc Hk s w; unfold bind.
  destruct (Hc s w) as (used & Hu).
  destruct (c s w) as [[[a|e] s'] w']; unfold world in *; cbn [snd] in *.
  - destruct (Hk a s' w') as (used' & Hu').
    exists (used ++ used')%list.
    unfold world in Hu'; rewrite Hu, Hu', app_assoc; reflexivity.
  - exists used; exact Hu.
Qed.

Lemma consumes_send (rq : Request) : consumes (send rq).
Proof.
  intros s w; unfold send.
  destruct (pending w) as [|x rest].
  - exists []; reflexivity.
  - exists [x]; destruct (answer x); reflexivity.
Qed.

Lemma token_valid_consumes : consumes token_valid.
Proof.
  unfold token_valid.
  apply consumes_bind; [apply consumes_quiet; intros s w; reflexivity|intros t].
  apply consumes_bind; [apply consumes_quiet; intros s w; reflexivity|intros s0].
  destruct (_ >=? _); [|apply consumes_quiet; intros s w; reflexivity].
  intros s w; rewrite generate_credentials_unfold.
  apply (consumes_bind (send (login_request s)) after_redirect).
  - apply consumes_send.
  - intros r; apply consumes_quiet, after_redirect_quiet.
Qed.

Lemma is_executed_true (st : option string) :
  is_executed st = true -> st = Some "EXECUTED".
Proof.
  destruct st as [t|]; simpl; [|discriminate].
  intros H; apply String.eqb_eq in H; subst t; reflexivity.
Qed.

(** A poll loop that ends on EXECUTED read it in the last answer it
    took. *)
Lemma poll_read_executed_last (n : nat) (url_check : string)
    (hd : list (string * string)) :
  forall (st0 st : option string) (s s' : Self) (w w' : World),
    poll n url_check hd st0 s w = (Ret st, s', w') ->
    is_executed st0 = false ->
    is_executed st = true ->
    exists before x,
      pending w = (before ++ x :: pending w')%list
      /\ poll_status x = Some (Some "EXECUTED").
Proof.
  induction n as [|n IH]; intros st0 st s s' w w' H H0 Hst.
  - injection H as <- _ _; rewrite H0 in Hst; discriminate.
  - cbn [poll] in H.
    apply bind_inv in H as ([] & s1 & w1 & Hsleep & H).
    injection Hsleep as <- <-.
    apply bind_inv in H as (r & s2 & w2 & Hsend & H).
    unfold requests_get, send in Hsend; cbn [pending] in Hsend.
    destruct (pending w) as [|x rest] eqn:Hp; [discriminate|].
    destruct (answer x) as [|r'] eqn:Ha; [discriminate|].
    injection Hsend as <- <- <-.
    apply bind_inv in H as (root_data & s3 & w3 & Hroot & H).
    destruct (tree r') as [root|] eqn:Ht; [|discriminate].
    injection Hroot as <- <- <-.
    apply bind_inv in H as (element & s4 & w4 & Hel & H).
    destruct (xml_find "remoteServiceStatus" root) as [el|] eqn:Hf;
      [|discriminate].
    injection Hel as <- <- <-.
    destruct (is_executed (xml_text el)) eqn:He.
    + injection H as <- _ <-.
      exists [], x; split; [reflexivity|].
      unfold poll_status; rewrite Ha, Ht, Hf.
      rewrite (is_executed_true _ He); reflexivity.
    + destruct (IH _ _ _ _ _ _ H He Hst) as (before & x' & Hrest & Hx').
      cbn [pending] in Hrest.
      exists (x :: before), x'; split; [rewrite Hrest; reflexivity|exact Hx'].
Qed.

(** X17: [execute_service] returns True only when one of the answers
    the transport had pending carried a status field reading EXECUTED;
    that answer is one the transport gave in the call, the last one. *)
Theorem execute_service_true_only_if_executed :
  forall (service : string) (vin : pyval) (s : Self) (w : World),
    result (execute_service service vin s w) = Ret true ->
    (exists x, In x (pending w) /\ poll_status x = Some (Some "EXECUTED"))
    /\ (exists given x,
          pending w
          = (given ++ x :: pending (world (execute_service service vin s w)))%list
          /\ poll_status x = Some (Some "EXECUTED")).
Proof.
  intros service vin s w H.
  destruct (execute_service service vin s w) as [[res s'] w'] eqn:E.
  unfold result in H; cbn [fst] in H; subst res.
  unfold world; cbn [snd].
  unfold execute_service in E.
  apply bind_inv in E as ([] & s1 & w1 & Htv & E).
  destruct (token_valid_consumes s w) as (used & Hused).
  rewrite Htv in Hused; unfold world in Hused; cbn [snd] in Hused.
  apply bind_inv in E as (auth & s2 & w2 & Hb & E).
  apply bearer_inv in Hb as [-> ->].
  apply bind_inv in E as (command & s2 & w2 & Hcmd & E).
  destruct (lookup service service_codes); [|discriminate].
  injection Hcmd as _ <- <-.
  apply bind_inv in E as (held & s2 & w2 & Hself & E).
  injection Hself as _ <- <-.
  apply bind_inv in E as (r & s2 & w2 & Hsend & E).
  unfold requests_post, send in Hsend.
  destruct (pending w1) as [|x rest] eqn:Hp; [discriminate|].
  destruct (answer x) as [|r'] eqn:Ha; [discriminate|].
  injection Hsend as <- <- <-.
  destruct (negb (status_code r' =? 200)); [discriminate|].
  apply bind_inv in E as (st & s3 & w3 & Hpoll & E).
  destruct (is_executed st) eqn:Hst; [|discriminate].
  injection E as _ <-.
  destruct (poll_read_executed_last _ _ _ _ _ _ _ _ _ Hpoll eq_refl Hst)
    as (before & x' & Hrest & Hx').
  cbn [pending] in Hrest.
  split.
  - exists x'; split; [|exact Hx'].
    rewrite Hused, Hrest; apply in_or_app; right; right.
    apply in_or_app; right; left; reflexivity.
  - exists (used ++ x :: before)%list, x'; split; [|exact Hx'].
    rewrite Hused, Hrest, <- app_assoc; reflexivity.
Qed.

(** ** How many requests a method sends *)

Lemma sent_app (a b : list event) : sent (a ++ b) = (sent a ++ sent b)%list.
Proof.
  induction a as [|[rq|n] a IH]; simpl; [reflexivity| |exact IH].
  rewrite IH; reflexivity.
Qed.

Lemma sends_more {A} (n m : nat) (c : M A) :
  (n <= m)%nat -> sends_at_most n c -> sends_at_most m c.
Proof.
  intros Hnm H s w; destruct (H s w) as (evs & Htr & Hlen).
  exists evs; split; [exact Htr|lia].
Qed.

Lemma sends_quiet {A} (c : M A) : quiet c -> sends_at_most 0 c.
Proof.
  intros H s w; exists []; rewrite H, app_nil_r; split; [reflexivity|simpl; lia].
Qed.

Lemma sends_bind {A B} (n m : nat) (c : M A) (k : A -> M B) :
  sends_at_most n c -> (forall a, sends_at_most m (k a)) ->
  sends_at_most (n + m) (bind c k).
Proof.
  intros Hc Hk s w; unfold bind.
  destruct (Hc s w) as (evs & Htr & Hlen).
  destruct (c s w) as [[[a|e] s'] w']; unfold world in *; cbn [snd] in *.
  - destruct (Hk a s' w') as (evs' & Htr' & Hlen').
    exists (evs ++ evs')%list; split.
    + unfold world in Htr'; rewrite Htr', Htr, app_assoc; reflexivity.
    + rewrite sent_app, length_app; lia.
  - exists evs; split; [exact Htr|lia].
Qed.

Lemma sends_send (rq : Request) : sends_at_most 1 (send rq).
Proof.
  intros s w.
  destruct (send_cases rq s w) as (w1 & Htr & [Hsend|(r & Hsend)]);
    rewrite Hsend; exists [Sent rq]; (split; [exact Htr|simpl; lia]).
Qed.

Lemma sends_sleep (secs : Z) : sends_at_most 0 (time_sleep secs).
Proof. intros s w; exists [Slept secs]; split; [reflexivity|simpl; lia]. Qed.

Lemma generate_credentials_sends : sends_at_most 1 generate_credentials.
Proof.
  intros s w; rewrite generate_credentials_unfold.
  apply (sends_bind 1 0 (send (login_request s)) after_redirect).
  - apply sends_send.
  - intros r; apply sends_quiet, after_redirect_quiet.
Qed.

Lemma token_valid_sends : sends_at_most 1 token_valid.
Proof.
  unfold token_valid.
  apply (sends_bind 0 1); [apply sends_quiet; intros s w; reflexivity|intros t].
  apply (sends_bind 0 1); [apply sends_quiet; intros s w; reflexivity|intros s0].
  destruct (_ >=? _); [apply generate_credentials_sends|].
  apply (sends_more 0); [lia|apply sends_quiet; intros s w; reflexivity].
Qed.

Lemma request_car_data_sends data_type sub vin :
  sends_at_most 2 (request_car_data data_type sub vin).
Proof.
  unfold request_car_data.
  apply (sends_bind 0 2); [apply sends_quiet, bearer_quiet|intros auth].
  apply (sends_bind 1 1); [apply token_valid_sends|intros _].
  apply (sends_bind 0 1);
    [apply sends_quiet; destruct vin; intros ? ?; reflexivity|intros _].
  apply (sends_bind 0 1); [apply sends_quiet; intros s w; reflexivity|intros s0].
  apply (sends_bind 1 0); [apply sends_send|intros r].
  apply sends_quiet, json_subscript_quiet.
Qed.

Lemma update_car_sends car : sends_at_most 2 (update_car car).
Proof.
  unfold update_car, get_car_data, cars_data_append.
  do 3 (apply (sends_bind 0 2); [apply sends_quiet, quiet_lift|intros ?]).
  apply (sends_bind 2 0); [apply request_car_data_sends|intros v].
  apply sends_quiet.
  destruct (is_int v); [intros s w; reflexivity|].
  apply quiet_bind; [apply quiet_lift|intros snap].
  apply quiet_bind; [|intros _ s w; reflexivity].
  apply quiet_bind; [intros s w; reflexivity|intros s0].
  destruct (cars_data s0); intros s w; reflexivity.
Qed.

Lemma update_cars_sends items :
  sends_at_most (2 * List.length items) (update_cars items).
Proof.
  induction items as [|car rest IH]; cbn [update_cars].
  - apply sends_quiet; intros s w; reflexivity.
  - apply (sends_more (2 + 2 * List.length rest)); [simpl; lia|].
    apply sends_bind; [apply update_car_sends|intros [|]]; [exact IH|].
    apply (sends_more 0); [lia|apply sends_quiet; intros s w; reflexivity].
Qed.

Lemma poll_sends n url_check hd st0 :
  sends_at_most n (poll n url_check hd st0).
Proof.
  revert st0; induction n as [|n IH]; intros st0; cbn [poll].
  - apply sends_quiet; intros s w; reflexivity.
  - apply (sends_bind 0 (S n)); [apply sends_sleep|intros _].
    apply (sends_bind 1 n); [apply sends_send|intros r].
    apply (sends_bind 0 n); [apply sends_quiet, quiet_or_raise|intros root_data].
    apply (sends_bind 0 n); [apply sends_quiet, quiet_or_raise|intros element].
    destruct (is_executed _); [|apply IH].
    apply (sends_more 0); [lia|apply sends_quiet; intros s w; reflexivity].
Qed.

Lemma execute_service_sends service vin :
  sends_at_most 11 (execute_service service vin).
Proof.
  unfold execute_service.
  apply (sends_bind 1 10); [apply token_valid_sends|intros _].
  apply (sends_bind 0 10); [apply sends_quiet, bearer_quiet|intros auth].
  apply (sends_bind 0 10); [apply sends_quiet, quiet_or_raise|intros command].
  apply (sends_bind 0 10); [apply sends_quiet; intros s w; reflexivity|intros s0].
  apply (sends_bind 1 9); [apply sends_send|intros r].
  destruct (negb _).
  - apply (sends_more 0); [lia|apply sends_quiet; intros s w; reflexivity].
  - apply (sends_bind 9 0); [apply poll_sends|intros st].
    destruct (negb _); apply sends_quiet; intros s w; reflexivity.
Qed.

Lemma from_loop_sends (items : list pyval) :
  sends_at_most (2 * List.length items + 0) (from_loop items).
Proof.
  unfold from_loop.
  apply sends_bind; [apply update_cars_sends|intros [|]];
    apply sends_quiet; [|intros ? ?; reflexivity].
  do 4 (apply quiet_bind; [intros ? ?; reflexivity|intros ?]).
  apply quiet_bind; [apply quiet_or_raise|intros ? ? ?; reflexivity].
Qed.

(** X18: however the transport answers, a token check sends at most one
    request, a data request at most two (a login and the GET), an update
    at most two for each car of the car list and none when it is gated,
    and a command at most eleven (a login, the submission and nine
    polls).  The bound on an update holds with the gate on doubles as
    well. *)
Theorem requests_are_bounded :
  sends_at_most 1 token_valid
  /\ (forall data_type sub_data_type vin,
        sends_at_most 2 (request_car_data data_type sub_data_type vin))
  /\ (forall s w, exists evs,
        trace (world (update s w)) = (trace w ++ evs)%list
        /\ (List.length (sent evs) <= 2 * cars_count s)%nat
        /\ ((clock w - last_update_time s <= inject_Z (update_interval s))%Q ->
            evs = []))
  /\ (forall service vin, sends_at_most 11 (execute_service service vin))
  /\ (forall s w, exists evs,
        trace (world (update_double s w)) = (trace w ++ evs)%list
        /\ (List.length (sent evs) <= 2 * cars_count s)%nat
        /\ (Double.gt_int (Double.sub (clock w) (last_update_time s))
              (update_interval s) = false ->
            evs = [])).
Proof.
  split; [apply token_valid_sends|].
  split; [apply request_car_data_sends|].
  split; [|split; [apply execute_service_sends|]].
  2:{ intros s w.
      destruct (Double.gt_int (Double.sub (clock w) (last_update_time s))
                  (update_interval s)) eqn:Hgate.
      - unfold cars_count.
        destruct (iter (cars s)) as [items|] eqn:Hitems.
        + rewrite (update_double_past_gate s w items Hgate Hitems).
          destruct (from_loop_sends items (set_cars_data (Some []) s) w)
            as (evs & Htr & Hlen).
          exists evs; split; [exact Htr|split; [lia|discriminate]].
        + exists []; rewrite app_nil_r.
          unfold update_double.
          do 2 (erewrite run_bind by reflexivity).
          rewrite Hgate.
          do 2 (erewrite run_bind by reflexivity).
          cbn [cars set_cars_data]; rewrite Hitems.
          split; [reflexivity|split; [simpl; lia|discriminate]].
      - exists []; rewrite app_nil_r, (update_double_gated s w Hgate).
        split; [reflexivity|split; [simpl; lia|reflexivity]]. }
  intros s w.
  destruct (Qlt_le_dec (inject_Z (update_interval s))
              (clock w - last_update_time s)) as [Hopen|Hgated].
  - assert (Hnot : ~ (clock w - last_update_time s
                      <= inject_Z (update_interval s))%Q)
      by (intros H; exact (Qlt_not_le _ _ Hopen H)).
    unfold cars_count.
    destruct (iter (cars s)) as [items|] eqn:Hitems.
    + rewrite (update_past_gate s w items Hopen Hitems).
      assert (B : sends_at_most (2 * List.length items + 0)
                    (f <- update_cars items ;;
                     match f with
                     | Return_None => ret None
                     | Next =>
                         now <- time_time ;;
                         assign (set_last_update_time now) ;;
                         assign (set_is_updated true) ;;
                         s <- self ;;
                         l <- or_raise AttributeError (cars_data s) ;;
                         ret (Some l)
                     end)).
      { apply sends_bind; [apply update_cars_sends|intros [|]];
          apply sends_quiet; [|intros ? ?; reflexivity].
        do 4 (apply quiet_bind; [intros ? ?; reflexivity|intros ?]).
        apply quiet_bind; [apply quiet_or_raise|intros ? ? ?; reflexivity]. }
      destruct (B (set_cars_data (Some []) s) w) as (evs & Htr & Hlen).
      exists evs; split; [exact Htr|split; [lia|contradiction]].
    + exists []; rewrite app_nil_r.
      unfold update.
      do 2 (erewrite run_bind by reflexivity).
      rewrite (float_gt_true _ _ Hopen).
      do 2 (erewrite run_bind by reflexivity).
      cbn [cars set_cars_data]; rewrite Hitems.
      split; [reflexivity|split; [simpl; lia|contradiction]].
  - exists []; rewrite app_nil_r, (update_gated s w Hgated).
    split; [reflexivity|split; [simpl; lia|reflexivity]].
Qed.

(** ** What the methods leave alone *)

Lemma poll_keeps {B} (p : Self -> B) n url_check hd st0 :
  keeps p (poll n url_check hd st0).
Proof.
  revert st0; induction n as [|n IH]; intros st0; cbn [poll]; [frame|].
  unfold requests_get.
  do 4 (apply keeps_bind; [frame|intros ?]).
  destruct (is_executed _); [frame|apply IH].
Qed.

Lemma execute_service_keeps {B} (p : Self -> B) service vin :
  untouched_by_login p -> keeps p (execute_service service vin).
Proof.
  intros H; unfold execute_service, bearer, requests_post.
  apply keeps_bind; [apply token_valid_keeps; exact H|intros _].
  do 4 (apply keeps_bind; [frame|intros ?]).
  destruct (negb _); [frame|].
  apply keeps_bind; [apply poll_keeps|intros st; frame].
Qed.

Lemma configuration_untouched :
  untouched_by_update configuration
  /\ (forall v s, configuration (set_cars v s) = configuration s).
Proof. repeat split. Qed.

Lemma polling_state_untouched : untouched_by_fetch polling_state.
Proof. repeat split. Qed.

Lemma logging_tail_keeps {B} (p : Self -> B) (m : pyval) :
  keeps p (s <- self ;;
           (if printall s then keys_pass m else ret tt) ;;
           ret m).
Proof. intros s w; exact (f_equal p (logging_tail_inert m s w)). Qed.

(** The methods that fetch one kind of data of a car *)
Lemma data_methods_keep {B} (p : Self -> B) (vin : pyval) :
  untouched_by_fetch p ->
  forall g,
    In g [get_car_data; get_car_location; get_car_data_service;
          get_car_navigation; get_car_efficiency; get_car_service_partner] ->
    keeps p (g vin).
Proof.
  intros [H Hv] g Hg.
  cbn [In] in Hg.
  destruct Hg as [<-|[<-|[<-|[<-|[<-|[<-|[]]]]]]];
    try (apply request_car_data_keeps; assumption);
    (apply keeps_bind;
     [apply request_car_data_keeps; assumption
     |intros m; apply logging_tail_keeps]).
Qed.

(** X19: no method changes the configuration the constructor set
    (credentials, URLs, update interval, UTC offset, [printall]), however
    it ends.  A login, a token check, a data request and a command leave
    the car list, the stored snapshots, the time of the last update and
    [is_updated] as they are, and a command also leaves [bmw_vin].  So
    it is with the six methods that fetch the data of a car, logging
    included, and with [update] on doubles. *)
Theorem methods_leave_configuration_and_polling_state :
  (keeps configuration generate_credentials
   /\ keeps configuration token_valid
   /\ (forall data_type sub_data_type vin,
         keeps configuration (request_car_data data_type sub_data_type vin))
   /\ keeps configuration get_cars
   /\ keeps configuration update
   /\ (forall service vin, keeps configuration (execute_service service vin)))
  /\ (keeps polling_state generate_credentials
      /\ keeps polling_state token_valid
      /\ (forall data_type sub_data_type vin,
            keeps polling_state (request_car_data data_type sub_data_type vin))
      /\ (forall service vin, keeps polling_state (execute_service service vin)))
  /\ (forall service vin, keeps bmw_vin (execute_service service vin))
  /\ (forall g vin,
        In g [get_car_data; get_car_location; get_car_data_service;
              get_car_navigation; get_car_efficiency; get_car_service_partner] ->
        keeps configuration (g vin) /\ keeps polling_state (g vin))
  /\ keeps configuration update_double.
Proof.
  destruct configuration_untouched as [Cu Cc].
  pose proof Cu as (Cf & _).
  pose proof Cf as (Cl & Cv).
  pose proof polling_state_untouched as Pf.
  pose proof Pf as (Pl & Pv).
  split; [|split; [|split; [|split]]]; cycle 3.
  - intros g vin Hg; split.
    + exact (data_methods_keep configuration vin Cf g Hg).
    + exact (data_methods_keep polling_state vin Pf g Hg).
  - apply update_double_keeps; exact Cu.
  - split; [apply generate_credentials_keeps; exact Cl|].
    split; [apply token_valid_keeps; exact Cl|].
    split; [intros; apply request_car_data_keeps; assumption|].
    split; [apply get_cars_keeps; assumption|].
    split; [apply update_keeps; exact Cu|].
    intros; apply execute_service_keeps; exact Cl.
  - split; [apply generate_credentials_keeps; exact Pl|].
    split; [apply token_valid_keeps; exact Pl|].
    split; [intros; apply request_car_data_keeps; assumption|].
    intros; apply execute_service_keeps; exact Pl.
  - intros; apply execute_service_keeps; exact login_leaves_bmw_vin.
Qed.

(** ** The car list that is fetched *)

Lemma dict_mem_get (k : string) (d : dict) :
  dict_mem k d = true -> exists v, dict_get k d = Some v.
Proof.
  induction d as [|[a x] d IH]; simpl; [discriminate|].
  destruct (String.eqb k a); [exists x; reflexivity|exact IH].
Qed.

Lemma dict_get_mem (k : string) (d : dict) (v : pyval) :
  dict_get k d = Some v -> dict_mem k d = true.
Proof.
  induction d as [|[a x] d IH]; simpl; [discriminate|].
  destruct (String.eqb k a); [reflexivity|exact IH].
Qed.

(** The three subscripts the log of one car evaluates *)
Lemma log_car_cases (car : pyval) :
  (described car
   /\ exists b m v, getitem car (Some "brand") = inr b
                    /\ getitem car (Some "modelName") = inr m
                    /\ getitem car (Some "vin") = inr v)
  \/ (~ described car
      /\ exists e, (e = KeyError \/ e = TypeError)
                   /\ (getitem car (Some "brand") = inl e
                       \/ (exists b, getitem car (Some "brand") = inr b)
                          /\ (getitem car (Some "modelName") = inl e
                              \/ (exists m, getitem car (Some "modelName") = inr m)
                                 /\ getitem car (Some "vin") = inl e))).
Proof.
  destruct car as [| | | | | |d];
    try (right; split;
         [intros (d & Hd & _); discriminate Hd
         |exists TypeError; split; [right; reflexivity|left; reflexivity]]).
  unfold getitem.
  destruct (dict_get "brand" d) as [b|] eqn:Hb.
  2:{ right; split.
      - intros (d' & Hd & Hm & _); injection Hd as <-.
        destruct (dict_mem_get _ _ Hm) as (v & Hv); congruence.
      - exists KeyError; split; [left; reflexivity|left; reflexivity]. }
  destruct (dict_get "modelName" d) as [m|] eqn:Hm.
  2:{ right; split.
      - intros (d' & Hd & _ & Hm' & _); injection Hd as <-.
        destruct (dict_mem_get _ _ Hm') as (v & Hv); congruence.
      - exists KeyError; split; [left; reflexivity|].
        right; split; [exists b; reflexivity|left; reflexivity]. }
  destruct (dict_get "vin" d) as [v|] eqn:Hv.
  2:{ right; split.
      - intros (d' & Hd & _ & _ & Hv'); injection Hd as <-.
        destruct (dict_mem_get _ _ Hv') as (v & Hv''); congruence.
      - exists KeyError; split; [left; reflexivity|].
        right; split; [exists b; reflexivity|].
        right; split; [exists m; reflexivity|reflexivity]. }
  left; split.
  - exists d; split; [reflexivity|].
    split; [exact (dict_get_mem _ _ _ Hb)|].
    split; [exact (dict_get_mem _ _ _ Hm)|exact (dict_get_mem _ _ _ Hv)].
  - exists b, m, v; repeat split.
Qed.

Lemma log_cars_outcome (items : list pyval) (s : Self) (w : World) :
  (Forall described items /\ log_cars items s w = (Ret tt, s, w))
  \/ (~ Forall described items
      /\ exists e, (e = KeyError \/ e = TypeError)
                   /\ log_cars items s w = (Raise e, s, w)).
Proof.
  induction items as [|car rest IH]; cbn [log_cars].
  - left; split; [constructor|reflexivity].
  - destruct (log_car_cases car)
      as [(Hd & b & m & v & Hb & Hm & Hv)|(Hn & e & He & Hcase)].
    + rewrite Hb, Hm, Hv.
      do 3 (erewrite run_bind by reflexivity).
      destruct IH as [(Hall & Hrun)|(Hnot & e & He & Hrun)].
      * left; split; [constructor; assumption|exact Hrun].
      * right; split; [intros H; inversion H; contradiction|].
        exists e; split; [exact He|exact Hrun].
    + right; split; [intros H; inversion H; contradiction|].
      exists e; split; [exact He|].
      destruct Hcase as [Hb|[(b & Hb) [Hm|[(m & Hm) Hv]]]].
      * rewrite Hb; reflexivity.
      * rewrite Hb, Hm; reflexivity.
      * rewrite Hb, Hm, Hv; reflexivity.
Qed.

(** X20: with the token check through and the request answered by 200
    and a JSON body, [get_cars] stores the body in [cars] before it looks
    at it.  When the body is a list of dicts that each have brand,
    modelName and vin, it returns that list; when some element of the
    list is not such a dict, it raises a KeyError or a TypeError, with
    the list already stored. *)
Theorem get_cars_stores_then_inspects :
  forall (token : string) (s s1 : Self) (w w1 : World)
         (x : Exchange) (rest : list Exchange) (r : Response) (body : pyval),
    accesstoken s = Some token ->
    token_valid s w = (Ret tt, s1, w1) ->
    pending w1 = x :: rest ->
    answer x = Reply r ->
    status_code r = 200 ->
    json r = Some body ->
    let run := get_cars s w in
    final run = set_cars body s1
    /\ world run = answered (get_cars_request token s1) x rest w1
    /\ (forall l, body = PList l -> Forall described l ->
                  result run = Ret (PList l))
    /\ (forall l, body = PList l -> ~ Forall described l ->
                  exists e, (e = KeyError \/ e = TypeError)
                            /\ result run = Raise e).
Proof.
  intros token s s1 w w1 x rest r body Htok Htv Hp Ha Hcode Hjson run.
  assert (E : request_car_data "get_cars" None PNone s w
              = (Ret body, s1, answered (get_cars_request token s1) x rest w1)).
  { rewrite (request_car_data_answered "get_cars" None PNone token
               s s1 w w1 x rest r Htok Htv Hp Ha).
    unfold decoded; apply Z.eqb_eq in Hcode; rewrite Hcode, Hjson.
    reflexivity. }
  assert (R : run
              = (items <- or_raise TypeError (iter body) ;;
                 log_cars items ;;
                 s <- self ;;
                 ret (cars s))
                  (set_cars body s1)
                  (answered (get_cars_request token s1) x rest w1)).
  { unfold run, get_cars.
    rewrite (run_bind _ _ _ _ _ _ _ E).
    do 2 (erewrite run_bind by reflexivity).
    reflexivity. }
  assert (I : keeps (fun s => s)
                (items <- or_raise TypeError (iter body) ;;
                 log_cars items ;;
                 s <- self ;;
                 ret (cars s))).
  { apply keeps_bind; [frame|intros items].
    apply keeps_bind; [apply log_cars_keeps|frame]. }
  assert (Q : forall items, quiet (log_cars items)).
  { intros items; induction items as [|car tl IH]; cbn [log_cars];
      [intros ? ?; reflexivity|].
    do 3 (apply quiet_bind; [apply quiet_lift|intros _]); exact IH. }
  split; [rewrite R; apply I|].
  split.
  { rewrite R.
    apply (quiet_bind (or_raise TypeError (iter body))); [apply quiet_or_raise|].
    intros items; apply quiet_bind; [apply Q|].
    intros _; apply quiet_bind; intros ? ?; reflexivity. }
  split.
  - intros l -> Hall; rewrite R; cbn [iter or_raise].
    erewrite run_bind by reflexivity.
    destruct (log_cars_outcome l (set_cars (PList l) s1)
                (answered (get_cars_request token s1) x rest w1))
      as [(_ & Hrun)|(Hnot & _)]; [|contradiction].
    rewrite (run_bind _ _ _ _ _ _ _ Hrun).
    reflexivity.
  - intros l -> Hnot; rewrite R; cbn [iter or_raise].
    erewrite run_bind by reflexivity.
    destruct (log_cars_outcome l (set_cars (PList l) s1)
                (answered (get_cars_request token s1) x rest w1))
      as [(Hall & _)|(_ & e & He & Hrun)]; [contradiction|].
    exists e; split; [exact He|].
    rewrite (run_bind_raise _ _ _ _ _ _ _ Hrun); reflexivity.
Qed.

(** ** The methods that log with [printall] *)

Lemma login_leaves_printall : untouched_by_login printall.
Proof. repeat split. Qed.

(** A request answered by a status other than 200, followed by the
    logging of the methods that log with [printall]. *)
Lemma logged_status_code data_type sub vin (token : string)
    (s s1 : Self) (w w1 : World) (x : Exchange) (rest : list Exchange)
    (r : Response) :
  accesstoken s = Some token ->
  token_valid s w = (Ret tt, s1, w1) ->
  pending w1 = x :: rest ->
  answer x = Reply r ->
  status_code r <> 200 ->
  result ((m <- request_car_data data_type sub vin ;;
           s <- self ;;
           (if printall s then keys_pass m else ret tt) ;;
           ret m) s w)
  = if printall s then Raise TypeError else Ret (PInt (status_code r)).
Proof.
  intros Htok Htv Hp Ha Hcode.
  pose proof (request_car_data_answered data_type sub vin token
                s s1 w w1 x rest r Htok Htv Hp Ha) as E.
  unfold decoded in E; apply Z.eqb_neq in Hcode; rewrite Hcode in E.
  rewrite (run_bind _ _ _ _ _ _ _ E).
  pose proof (token_valid_keeps printall login_leaves_printall s w) as K.
  rewrite Htv in K; unfold final in K; cbn [fst snd] in K.
  erewrite run_bind by reflexivity.
  assert (P : printall (with_vin vin s1) = printall s)
    by (rewrite <- K; destruct vin; reflexivity).
  rewrite P; destruct (printall s); reflexivity.
Qed.

(** X21: when the request of [get_car_data_service],
    [get_car_navigation], [get_car_efficiency] or
    [get_car_service_partner] is answered by a status other than 200, the
    method returns that status as an int; with [printall] set it raises a
    TypeError instead, on sorting the int for the log. *)
Theorem logging_methods_on_status_code :
  forall (vin : pyval) (token : string) (s s1 : Self) (w w1 : World)
         (x : Exchange) (rest : list Exchange) (r : Response),
    accesstoken s = Some token ->
    token_valid s w = (Ret tt, s1, w1) ->
    pending w1 = x :: rest ->
    answer x = Reply r ->
    status_code r <> 200 ->
    let outcome :=
      if printall s then Raise TypeError else Ret (PInt (status_code r)) in
    result (get_car_data_service vin s w) = outcome
    /\ result (get_car_navigation vin s w) = outcome
    /\ result (get_car_efficiency vin s w) = outcome
    /\ result (get_car_service_partner vin s w) = outcome.
Proof.
  intros vin token s s1 w w1 x rest r Htok Htv Hp Ha Hcode outcome.
  repeat split;
    apply (logged_status_code _ _ _ token s s1 w w1 x rest r);
    assumption.
Qed.

(** * Cycles of [update] with the gate as Python takes it *)

(** ** The cars a cycle has processed *)


Lemma update_car_processed (car : pyval) (s s' : Self) (w w' : World) :
  update_car car s w = (Ret Next, s', w') ->
  exists bmw_vin brand model_name car_data snap s1 l,
    getitem car (Some "vin") = inr bmw_vin
    /\ getitem car (Some "brand") = inr brand
    /\ getitem car (Some "modelName") = inr model_name
    /\ get_car_data bmw_vin s w = (Ret car_data, s1, w')
    /\ snapshot bmw_vin (str brand ++ " " ++ str model_name) car_data = inr snap
    /\ cars_data s1 = Some l
    /\ s' = set_cars_data (Some (l ++ [snap])%list) s1.
Proof.
  unfold update_car; intros H.
  apply bind_inv in H as (bmw_vin & s1 & w1 & H1 & H).
  apply lift_inv in H1 as (Hv & -> & ->).
  apply bind_inv in H as (brand & s1 & w1 & H1 & H).
  apply lift_inv in H1 as (Hb & -> & ->).
  apply bind_inv in H as (model_name & s1 & w1 & H1 & H).
  apply lift_inv in H1 as (Hm & -> & ->).
  apply bind_inv in H as (car_data & s1 & w1 & Hget & H).
  destruct (is_int car_data); [discriminate|].
  apply bind_inv in H as (snap & s2 & w2 & H1 & H).
  apply lift_inv in H1 as (Hsnap & -> & ->).
  apply bind_inv in H as ([] & s2 & w2 & Happ & H).
  injection H as <- <-.
  unfold cars_data_append in Happ.
  apply bind_inv in Happ as (s0 & s3 & w3 & Hs & Happ).
  injection Hs as <- <- <-.
  destruct (cars_data s1) as [l|] eqn:E; [|discriminate].
  injection Happ as <- <-.
  exists bmw_vin, brand, model_name, car_data, snap, s1, l.
  repeat split; assumption.
Qed.

Lemma update_cars_processed (items : list pyval) :
  forall (s s' : Self) (w w' : World),
    update_cars items s w = (Ret Next, s', w') ->
    exists fetched snaps, processed items s w fetched snaps s' w'.
Proof.
  induction items as [|car rest IH]; intros s s' w w' H.
  - injection H as <- <-; exists [], []; constructor.
  - cbn [update_cars] in H.
    apply bind_inv in H as (f & s1 & w1 & Hcar & H).
    destruct f; [|discriminate].
    destruct (update_car_processed car s s1 w w1 Hcar)
      as (bmw_vin & brand & model_name & car_data & snap & s0 & l
          & Hv & Hb & Hm & Hget & Hsnap & Hl & ->).
    destruct (IH _ s' w1 w' H) as (fetched & snaps & Hrest).
    exists (car_data :: fetched), (snap :: snaps).
    exact (processed_cons car rest s s0 s' w w1 w' bmw_vin brand model_name
             car_data snap l fetched snaps Hv Hb Hm Hget Hsnap Hl Hrest).
Qed.

Lemma processed_cars_data (items fetched snaps : list pyval)
    (s s' : Self) (w w' : World) :
  processed items s w fetched snaps s' w' ->
  forall l, cars_data s = Some l -> cars_data s' = Some (l ++ snaps)%list.
Proof.
  induction 1 as [|car rest s s1 s' w w1 w' bmw_vin brand model_name car_data
                   snap l0 fetched snaps Hv Hb Hm Hget Hsnap Hl _ IH];
    intros l Hs.
  - rewrite app_nil_r; exact Hs.
  - pose proof (get_car_data_keeps cars_data bmw_vin fetch_leaves_cars_data s w) as K.
    rewrite Hget in K; unfold final in K; simpl in K.
    rewrite K, Hs in Hl; injection Hl as <-.
    rewrite (IH (l ++ [snap])%list eq_refl), <- app_assoc; reflexivity.
Qed.

Lemma snapshot_classified (bmw_vin : pyval) (car_name : string)
    (car_data snap : pyval) :
  snapshot bmw_vin car_name car_data = inr snap -> classified car_data snap.
Proof.
  intros H.
  destruct car_data as [| | | | | |attributes]; try discriminate.
  unfold snapshot in H; rewrite type_of_car_after_naming in H.
  destruct (type_of_car attributes) as [e|kind] eqn:Hk; [discriminate|].
  injection H as <-.
  eexists attributes, _; split; [reflexivity|]; split; [reflexivity|].
  rewrite dict_get_set_same.
  unfold type_of_car in Hk.
  split; [|split].
  - intros Hc Hf; rewrite Hc, Hf in Hk; injection Hk as <-; reflexivity.
  - intros fuel Hc Hf Hne; rewrite Hc, Hf, (eq_str_false _ _ Hne) in Hk.
    injection Hk as <-; reflexivity.
  - intros Hc; rewrite Hc in Hk; injection Hk as <-; reflexivity.
Qed.

Lemma processed_described (items fetched snaps : list pyval)
    (s s' : Self) (w w' : World) :
  processed items s w fetched snaps s' w' ->
  Forall2 classified fetched snaps
  /\ Forall is_snapshot snaps
  /\ List.length snaps = List.length items.
Proof.
  induction 1 as [|car rest s s1 s' w w1 w' bmw_vin brand model_name car_data
                   snap l0 fetched snaps Hv Hb Hm Hget Hsnap Hl _ IH].
  - repeat split; constructor.
  - destruct IH as (Hc & Hs & Hn).
    split; [|split].
    + constructor; [exact (snapshot_classified _ _ _ _ Hsnap)|exact Hc].
    + constructor; [exact (snapshot_is_snapshot _ _ _ _ Hsnap)|exact Hs].
    + simpl; rewrite Hn; reflexivity.
Qed.





(** A cycle of [update_double] that stops at the car [car], the cars
    before it processed: the loop body left the loop there, by the bare
    return or by an exception. *)
Lemma update_double_stopped (s s1 s2 : Self) (w w1 w2 : World)
    (before after : list pyval) (car : pyval) (r : Res flow) :
  Double.gt_int (Double.sub (clock w) (last_update_time s)) (update_interval s)
  = true ->
  cars s = PList (before ++ car :: after) ->
  update_cars before (set_cars_data (Some []) s) w = (Ret Next, s1, w1) ->
  update_car car s1 w1 = (r, s2, w2) ->
  r <> Ret Next ->
  update_double s w
  = (match r with Ret _ => Ret None | Raise e => Raise e end, s2, w2).
Proof.
  intros Hgate Hcars Hbefore Hcar Hr.
  rewrite (update_double_past_gate s w (before ++ car :: after) Hgate)
    by (rewrite Hcars; reflexivity).
  unfold from_loop.
  assert (Hloop : update_cars (before ++ car :: after)
                    (set_cars_data (Some []) s) w
                  = (match r with
                     | Ret _ => Ret Return_None
                     | Raise e => Raise e
                     end, s2, w2)).
  { rewrite (update_cars_app before (car :: after) _ s1 w w1 Hbefore).
    cbn [update_cars].
    destruct r as [[|]|e].
    - contradiction Hr; reflexivity.
    - rewrite (run_bind _ _ _ _ _ _ _ Hcar); reflexivity.
    - rewrite (run_bind_raise _ _ _ _ _ _ _ Hcar); reflexivity. }
  destruct r as [f|e].
  - rewrite (run_bind _ _ _ _ _ _ _ Hloop); reflexivity.
  - rewrite (run_bind_raise _ _ _ _ _ _ _ Hloop); reflexivity.
Qed.

(** What the instance holds when the fetch for a car is over, the cars
    before it processed. *)
Lemma fetched_after_processed (s s1 s2 : Self) (w w1 w2 : World)
    (before : list pyval) (bmw_vin : pyval) (r : Res pyval) :
  update_cars before (set_cars_data (Some []) s) w = (Ret Next, s1, w1) ->
  get_car_data bmw_vin s1 w1 = (r, s2, w2) ->
  last_update_time s2 = last_update_time s
  /\ is_updated s2 = is_updated s
  /\ exists fetched snaps,
       processed before (set_cars_data (Some []) s) w fetched snaps s1 w1
       /\ cars_data s2 = Some snaps
       /\ List.length snaps = List.length before
       /\ Forall is_snapshot snaps.
Proof.
  intros Hbefore Hget.
  pose proof (get_car_data_keeps last_update_time bmw_vin
                fetch_leaves_last_update_time s1 w1) as K1.
  pose proof (get_car_data_keeps is_updated bmw_vin
                fetch_leaves_is_updated s1 w1) as K2.
  pose proof (get_car_data_keeps cars_data bmw_vin
                fetch_leaves_cars_data s1 w1) as K3.
  rewrite Hget in K1, K2, K3; unfold final in K1, K2, K3; simpl in K1, K2, K3.
  pose proof (update_cars_keeps last_update_time before
                fetch_leaves_last_update_time (fun _ _ => eq_refl)
                (set_cars_data (Some []) s) w) as L1.
  pose proof (update_cars_keeps is_updated before
                fetch_leaves_is_updated (fun _ _ => eq_refl)
                (set_cars_data (Some []) s) w) as L2.
  rewrite Hbefore in L1, L2; unfold final in L1, L2; simpl in L1, L2.
  split; [rewrite K1; exact L1|].
  split; [rewrite K2; exact L2|].
  destruct (update_cars_processed before _ s1 w w1 Hbefore)
    as (fetched & snaps & Hp).
  destruct (processed_described _ _ _ _ _ _ _ Hp) as (_ & Hs & Hn).
  exists fetched, snaps.
  split; [exact Hp|].
  split; [rewrite K3; exact (processed_cars_data _ _ _ _ _ _ _ Hp [] eq_refl)|].
  split; [exact Hn|exact Hs].
Qed.

(** C2, as the code has it: in a cycle that passes the gate, when the
    fetch for one car returns an int after the cars before it were
    processed, [update] stops there and returns None: no list is
    returned, nothing is sent after the failed fetch, and
    [last_update_time] and [is_updated] stay as they were.  The stored
    [cars_data] is not empty in general: it is the list of the snapshots
    of the cars before the failed one, each the [snapshot] of what was
    fetched for its car, one per car and in their order. *)
Theorem update_aborts_on_failed_fetch :
  forall (s s1 s2 : Self) (w w1 w2 : World)
         (before after : list pyval) (car bmw_vin brand model_name : pyval)
         (code : Z),
    Double.gt_int (Double.sub (clock w) (last_update_time s)) (update_interval s)
    = true ->
    cars s = PList (before ++ car :: after) ->
    update_cars before (set_cars_data (Some []) s) w = (Ret Next, s1, w1) ->
    getitem car (Some "vin") = inr bmw_vin ->
    getitem car (Some "brand") = inr brand ->
    getitem car (Some "modelName") = inr model_name ->
    get_car_data bmw_vin s1 w1 = (Ret (PInt code), s2, w2) ->
    let run := update_double s w in
    result run = Ret None
    /\ world run = w2
    /\ last_update_time (final run) = last_update_time s
    /\ is_updated (final run) = is_updated s
    /\ exists fetched snaps,
         processed before (set_cars_data (Some []) s) w fetched snaps s1 w1
         /\ cars_data (final run) = Some snaps
         /\ List.length snaps = List.length before
         /\ Forall is_snapshot snaps.
Proof.
  intros s s1 s2 w w1 w2 before after car bmw_vin brand model_name code
         Hgate Hcars Hbefore Hv Hb Hm Hget run.
  pose proof (update_car_failed car bmw_vin brand model_name code
                s1 s2 w1 w2 Hv Hb Hm Hget) as Hcar.
  assert (E : run = (Ret None, s2, w2)).
  { unfold run.
    rewrite (update_double_stopped s s1 s2 w w1 w2 before after car
               (Ret Return_None) Hgate Hcars Hbefore Hcar)
      by discriminate.
    reflexivity. }
  rewrite E; unfold result, world, final; cbn [fst snd].
  split; [reflexivity|].
  split; [reflexivity|].
  exact (fetched_after_processed s s1 s2 w w1 w2 before bmw_vin _ Hbefore Hget).
Qed.


(** X11: past the gate, taken on doubles, with no car registered,
    [update] sends nothing, stores and returns the empty list, marks the
    instance updated and takes the time of the call as the time of the
    last update. *)
Theorem update_without_cars :
  forall (s : Self) (w : World),
    Double.gt_int (Double.sub (clock w) (last_update_time s)) (update_interval s)
    = true ->
    cars s = PList [] ->
    update_double s w
    = (Ret (Some []),
       set_is_updated true
         (set_last_update_time (clock w) (set_cars_data (Some []) s)),
       w).
Proof.
  intros s w Hgate Hcars.
  rewrite (update_double_past_gate s w [] Hgate) by (rewrite Hcars; reflexivity).
  reflexivity.
Qed.

(** X12: past the gate, taken on doubles, on an instance whose [cars]
    cannot be iterated, as the int a failed fetch of the car list leaves
    there, [update] raises a TypeError, having sent nothing and having
    already replaced the stored [cars_data] by the empty list. *)
Theorem update_over_status_code :
  forall (s : Self) (w : World),
    Double.gt_int (Double.sub (clock w) (last_update_time s)) (update_interval s)
    = true ->
    iter (cars s) = None ->
    update_double s w = (Raise TypeError, set_cars_data (Some []) s, w).
Proof.
  intros s w Hgate Hcars; unfold update_double.
  do 2 (erewrite run_bind by reflexivity).
  rewrite Hgate.
  do 2 (erewrite run_bind by reflexivity).
  cbn [cars set_cars_data]; rewrite Hcars.
  reflexivity.
Qed.

(** X15: in a cycle past the gate, taken on doubles, a car whose fetched
    data has charging_status and no remaining_fuel, after cars that were
    processed, makes [update] raise a KeyError: the time of the last
    update and [is_updated] stay as they were, and the stored [cars_data]
    is the list of the snapshots of the cars before it, each the
    [snapshot] of what was fetched for its car. *)
Theorem update_raises_without_remaining_fuel :
  forall (s s1 s2 : Self) (w w1 w2 : World)
         (before after : list pyval) (car bmw_vin brand model_name : pyval)
         (attributes : dict),
    Double.gt_int (Double.sub (clock w) (last_update_time s)) (update_interval s)
    = true ->
    cars s = PList (before ++ car :: after) ->
    update_cars before (set_cars_data (Some []) s) w = (Ret Next, s1, w1) ->
    getitem car (Some "vin") = inr bmw_vin ->
    getitem car (Some "brand") = inr brand ->
    getitem car (Some "modelName") = inr model_name ->
    get_car_data bmw_vin s1 w1 = (Ret (PDict attributes), s2, w2) ->
    dict_mem "charging_status" attributes = true ->
    dict_get "remaining_fuel" attributes = None ->
    let run := update_double s w in
    result run = Raise KeyError
    /\ world run = w2
    /\ last_update_time (final run) = last_update_time s
    /\ is_updated (final run) = is_updated s
    /\ exists fetched snaps,
         processed before (set_cars_data (Some []) s) w fetched snaps s1 w1
         /\ cars_data (final run) = Some snaps
         /\ List.length snaps = List.length before
         /\ Forall is_snapshot snaps.
Proof.
  intros s s1 s2 w w1 w2 before after car bmw_vin brand model_name attributes
         Hgate Hcars Hbefore Hv Hb Hm Hget Hc Hf run.
  assert (Hcar : update_car car s1 w1 = (Raise KeyError, s2, w2)).
  { unfold update_car, bind, lift, ret.
    rewrite Hv, Hb, Hm; cbv beta iota.
    rewrite Hget; cbv beta iota.
    change (is_int (PDict attributes)) with false; cbv beta iota.
    unfold snapshot; rewrite type_of_car_after_naming.
    unfold type_of_car; rewrite Hc, Hf; reflexivity. }
  assert (E : run = (Raise KeyError, s2, w2)).
  { unfold run.
    rewrite (update_double_stopped s s1 s2 w w1 w2 before after car
               (Raise KeyError) Hgate Hcars Hbefore Hcar)
      by discriminate.
    reflexivity. }
  rewrite E; unfold result, world, final; cbn [fst snd].
  split; [reflexivity|].
  split; [reflexivity|].
  exact (fetched_after_processed s s1 s2 w w1 w2 before bmw_vin _ Hbefore Hget).
Qed.

(** ** The gate on doubles against the exact gate *)

Lemma round_le (x : Q) (n : Z) : (x <= inject_Z n)%Q -> round x <= n.
Proof.
  intros H; unfold round.
  pose proof (Qfloor_resp_le _ _ H) as F; rewrite Qfloor_Z in F.
  destruct (Z.eq_dec (Qfloor x) n) as [E|E].
  - assert (R : (x - inject_Z (Qfloor x) ?= 1 # 2)%Q = Lt).
    { apply Qlt_alt; rewrite E.
      apply Qle_lt_trans with (y := 0%Q); [|reflexivity].
      apply (Qplus_le_l _ _ (inject_Z n)); ring_simplify; exact H. }
    rewrite R; lia.
  - destruct (x - inject_Z (Qfloor x) ?= 1 # 2)%Q; [destruct (Z.even _)| |]; lia.
Qed.

Lemma round_nonneg (x : Q) : (0 <= x)%Q -> 0 <= round x.
Proof.
  intros H; unfold round.
  pose proof (Qfloor_resp_le _ _ H) as F; change (Qfloor 0) with 0 in F.
  destruct (x - inject_Z (Qfloor x) ?= 1 # 2)%Q; [destruct (Z.even _)| |]; lia.
Qed.

Lemma pow2_pos (e : Z) : (0 < Double.pow2 e)%Q.
Proof.
  destruct e as [|p|p]; unfold Double.pow2; try reflexivity.
  change 0%Q with (inject_Z 0); rewrite <- Zlt_Qlt; lia.
Qed.

Lemma pow2_inv (e : Z) :
  e <= 0 -> exists k : Z, 0 < k /\ (Double.pow2 e * inject_Z k == 1)%Q.
Proof.
  intros H; destruct e as [|p|p]; [exists 1; split; [lia|reflexivity]|lia|].
  exists (Zpos (2 ^ p)); split; [lia|].
  unfold Double.pow2, Qeq, Qmult, inject_Z; simpl; lia.
Qed.

Lemma binade_small (a : Q) (n : Z) :
  n < 2 ^ 53 -> (a <= inject_Z n)%Q -> Double.binade a <= 52.
Proof.
  intros Hn Ha; unfold Double.binade.
  destruct (Qle_bool 1 a) eqn:E.
  - apply Qle_bool_iff in E.
    pose proof (Qfloor_resp_le _ _ E) as F1; change (Qfloor 1) with 1 in F1.
    pose proof (Qfloor_resp_le _ _ Ha) as F2; rewrite Qfloor_Z in F2.
    assert (Z.log2 (Qfloor a) < 53) by (apply Z.log2_lt_pow2; lia).
    lia.
  - pose proof (Z.log2_up_nonneg (Qceiling (/ a))); lia.
Qed.

(** Rounding to the nearest double does not carry a number over an int
    below [2^53]: such an int is a double itself. *)
Lemma nearest_le_int (x : Q) (n : Z) :
  0 <= n < 2 ^ 53 -> (x <= inject_Z n)%Q ->
  Double.gt_int (Double.nearest x) n = false.
Proof.
  intros Hn Hx; unfold Double.nearest.
  destruct (Qeq_bool x 0) eqn:E0.
  { simpl; apply negb_false_iff, Qle_bool_iff.
    change 0%Q with (inject_Z 0); rewrite <- Zle_Qle; lia. }
  set (a := Qabs x).
  set (r := (inject_Z (round (a / Double.ulp a)) * Double.ulp a)%Q).
  assert (U : (0 < Double.ulp a)%Q) by apply pow2_pos.
  assert (R0 : (0 <= r)%Q).
  { apply Qmult_le_0_compat; [|apply Qlt_le_weak; exact U].
    change 0%Q with (inject_Z 0); rewrite <- Zle_Qle.
    apply round_nonneg.
    apply Qle_shift_div_l; [exact U|].
    rewrite Qmult_0_l; apply Qabs_nonneg. }
  destruct (Qle_bool 0 x) eqn:Epos.
  - apply Qle_bool_iff in Epos.
    assert (Ha : (a <= inject_Z n)%Q) by (unfold a; rewrite Qabs_pos; assumption).
    assert (Hr : (r <= inject_Z n)%Q).
    { pose proof (binade_small a n (proj2 Hn) Ha) as Hb.
      destruct (pow2_inv (Z.max (Double.binade a - 52) (-1074))) as (k & Hk & Hinv);
        [lia|].
      fold (Double.ulp a) in Hinv.
      assert (Hm : round (a / Double.ulp a) <= n * k).
      { apply round_le.
        apply Qle_shift_div_r; [exact U|].
        rewrite inject_Z_mult, <- Qmult_assoc, (Qmult_comm (inject_Z k)), Hinv,
          Qmult_1_r.
        exact Ha. }
      unfold r.
      apply Qle_trans with (y := (inject_Z (n * k) * Double.ulp a)%Q).
      - apply Qmult_le_compat_r; [rewrite <- Zle_Qle; exact Hm|].
        apply Qlt_le_weak; exact U.
      - rewrite inject_Z_mult, <- Qmult_assoc, (Qmult_comm (inject_Z k)), Hinv,
          Qmult_1_r.
        apply Qle_refl. }
    assert (Big : Qle_bool (Double.pow2 1024) r = false).
    { destruct (Qle_bool (Double.pow2 1024) r) eqn:B; [|reflexivity].
      apply Qle_bool_iff in B.
      change (Double.pow2 1024) with (inject_Z (2 ^ 1024)) in B.
      pose proof (Qle_trans _ _ _ B Hr) as C; rewrite <- Zle_Qle in C.
      assert (2 ^ 53 < 2 ^ 1024) by (apply Z.pow_lt_mono_r; lia).
      lia. }
    rewrite Big; simpl.
    apply negb_false_iff, Qle_bool_iff; exact Hr.
  - destruct (Qle_bool (Double.pow2 1024) r); [reflexivity|].
    simpl; apply negb_false_iff, Qle_bool_iff.
    apply Qle_trans with (y := 0%Q).
    + apply (Qopp_le_compat 0 r) in R0; exact R0.
    + change 0%Q with (inject_Z 0); rewrite <- Zle_Qle; lia.
Qed.

(** X22: with an interval from 0 to below [2^53], as the 120 the
    constructor sets, the gate taken on doubles and the gate taken in
    exact arithmetic differ in one way only: a difference above the
    interval can round down to it.  A call the exact gate stops is
    stopped on doubles, and a call that passes on doubles passes the
    exact gate; in both cases [update_double] and [update] run alike. *)
Theorem update_double_against_exact :
  forall (s : Self) (w : World),
    0 <= update_interval s < 2 ^ 53 ->
    ((clock w - last_update_time s <= inject_Z (update_interval s))%Q ->
     update_double s w = (Ret None, set_is_updated false s, w)
     /\ update_double s w = update s w)
    /\ (Double.gt_int (Double.sub (clock w) (last_update_time s))
          (update_interval s) = true ->
        (inject_Z (update_interval s) < clock w - last_update_time s)%Q
        /\ update_double s w = update s w).
Proof.
  intros s w Hn; split.
  - intros Hx.
    pose proof (nearest_le_int _ _ Hn Hx) as G.
    rewrite (update_double_gated s w G), (update_gated s w Hx).
    split; reflexivity.
  - intros G.
    assert (Hx : (inject_Z (update_interval s) < clock w - last_update_time s)%Q).
    { apply Qnot_le_lt; intros Hx.
      pose proof (nearest_le_int _ _ Hn Hx) as G'.
      unfold Double.sub in G; rewrite G in G'; discriminate. }
    split; [exact Hx|].
    unfold update_double, update.
    do 2 (erewrite run_bind by reflexivity).
    symmetry; do 2 (erewrite run_bind by reflexivity).
    rewrite G, (float_gt_true _ _ Hx); reflexivity.
Qed.

(** C3: a call of [update] at a time [now] with
    [now - last_update_time <= update_interval] returns None, sets
    [is_updated] to false and changes nothing else: the world is the one
    it started in, so no request was sent, and [last_update_time] and
    [cars_data] are as before.  It is so with the gate taken in exact
    arithmetic and, for an interval from 0 to below [2^53] as the
    constructor sets it, with the gate taken on doubles. *)
Theorem update_within_interval_is_noop :
  forall (s : Self) (w : World),
    (clock w - last_update_time s <= inject_Z (update_interval s))%Q ->
    result (update s w) = Ret None
    /\ final (update s w) = set_is_updated false s
    /\ is_updated (final (update s w)) = false
    /\ world (update s w) = w
    /\ trace (world (update s w)) = trace w
    /\ last_update_time (final (update s w)) = last_update_time s
    /\ cars_data (final (update s w)) = cars_data s
    /\ (0 <= update_interval s < 2 ^ 53 ->
        update_double s w = (Ret None, set_is_updated false s, w)).
Proof.
  intros s w H.
  assert (E : update s w = (Ret None, set_is_updated false s, w)).
  { unfold update, bind, time_time, self; simpl.
    rewrite (float_gt_false _ _ H); reflexivity. }
  rewrite E; repeat split.
  intros Hn; apply update_double_gated.
  exact (nearest_le_int _ _ Hn H).
Qed.


(** X23: the doubles 0.2 and 120.2, an update at the first and a call at
    the second, with the interval of 120.  The exact difference is above
    120, the difference of the doubles is the double 120: Python finds
    the gate closed, and [update] is the no-op that sends nothing, where
    exact arithmetic runs the cycle. *)
Theorem update_gate_rounds_down :
  forall (s : Self) (w : World),
    update_interval s = 120 ->
    last_update_time s = (7205759403792794 # 36028797018963968)%Q ->
    clock w = (8458323050155213 # 70368744177664)%Q ->
    (inject_Z (update_interval s) < clock w - last_update_time s)%Q
    /\ Double.gt_int (Double.sub (clock w) (last_update_time s)) 119 = true
    /\ update_double s w = (Ret None, set_is_updated false s, w)
    /\ (forall items,
          iter (cars s) = Some items ->
          update s w = from_loop items (set_cars_data (Some []) s) w).
Proof.
  intros s w Hi Hl Hc.
  assert (Hx : (inject_Z (update_interval s) < clock w - last_update_time s)%Q)
    by (rewrite Hi, Hl, Hc; reflexivity).
  split; [exact Hx|].
  split; [rewrite Hl, Hc; vm_compute; reflexivity|].
  split.
  - apply update_double_gated.
    rewrite Hi, Hl, Hc; vm_compute; reflexivity.
  - intros items Hitems; exact (update_past_gate s w items Hx Hitems).
Qed.

End Interpreter.

(** * Worked instances *)

(** The pattern on a redirect as the provider sends it, and on one where
    the first group must give characters back. *)
Example match_token_redirect :
  Re.match_token
    "https://x/external-dispatch.html#access_token=aB3_9&token_type=Bearer&expires_in=7199"
  = Some ("aB3_9", "Bearer", "7199")
  /\ Re.match_token "#access_token=abctoken_type=Bearer&expires_in=60"
     = Some ("abc", "Bearer", "60")
  /\ Re.match_token "#access_token=abc&expires_in=60" = None.
Proof. repeat split. Qed.

(** A login the provider denies leaves the session invalid, and the
    constructor then sends nothing more. *)
Example init_access_denied :
  let run := __init__ str_other_stub strftime_stub (PStr "user") (PStr "secret")
               None 600 (world_at 1000 [denied_redirect; accepted]) in
  result run = Ret tt
  /\ is_valid_session (final run) = false
  /\ List.length (trace (world run)) = 1%nat.
Proof. vm_compute; repeat split. Qed.

(** Witness of [update_within_interval_is_noop]: 100 seconds after an
    update at time 0, with an interval of 120. *)
Lemma update_within_interval_witness :
  (clock (world_at 100 [dynamic_reply fuel_attributes]) - last_update_time logged_in
   <= inject_Z (update_interval logged_in))%Q
  /\ result (update str_other_stub strftime_stub logged_in
               (world_at 100 [dynamic_reply fuel_attributes])) = Ret None
  /\ trace (world (update str_other_stub strftime_stub logged_in
                     (world_at 100 [dynamic_reply fuel_attributes]))) = [].
Proof.
  assert (H : (clock (world_at 100 [dynamic_reply fuel_attributes])
               - last_update_time logged_in
               <= inject_Z (update_interval logged_in))%Q)
    by (unfold Qle; simpl; lia).
  split; [exact H|].
  destruct (update_within_interval_is_noop str_other_stub strftime_stub
              logged_in (world_at 100 [dynamic_reply fuel_attributes]) H)
    as (Hr & _ & _ & _ & Ht & _).
  split; [exact Hr|exact Ht].
Defined.

(** Witness of [token_valid_logs_in_only_when_expired]: a token valid
    until 8199, checked at 1000 and again at 2000. *)
Lemma token_valid_witness :
  (0 <= clock (world_at 1000 [login_redirect "NEW"]))%Q
  /\ token_valid strftime_stub logged_in (world_at 1000 [login_redirect "NEW"])
     = (Ret tt, logged_in, world_at 1000 [login_redirect "NEW"])
  /\ trace (world (token_valid strftime_stub
                     (final (token_valid strftime_stub logged_in
                               (world_at 1000 [login_redirect "NEW"])))
                     (world_at 2000 [login_redirect "NEW"]))) = [].
Proof.
  assert (H0 : (0 <= clock (world_at 1000 [login_redirect "NEW"]))%Q)
    by (unfold Qle; simpl; lia).
  split; [exact H0|].
  destruct (token_valid_logs_in_only_when_expired strftime_stub logged_in
              (world_at 1000 [login_redirect "NEW"]) H0)
    as (_ & Hfresh & _ & Htwice).
  split.
  - apply Hfresh; unfold Qlt; simpl; lia.
  - apply (Htwice (world_at 2000 [login_redirect "NEW"]));
      [unfold Qle; simpl; lia|vm_compute; reflexivity].
Defined.

(** Witness of [get_cars_iterates_status_code]: the car list answered
    with 401. *)
Lemma get_cars_status_witness :
  let w := world_at 1000 [error_reply 401] in
  result (request_car_data str_other_stub strftime_stub "get_cars" None PNone
            logged_in w) = Ret (PInt 401)
  /\ result (get_cars str_other_stub strftime_stub logged_in w) = Raise TypeError
  /\ cars (final (get_cars str_other_stub strftime_stub logged_in w)) = PInt 401.
Proof.
  intros w.
  apply (get_cars_iterates_status_code str_other_stub strftime_stub
           logged_in logged_in w w "OLD" (error_reply 401) []
           (response 401 [("Content-Type", "text/html")] None None)
           eq_refl eq_refl eq_refl eq_refl).
  simpl; lia.
Defined.


(** Witness of [generate_credentials_on_failure]: the provider denies
    access to a session that was valid. *)
Lemma generate_credentials_denied_witness :
  let run := generate_credentials strftime_stub logged_in
               (world_at 9000 [denied_redirect]) in
  result run = Ret tt /\ final run = set_is_valid_session false logged_in.
Proof.
  intros run.
  destruct (generate_credentials_on_failure strftime_stub logged_in
              (world_at 9000 [denied_redirect]))
    as (_ & _ & _ & Hdenied & _).
  apply (Hdenied denied_redirect []
           (response 302
              [("Location",
                "https://www.bmw-connecteddrive.com/app/default/static/external-dispatch.html?error=access_denied")]
              None None)
           "https://www.bmw-connecteddrive.com/app/default/static/external-dispatch.html?error=access_denied");
    reflexivity.
Defined.

(** Counterexample to C7 as stated: a session that is valid, the token
    expired, and a login answered by status 500 without a Location
    header, or by a connection fault.  [generate_credentials] raises in
    both cases, and the session stays marked valid. *)
Lemma generate_credentials_failure_raises :
  let run := generate_credentials strftime_stub logged_in
               (world_at 9000 [error_reply 500]) in
  let run' := generate_credentials strftime_stub logged_in
                (world_at 9000 [connection_fault]) in
  is_valid_session logged_in = true
  /\ result run = Raise KeyError
  /\ is_valid_session (final run) = true
  /\ result run' = Raise RequestException
  /\ is_valid_session (final run') = true.
Proof. vm_compute; repeat split. Qed.

(** Counterexample to C2 as stated: two cars, the fetch for the first
    answered with its data, the fetch for the second with status 500.
    [update] returns None, but the stored [cars_data] is the list with the
    snapshot of the first car, not an empty one; so it is with the gate
    taken on doubles. *)
Lemma update_failure_stores_partial_list :
  let w := world_at 1000 [dynamic_reply fuel_attributes; error_reply 500] in
  let first := update_cars str_other_stub strftime_stub [car_i3]
                 (set_cars_data (Some []) logged_in) w in
  let run := update str_other_stub strftime_stub logged_in w in
  let run' := update_double str_other_stub strftime_stub logged_in w in
  result first = Ret Next
  /\ result (get_car_data str_other_stub strftime_stub (PStr "V2")
              (final first) (world first)) = Ret (PInt 500)
  /\ result run = Ret None
  /\ cars_data (final run)
     = Some [PDict [("remaining_fuel", PStr "41"); ("mileage", PStr "12345");
                    ("vin", PStr "V1"); ("car_name", PStr "BMW i3");
                    ("type_of_car", PStr "fuel")]]
  /\ result run' = Ret None
  /\ cars_data (final run')
     = Some [PDict [("remaining_fuel", PStr "41"); ("mileage", PStr "12345");
                    ("vin", PStr "V1"); ("car_name", PStr "BMW i3");
                    ("type_of_car", PStr "fuel")]].
Proof. vm_compute; repeat split. Qed.

(** Witness of [request_car_data_sends_token_held_on_entry], the failing
    input of C1: the token OLD has expired at 9000, the check logs in and
    stores the token NEW, and the request for the car list goes out with
    OLD. *)
Lemma request_car_data_stale_token_witness :
  let w := world_at 9000 [login_redirect "NEW";
                          exchange (response 200 [] (Some two_cars) None)] in
  let checked := token_valid strftime_stub logged_in w in
  let run := request_car_data str_other_stub strftime_stub "get_cars" None PNone
               logged_in w in
  accesstoken logged_in = Some "OLD"
  /\ accesstoken (final checked) = Some "NEW"
  /\ accesstoken (final run) = Some "NEW"
  /\ trace (world run)
     = [Sent (login_request logged_in);
        Sent (data_request "OLD"
                "https://www.bmw-connecteddrive.nl/api/me/vehicles/v2")]
  /\ header "Authorization"
       (req_headers (data_request "OLD"
                       "https://www.bmw-connecteddrive.nl/api/me/vehicles/v2"))
     = Some "Bearer OLD".
Proof.
  intros w checked run.
  destruct (request_car_data_sends_token_held_on_entry str_other_stub
              strftime_stub "get_cars" None PNone "OLD"
              logged_in (final checked) w (world checked) eq_refl eq_refl)
    as (Htr & Hauth).
  fold run in Htr.
  split; [reflexivity|].
  split; [reflexivity|].
  split; [reflexivity|].
  split; [rewrite Htr; reflexivity|exact Hauth].
Defined.

(** The requests of a command executed after a refresh, as they go out:
    the login, the submission and one status poll, none with a timeout. *)
Example requests_on_the_wire :
  let run := execute_service str_other_stub strftime_stub "horn" (PStr "V1")
               logged_in
               (world_at 9000 [login_redirect "NEW"; accepted;
                               status_document "EXECUTED"]) in
  result run = Ret true
  /\ map (fun e => match e with
                   | Sent rq => Some (req_method rq, req_timeout rq)
                   | Slept _ => None
                   end) (trace (world run))
     = [Some (POST, None); Some (POST, None); None; Some (GET, None)].
Proof. vm_compute; split; reflexivity. Qed.

(** * Worked instances of the further properties *)

(** Witness of [valid_session_holds_token]: the constructor on a login
    that succeeds and a car list that is refused. *)
Lemma valid_session_witness :
  session_ok
    (final (__init__ str_other_stub strftime_stub (PStr "user") (PStr "secret")
              None 600 (world_at 1000 [login_redirect "NEW"; error_reply 503]))).
Proof.
  apply (proj1 (valid_session_holds_token str_other_stub strftime_stub)).
Defined.

(** Witness of [match_token_reads_token_fragment]: a redirect as the
    provider sends it. *)
Lemma match_token_witness :
  Re.match_token (redirect_location "aB3_9") = Some ("aB3_9", "Bearer", "7199")
  /\ token_fragment (redirect_location "aB3_9") "aB3_9" "Bearer" "7199".
Proof.
  assert (H : Re.match_token (redirect_location "aB3_9")
              = Some ("aB3_9", "Bearer", "7199")) by reflexivity.
  split; [exact H|].
  exact (proj1 (match_token_reads_token_fragment (redirect_location "aB3_9"))
           "aB3_9" "Bearer" "7199" H).
Defined.

(** Witness of [generate_credentials_stores_token]: a refresh at 9000,
    answered half a second later with a lifetime of 7199 seconds. *)
Lemma generate_credentials_stores_witness :
  let run := generate_credentials strftime_stub logged_in
               (world_at 9000 [login_redirect "NEW"]) in
  accesstoken (final run) = Some "NEW"
  /\ token_expires (final run) = 9000 + 7199
  /\ result run = Ret tt
  /\ is_valid_session (final run) = true.
Proof.
  intros run.
  destruct (generate_credentials_stores_token strftime_stub logged_in
              (world_at 9000 [login_redirect "NEW"]) (login_redirect "NEW") []
              (response 302 [("Location", redirect_location "NEW")] None None)
              (redirect_location "NEW") "NEW" "Bearer" "7199"
              eq_refl eq_refl eq_refl eq_refl eq_refl)
    as (Htok & Hexp & _ & Hok & _).
  destruct (Hok "16199" eq_refl) as (Hr & Hv & _).
  split; [exact Htok|].
  split; [exact Hexp|].
  split; [exact Hr|exact Hv].
Defined.

(** Witness of [token_valid_after_login]: the check right after that
    refresh. *)
Lemma token_valid_after_login_witness :
  let run := generate_credentials strftime_stub logged_in
               (world_at 9000 [login_redirect "NEW"]) in
  token_valid strftime_stub (final run) (world run)
  = (Ret tt, final run, world run).
Proof.
  intros run.
  apply (proj1 (token_valid_after_login strftime_stub logged_in
                  (world_at 9000 [login_redirect "NEW"]) (login_redirect "NEW") []
                  (response 302 [("Location", redirect_location "NEW")] None None)
                  (redirect_location "NEW") "NEW" "Bearer" "7199" "16199"
                  eq_refl eq_refl eq_refl eq_refl eq_refl eq_refl)).
  vm_compute; reflexivity.
Defined.

(** Witness of [init_denied_then_requests_raise]: the constructor on a
    login the provider denies, then a fetch of the car list. *)
Lemma init_denied_witness :
  let run := __init__ str_other_stub strftime_stub (PStr "user") (PStr "secret")
               (Some "www.bmw-connecteddrive.de") 600
               (world_at 1000 [denied_redirect; cars_reply]) in
  result run = Ret tt
  /\ is_valid_session (final run) = false
  /\ get_cars str_other_stub strftime_stub (final run) (world run)
     = (Raise TypeError, final run, world run).
Proof.
  intros run.
  destruct (init_denied_then_requests_raise str_other_stub strftime_stub
              (PStr "user") (PStr "secret") (Some "www.bmw-connecteddrive.de")
              600 (world_at 1000 [denied_redirect; cars_reply])
              denied_redirect [cars_reply]
              (response 302
                 [("Location",
                   "https://www.bmw-connecteddrive.com/app/default/static/external-dispatch.html?error=access_denied")]
                 None None)
              "https://www.bmw-connecteddrive.com/app/default/static/external-dispatch.html?error=access_denied"
              eq_refl eq_refl eq_refl eq_refl)
    as (Hr & Hv & _ & _ & _ & _ & Hcars).
  split; [exact Hr|split; [exact Hv|apply Hcars]].
Defined.

(** Witness of [get_car_data_decodes_attributes_map]: the data of the
    first car. *)
Lemma get_car_data_witness :
  let run := get_car_data str_other_stub strftime_stub (PStr "V1") logged_in
               (world_at 1000 [dynamic_reply electric_attributes]) in
  result run = Ret (PDict electric_attributes)
  /\ bmw_vin (final run) = PStr "V1"
  /\ trace (world run)
     = [Sent (data_request "OLD"
                "https://www.bmw-connecteddrive.nl/api/vehicle/dynamic/v1/V1?offset=-60")].
Proof.
  intros run.
  destruct (get_car_data_decodes_attributes_map str_other_stub strftime_stub
              "V1" "OLD" logged_in logged_in
              (world_at 1000 [dynamic_reply electric_attributes])
              (world_at 1000 [dynamic_reply electric_attributes])
              (dynamic_reply electric_attributes) []
              (response 200 [] (Some (dynamic_body electric_attributes)) None)
              eq_refl eq_refl eq_refl eq_refl)
    as (Htr & Hfin & _ & _ & Hbody).
  fold run in Htr, Hfin, Hbody.
  split; [exact (Hbody (dynamic_body electric_attributes) eq_refl eq_refl)|].
  split; [rewrite Hfin; reflexivity|exact Htr].
Defined.

(** Witness of [navigation_and_efficiency_ignore_vin]: on an instance
    that has noted no VIN yet, the navigation asked for the second car is
    requested for None. *)
Lemma navigation_ignores_vin_witness :
  trace (world (get_car_navigation str_other_stub strftime_stub keys_pass_stub
                  (PStr "V2") logged_in (world_at 1000 [navigation_reply])))
  = [Sent (data_request "OLD"
             "https://www.bmw-connecteddrive.nl/api/vehicle/navigation/v1/None")].
Proof.
  destruct (proj2 (navigation_and_efficiency_ignore_vin str_other_stub
                     strftime_stub keys_pass_stub)
              (PStr "V2") "OLD" logged_in logged_in
              (world_at 1000 [navigation_reply])
              (world_at 1000 [navigation_reply])
              navigation_reply []
              (response 200 []
                 (Some (PDict [("latitude", PFloat (52 # 1));
                               ("longitude", PFloat (5 # 1))])) None)
              eq_refl eq_refl eq_refl eq_refl)
    as (Hnav & _).
  exact Hnav.
Defined.

(** Witness of [navigation_follows_last_data_request]: the data of the
    first car, then the navigation asked for the second. *)
Lemma navigation_follows_witness :
  let fetched := get_car_data str_other_stub strftime_stub (PStr "V1") logged_in
                   (world_at 1000 [dynamic_reply electric_attributes;
                                   navigation_reply]) in
  trace (world (get_car_navigation str_other_stub strftime_stub keys_pass_stub
                  (PStr "V2") (final fetched) (world fetched)))
  = (trace (world fetched)
     ++ [Sent (data_request "OLD"
                 "https://www.bmw-connecteddrive.nl/api/vehicle/navigation/v1/V1")])%list.
Proof.
  intros fetched.
  apply (navigation_follows_last_data_request str_other_stub strftime_stub
           keys_pass_stub (PStr "V1") (PStr "V2") (PDict electric_attributes)
           "OLD" logged_in (final fetched) (final fetched)
           (world_at 1000 [dynamic_reply electric_attributes; navigation_reply])
           (world fetched) (world fetched)
           navigation_reply []
           (response 200 []
              (Some (PDict [("latitude", PFloat (52 # 1));
                            ("longitude", PFloat (5 # 1))])) None));
    try reflexivity.
  discriminate.
Defined.

(** Witness of [snapshot_contents]: the snapshot of a car that runs on
    fuel keeps its mileage. *)
Lemma snapshot_witness :
  exists d d' kind,
    PDict fuel_attributes = PDict d
    /\ snapshot (PStr "V1") "BMW i3" (PDict fuel_attributes) = inr (PDict d')
    /\ dict_get "vin" d' = Some (PStr "V1")
    /\ dict_get "type_of_car" d' = Some (PStr kind)
    /\ dict_get "mileage" d' = dict_get "mileage" d.
Proof.
  destruct (proj1 (snapshot_contents (PStr "V1") "BMW i3" (PDict fuel_attributes))
              _ eq_refl)
    as (d & d' & kind & Hd & Hsnap & Hvin & _ & Hkind & _ & Hrest).
  exists d, d', kind.
  split; [exact Hd|].
  split; [rewrite <- Hsnap; reflexivity|].
  split; [exact Hvin|].
  split; [exact Hkind|].
  apply Hrest; discriminate.
Defined.

(** Witness of [update_returns_stored_snapshots]: a cycle over the two
    cars, both answered. *)
Lemma update_returns_witness :
  let run := update str_other_stub strftime_stub logged_in
               (world_at 1000 [dynamic_reply electric_attributes;
                               dynamic_reply fuel_attributes]) in
  exists l,
    result run = Ret (Some l)
    /\ cars_data (final run) = Some l
    /\ List.length l = 2%nat
    /\ is_updated (final run) = true
    /\ (last_update_time (final run) == 1001)%Q.
Proof.
  intros run.
  destruct (result run) as [[l|]|e] eqn:E; try (vm_compute in E; discriminate E).
  exists l.
  destruct (update_returns_stored_snapshots str_other_stub strftime_stub
              logged_in
              (world_at 1000 [dynamic_reply electric_attributes;
                              dynamic_reply fuel_attributes]) l E)
    as (Hstored & _ & (items & Hitems & Hlen) & Hupd & Htime).
  fold run in Hstored, Hupd, Htime.
  injection Hitems as <-.
  split; [reflexivity|].
  split; [exact Hstored|].
  split; [exact Hlen|].
  split; [exact Hupd|].
  rewrite Htime; vm_compute; reflexivity.
Defined.

(** Witness of [update_again_within_interval]: that cycle, and a second
    call 99 seconds after its end. *)
Lemma update_again_witness :
  let first := update str_other_stub strftime_stub logged_in
                 (world_at 1000 [dynamic_reply electric_attributes;
                                 dynamic_reply fuel_attributes]) in
  let again := update str_other_stub strftime_stub (final first)
                 (world_at 1100 [dynamic_reply electric_attributes]) in
  result again = Ret None
  /\ trace (world again) = []
  /\ cars_data (final again) = cars_data (final first)
  /\ is_updated (final again) = false.
Proof.
  intros first again.
  destruct (result first) as [[l|]|e] eqn:E; try (vm_compute in E; discriminate E).
  destruct (update_again_within_interval str_other_stub strftime_stub
              logged_in
              (world_at 1000 [dynamic_reply electric_attributes;
                              dynamic_reply fuel_attributes])
              (world_at 1100 [dynamic_reply electric_attributes]) l E)
    as (Hr & Hw & Hdata & _ & Hupd).
  { vm_compute; discriminate. }
  fold first in Hr, Hw, Hdata, Hupd; fold again in Hr, Hw, Hdata, Hupd.
  destruct (update_returns_stored_snapshots str_other_stub strftime_stub
              logged_in _ l E) as (Hstored & _).
  fold first in Hstored.
  split; [exact Hr|].
  split; [rewrite Hw; reflexivity|].
  split; [rewrite Hdata, Hstored; reflexivity|exact Hupd].
Defined.

(** Witness of [execute_service_rejects_before_sending]: a service the
    program does not know. *)
Lemma execute_service_unknown_witness :
  execute_service str_other_stub strftime_stub "start" (PStr "V1") logged_in
    (world_at 1000 [accepted])
  = (Raise KeyError, logged_in, world_at 1000 [accepted]).
Proof.
  apply (proj2 (execute_service_rejects_before_sending str_other_stub
                  strftime_stub "start" (PStr "V1") logged_in logged_in
                  (world_at 1000 [accepted]) (world_at 1000 [accepted])
                  eq_refl)).
  - discriminate.
  - simpl; intros [E|[E|[E|[E|[E|[]]]]]]; discriminate E.
Defined.

(** Witness of [execute_service_true_only_if_executed]: the lock command
    confirmed on its third poll. *)
Lemma execute_service_true_witness :
  let w := world_at 1000 [accepted; status_document "PENDING";
                          status_document "PENDING"; status_document "EXECUTED"] in
  result (execute_service str_other_stub strftime_stub "lock" (PStr "V1")
            logged_in w) = Ret true
  /\ exists x, In x (pending w) /\ poll_status x = Some (Some "EXECUTED").
Proof.
  intros w.
  assert (H : result (execute_service str_other_stub strftime_stub "lock"
                        (PStr "V1") logged_in w) = Ret true)
    by (vm_compute; reflexivity).
  split; [exact H|].
  exact (proj1 (execute_service_true_only_if_executed str_other_stub
                  strftime_stub "lock" (PStr "V1") logged_in w H)).
Defined.

(** Witness of [requests_are_bounded]: a gated update adds nothing to the
    trace. *)
Lemma requests_bounded_witness :
  exists evs,
    trace (world (update str_other_stub strftime_stub logged_in
                    (world_at 100 [dynamic_reply fuel_attributes])))
    = (trace (world_at 100 [dynamic_reply fuel_attributes]) ++ evs)%list
    /\ evs = [].
Proof.
  destruct (requests_are_bounded str_other_stub strftime_stub)
    as (_ & _ & Hupdate & _).
  destruct (Hupdate logged_in (world_at 100 [dynamic_reply fuel_attributes]))
    as (evs & Htr & _ & Hgated).
  exists evs; split; [exact Htr|].
  apply Hgated; unfold Qle; simpl; lia.
Defined.

(** Witness of [get_cars_stores_then_inspects]: the car list of the two
    cars. *)
Lemma get_cars_witness :
  let run := get_cars str_other_stub strftime_stub logged_in
               (world_at 1000 [cars_reply]) in
  result run = Ret two_cars /\ cars (final run) = two_cars.
Proof.
  intros run.
  destruct (get_cars_stores_then_inspects str_other_stub strftime_stub
              "OLD" logged_in logged_in
              (world_at 1000 [cars_reply]) (world_at 1000 [cars_reply])
              cars_reply [] (response 200 [] (Some two_cars) None) two_cars
              eq_refl eq_refl eq_refl eq_refl eq_refl eq_refl)
    as (Hfin & _ & Hlist & _).
  fold run in Hfin, Hlist.
  split; [|rewrite Hfin; reflexivity].
  apply (Hlist [car_i3; car_x5] eq_refl).
  assert (D : forall v b m, described (PDict [("vin", v); ("brand", b);
                                                ("modelName", m)]))
    by (intros v b m; eexists; repeat split).
  repeat constructor; apply D.
Defined.

(** Witness of [logging_methods_on_status_code]: the navigation refused
    with 500, without and with [printall]. *)
Lemma logging_methods_witness :
  result (get_car_navigation str_other_stub strftime_stub keys_pass_stub
            (PStr "V1") logged_in (world_at 1000 [error_reply 500]))
  = Ret (PInt 500)
  /\ result (get_car_navigation str_other_stub strftime_stub keys_pass_stub
               (PStr "V1") logged_in_printing (world_at 1000 [error_reply 500]))
     = Raise TypeError.
Proof.
  split.
  - apply (logging_methods_on_status_code str_other_stub strftime_stub
             keys_pass_stub (PStr "V1") "OLD" logged_in logged_in
             (world_at 1000 [error_reply 500]) (world_at 1000 [error_reply 500])
             (error_reply 500) []
             (response 500 [("Content-Type", "text/html")] None None)
             eq_refl eq_refl eq_refl eq_refl).
    simpl; lia.
  - apply (logging_methods_on_status_code str_other_stub strftime_stub
             keys_pass_stub (PStr "V1") "OLD" logged_in_printing
             logged_in_printing
             (world_at 1000 [error_reply 500]) (world_at 1000 [error_reply 500])
             (error_reply 500) []
             (response 500 [("Content-Type", "text/html")] None None)
             eq_refl eq_refl eq_refl eq_refl).
    simpl; lia.
Defined.

(** Witness of [update_aborts_on_failed_fetch]: the same cycle of two
    cars, the second fetch answered with status 500.  The stored list is
    the snapshot of the first car. *)
Lemma update_aborts_witness :
  let w := world_at 1000 [dynamic_reply fuel_attributes; error_reply 500] in
  let run := update_double str_other_stub strftime_stub logged_in w in
  let first := update_cars str_other_stub strftime_stub [car_i3]
                 (set_cars_data (Some []) logged_in) w in
  result run = Ret None
  /\ pending (world run) = []
  /\ last_update_time (final run) = last_update_time logged_in
  /\ is_updated (final run) = is_updated logged_in
  /\ exists fetched snaps,
       processed str_other_stub strftime_stub [car_i3]
         (set_cars_data (Some []) logged_in) w fetched snaps
         (final first) (world first)
       /\ cars_data (final run) = Some snaps
       /\ List.length snaps = 1%nat
       /\ Forall is_snapshot snaps.
Proof.
  intros w run first.
  pose (failed := get_car_data str_other_stub strftime_stub (PStr "V2")
                    (final first) (world first)).
  assert (Hgate : Double.gt_int
                    (Double.sub (clock w) (last_update_time logged_in))
                    (update_interval logged_in) = true)
    by (vm_compute; reflexivity).
  destruct (update_aborts_on_failed_fetch str_other_stub strftime_stub
              logged_in (final first) (final failed)
              w (world first) (world failed)
              [car_i3] [] car_x5 (PStr "V2") (PStr "BMW") (PStr "X5") 500
              Hgate eq_refl eq_refl eq_refl eq_refl eq_refl eq_refl)
    as (Hr & Hw & Ht & Hu & Hs).
  fold run in Hr, Hw, Ht, Hu, Hs.
  split; [exact Hr|].
  split; [rewrite Hw; reflexivity|].
  split; [exact Ht|].
  split; [exact Hu|exact Hs].
Defined.



(** Witness of [update_without_cars]: an account with no car. *)
Lemma update_without_cars_witness :
  let s := set_cars (PList []) logged_in in
  let run := update_double str_other_stub strftime_stub s
               (world_at 1000 [cars_reply]) in
  result run = Ret (Some [])
  /\ trace (world run) = []
  /\ last_update_time (final run) = 1000%Q.
Proof.
  intros s run.
  assert (H : update_double str_other_stub strftime_stub s
                (world_at 1000 [cars_reply])
              = (Ret (Some []),
                 set_is_updated true
                   (set_last_update_time (clock (world_at 1000 [cars_reply]))
                      (set_cars_data (Some []) s)),
                 world_at 1000 [cars_reply])).
  { apply update_without_cars; [vm_compute; reflexivity|reflexivity]. }
  unfold run; rewrite H; repeat split.
Defined.

(** Witness of [update_over_status_code]: the car list refused with 401,
    then an update on the instance that fetch left. *)
Lemma update_over_status_code_witness :
  let failed := get_cars str_other_stub strftime_stub logged_in
                  (world_at 1000 [error_reply 401]) in
  cars (final failed) = PInt 401
  /\ update_double str_other_stub strftime_stub (final failed) (world failed)
     = (Raise TypeError, set_cars_data (Some []) (final failed), world failed).
Proof.
  intros failed.
  split; [reflexivity|].
  apply update_over_status_code; [vm_compute; reflexivity|reflexivity].
Defined.

(** Witness of [update_raises_without_remaining_fuel]: the second car
    reports a charging status and no fuel level. *)
Lemma update_raises_witness :
  let w := world_at 1000 [dynamic_reply fuel_attributes;
                          dynamic_reply charging_only_attributes] in
  let run := update_double str_other_stub strftime_stub logged_in w in
  let first := update_cars str_other_stub strftime_stub [car_i3]
                 (set_cars_data (Some []) logged_in) w in
  result run = Raise KeyError
  /\ last_update_time (final run) = last_update_time logged_in
  /\ exists fetched snaps,
       processed str_other_stub strftime_stub [car_i3]
         (set_cars_data (Some []) logged_in) w fetched snaps
         (final first) (world first)
       /\ cars_data (final run) = Some snaps
       /\ List.length snaps = 1%nat
       /\ Forall is_snapshot snaps.
Proof.
  intros w run first.
  pose (second := get_car_data str_other_stub strftime_stub (PStr "V2")
                    (final first) (world first)).
  assert (Hgate : Double.gt_int
                    (Double.sub (clock w) (last_update_time logged_in))
                    (update_interval logged_in) = true)
    by (vm_compute; reflexivity).
  destruct (update_raises_without_remaining_fuel str_other_stub strftime_stub
              logged_in (final first) (final second)
              w (world first) (world second)
              [car_i3] [] car_x5 (PStr "V2") (PStr "BMW") (PStr "X5")
              charging_only_attributes
              Hgate eq_refl eq_refl eq_refl eq_refl eq_refl eq_refl
              eq_refl eq_refl)
    as (Hr & _ & Ht & _ & Hs).
  fold run in Hr, Ht, Hs.
  split; [exact Hr|split; [exact Ht|exact Hs]].
Defined.

(** Witness of [update_double_against_exact]: 100 seconds after an update
    at time 0, with the interval of 120. *)
Lemma update_double_against_exact_witness :
  let w := world_at 100 [dynamic_reply fuel_attributes] in
  update_double str_other_stub strftime_stub logged_in w
  = (Ret None, set_is_updated false logged_in, w)
  /\ update_double str_other_stub strftime_stub logged_in w
     = update str_other_stub strftime_stub logged_in w.
Proof.
  intros w.
  apply (update_double_against_exact str_other_stub strftime_stub logged_in w).
  - simpl; lia.
  - unfold Qle; simpl; lia.
Defined.


(** Witness of [update_gate_rounds_down]: the two times are the doubles
    Python reads 0.2 and 120.2 as; the call on doubles sends nothing and
    the exact one fetches the data of both cars. *)
Lemma update_gate_rounds_down_witness :
  let last := (7205759403792794 # 36028797018963968)%Q in
  let now := (8458323050155213 # 70368744177664)%Q in
  let s := set_last_update_time last logged_in in
  let w := world_at now [dynamic_reply electric_attributes;
                         dynamic_reply fuel_attributes] in
  Double.nearest (2 # 10) = Double.Finite last
  /\ Double.nearest (1202 # 10) = Double.Finite now
  /\ update_double str_other_stub strftime_stub s w
     = (Ret None, set_is_updated false s, w)
  /\ List.length (trace (world (update str_other_stub strftime_stub s w))) = 2%nat.
Proof.
  intros last now s w.
  destruct (update_gate_rounds_down str_other_stub strftime_stub s w
              eq_refl eq_refl eq_refl) as (_ & _ & Hdouble & Hexact).
  split; [vm_compute; reflexivity|].
  split; [vm_compute; reflexivity|].
  split; [exact Hdouble|].
  rewrite (Hexact [car_i3; car_x5] eq_refl); vm_compute; reflexivity.
Defined.
